(** * boa/environment.py: the patched py-evm environment

    A shallow embedding of [boa/environment.py].  Python objects that the
    module mutates are threaded explicitly; a Python call that may raise
    returns a [result]; the parts of py-evm, eth_utils and [boa.vm.utils]
    that the module only calls are parameters of the sections below. *)

From stdpp Require Import gmap strings list fin_maps.
From Stdlib Require Import ZArith Lia.

Open Scope Z_scope.

Set Warnings "-clear-no-such-hyp".

(** ** Python values, exceptions and the state-and-exception monad *)

Module Py.

(** [bytes] objects. *)
Definition bytes := list Byte.byte.

#[global] Instance byte_eq_dec : EqDecision Byte.byte := Byte.byte_eq_dec.

#[global] Instance byte_countable : Countable Byte.byte :=
  inj_countable Byte.to_N Byte.of_N Byte.of_to_N.

(** The dynamically typed values that are stored in the patched
    attributes and on the py-evm stack. *)
Inductive pyval :=
| VNone
| VInt (z : Z)
| VBytes (b : bytes)
| VHashes (hs : list bytes).

(** The exceptions the module raises or lets through. *)
Inductive exn :=
| AttributeError (attr : string)
| ValueError (msg : string)
| KeyError
| IndexError
| TypeError
| ZeroDivisionError
| RecursionError
| Halt
| VMError (what : string)
| ForeignError (what : string).

Inductive result (A : Type) :=
| Ok (a : A)
| Raise (e : exn).
Arguments Ok {A} a.
Arguments Raise {A} e.

(** A Python object that the module only stores and passes on (a handler
    function, a contract object), held by reference. *)
Definition handle := nat.

(** A computation over the mutable state [S] that returns or raises. *)
Definition M (S A : Type) : Type := S -> result A * S.

Definition ret {S A} (a : A) : M S A := fun s => (Ok a, s).
Definition raise {S A} (e : exn) : M S A := fun s => (Raise e, s).
Definition bind {S A B} (m : M S A) (k : A -> M S B) : M S B :=
  fun s => match m s with
           | (Ok a, s') => k a s'
           | (Raise e, s') => (Raise e, s')
           end.
Definition gets {S A} (f : S -> A) : M S A := fun s => (Ok (f s), s).
Definition modify {S} (f : S -> S) : M S unit := fun s => (Ok tt, f s).

(** [try: body finally: fin].  The finaliser runs on every exit path; an
    exception raised by the finaliser replaces the outcome of the body. *)
Definition try_finally {S A} (body : M S A) (fin : M S unit) : M S A :=
  fun s => match body s with
           | (r, s') => match fin s' with
                        | (Ok _, s'') => (r, s'')
                        | (Raise e, s'') => (Raise e, s'')
                        end
           end.

(** [for x in xs: f x], stopping at the first exception. *)
Fixpoint for_each {S A} (xs : list A) (f : A -> M S unit) : M S unit :=
  match xs with
  | [] => ret tt
  | x :: rest => bind (f x) (fun _ => for_each rest f)
  end.

(** An insertion-ordered [dict] with [str] keys, as a class-level literal. *)
Fixpoint dict_get {V} (d : list (string * V)) (k : string) : option V :=
  match d with
  | [] => None
  | (k', v) :: rest => if decide (k' = k) then Some v else dict_get rest k
  end.

Definition dict_keys {V} (d : list (string * V)) : list string := d.*1.

End Py.
Import Py.

Declare Scope py_scope.
Delimit Scope py_scope with py.
Notation "'let*' x := c1 'in' c2" := (bind c1 (fun x => c2))
  (at level 10, x name, c1 at level 100, c2 at level 200) : py_scope.
Open Scope py_scope.

(** ** class Address (lines 98-125) *)

Module Address.

(** What the callers pass as [address]: [bytes] or [str].  Two inputs are
    the same [dict] key exactly when they have the same type and contents. *)
Inductive raw :=
| RBytes (b : bytes)
| RStr (s : string).

#[global] Instance raw_eq_dec : EqDecision raw.
Proof. solve_decision. Defined.

(** An [Address] object.  [oid] is the identity of the object ([id(self)]):
    [a is b] is equality of identities, and the class defines neither
    [__eq__] nor [__hash__], so identity is also what a [dict] keys on.
    The three slots are assigned once, in [__new__]. *)
Record t := mk {
  oid : nat;
  checksum_address : string;
  canonical_address : bytes;
  normalized_address : string;
}.

Inductive input :=
| OfRaw (r : raw)
| OfAddress (a : t).

(** [lrudict] comes from [boa.util.lrudict], another module of the package;
    the four definitions of this section stand for it.  Entries are kept
    least recently used first. *)
Section lrudict.
Context {V : Type}.

(** Modelled from the spec: [lrudict], the lookup of a key in the bounded
    least-recently-used store keyed on the input representation. *)
Fixpoint lru_lookup (k : raw) (entries : list (raw * V)) : option V :=
  match entries with
  | [] => None
  | (k', v) :: rest => if decide (k' = k) then Some v else lru_lookup k rest
  end.

(** Modelled from the spec: [lrudict], removing the entry of a key. *)
Fixpoint lru_remove (k : raw) (entries : list (raw * V)) : list (raw * V) :=
  match entries with
  | [] => []
  | (k', v) :: rest =>
      if decide (k' = k) then lru_remove k rest else (k', v) :: lru_remove k rest
  end.

(** Modelled from the spec: [lrudict.__getitem__], a cache lookup; a hit
    makes the entry the most recently used one, a miss is a [KeyError]
    ([None] here). *)
Definition lru_getitem (k : raw) (entries : list (raw * V))
  : option (V * list (raw * V)) :=
  match lru_lookup k entries with
  | Some v => Some (v, lru_remove k entries ++ [(k, v)])
  | None => None
  end.

(** Modelled from the spec: [lrudict.__setitem__], insert, evicting the
    least-recently-used entry if over capacity. *)
Definition lru_setitem (n : nat) (k : raw) (v : V) (entries : list (raw * V))
  : list (raw * V) :=
  let entries' := lru_remove k entries ++ [(k, v)] in
  if (n <? length entries')%nat then tail entries' else entries'.

End lrudict.

(** [_cache = lrudict(1024)] *)
Definition cache_capacity : nat := 1024.

(** The class-level state: the cache and the allocator of object
    identities. *)
Record store := mkStore {
  _cache : list (raw * t);
  next_oid : nat;
}.

(** [eth_utils], which the module imports. *)
Class EthUtils := {
  to_checksum_address : raw -> result string;
  to_canonical_address : raw -> result bytes;
}.

(** [str.lower] on the ASCII range. *)
Definition lower_ascii (c : Ascii.ascii) : Ascii.ascii :=
  let n := Ascii.nat_of_ascii c in
  if ((65 <=? n) && (n <=? 90))%nat then Ascii.ascii_of_nat (n + 32) else c.

Fixpoint lower (s : string) : string :=
  match s with
  | EmptyString => EmptyString
  | String c rest => String (lower_ascii c) (lower rest)
  end.

Section new.
Context `{EthUtils}.

(** [Address.__new__] *)
Definition new_ (address : input) : M store t :=
  fun s =>
    match address with
    | OfAddress a => (Ok a, s)
    | OfRaw r =>
        match lru_getitem r (_cache s) with
        | Some (a, cache') => (Ok a, mkStore cache' (next_oid s))
        | None =>
            match to_checksum_address r with
            | Raise e => (Raise e, s)
            | Ok checksum =>
                match to_canonical_address r with
                | Raise e => (Raise e, s)
                | Ok canonical =>
                    let self := mk (next_oid s) checksum canonical (lower checksum) in
                    (Ok self,
                     mkStore (lru_setitem cache_capacity r self (_cache s))
                             (S (next_oid s)))
                end
            end
        end
    end.

(** [str(address)] *)
Definition __str__ (a : t) : string := checksum_address a.

(** A run of constructor calls, results dropped. *)
Fixpoint new_all (inputs : list input) (s : store) : store :=
  match inputs with
  | [] => s
  | i :: rest => new_all rest (new_ i s).2
  end.

(** [k] is a key of the cache in every state the run goes through. *)
Fixpoint stays_cached (k : raw) (inputs : list input) (s : store) : Prop :=
  is_Some (lru_lookup k (_cache s)) /\
  match inputs with
  | [] => True
  | i :: rest => stays_cached k rest (new_ i s).2
  end.

(** No call of the run drops [k] from the cache: a call that finds [k] a
    key leaves it a key.  This says nothing of whether [k] is a key. *)
Fixpoint not_evicted (k : raw) (inputs : list input) (s : store) : Prop :=
  match inputs with
  | [] => True
  | i :: rest =>
      (is_Some (lru_lookup k (_cache s)) ->
       is_Some (lru_lookup k (_cache (new_ i s).2))) /\
      not_evicted k rest (new_ i s).2
  end.

End new.

End Address.

(** ** The precompile registry (lines 140-166) *)

Module Precompiles.

(** The module-level state: the [Address] class and the global
    [_precompiles], a [dict] keyed by [Address] objects, that is, by their
    identity: the entry of the object with identity [k] is kept at [k] as
    the key object and the value. *)
Record state := mkState {
  addresses : Address.store;
  _precompiles : gmap nat (Address.t * handle);
}.

Section registry.
Context `{Address.EthUtils}.

(** [Address(address)] *)
Definition Address_ (address : Address.input) : M state Address.t :=
  fun s =>
    match Address.new_ address (addresses s) with
    | (r, a') => (r, mkState a' (_precompiles s))
    end.

Definition register_raw_precompile
  (address : Address.input) (fn : handle) (force : bool) : M state unit :=
  let* address := Address_ address in
  let* registry := gets _precompiles in
  if bool_decide (Address.oid address ∈ dom registry) && negb force
  then raise (ValueError ("Already registered: " +:+ Address.__str__ address))
  else modify (fun s => mkState (addresses s)
                                (<[Address.oid address := (address, fn)]> registry)).

Definition deregister_raw_precompile
  (address : Address.input) (force : bool) : M state unit :=
  let* address := Address_ address in
  let* registry := gets _precompiles in
  if bool_decide (Address.oid address ∉ dom registry) && negb force
  then raise (ValueError "Not registered: {address}")
  else modify (fun s => mkState (addresses s)
                                (delete (Address.oid address) registry)).

End registry.

End Precompiles.

(** ** The objects behind an [Env]: the py-evm state and the patched ones *)

Module Runtime.

(** The two objects [VMPatcher] writes into: [vm.state.execution_context]
    and the module [eth.vm.forks.spurious_dragon.computation]. *)
Inductive target :=
| ExecutionContext
| SpuriousDragon.

(** The account data that [snapshot]/[revert] cover. *)
Record Accounts := mkAccounts {
  balances : gmap bytes Z;
  nonces : gmap bytes Z;
  codes : gmap bytes bytes;
}.

(** The calls that reach the engine and the patched objects, in the order
    they are made.  The trace is kept next to the state and is read by no
    operation. *)
Inductive event :=
| EvSetattr (p : target) (field : string) (v : pyval)
| EvSnapshot (id : nat)
| EvRevert (id : nat)
| EvSetBalance (a : bytes) (v : Z)
| EvGetNonce (a : bytes)
| EvIncrementNonce (a : bytes).

(** Everything an [Env] method can read or write. *)
Record World := mkWorld {
  (* class Address *)
  addresses : Address.store;
  (* the attributes of the two patched objects *)
  execution_context : gmap string pyval;
  spurious_dragon : gmap string pyval;
  (* vm.state: the accounts and the stack of open checkpoints *)
  accounts : Accounts;
  checkpoints : list (nat * Accounts);
  next_checkpoint : nat;
  (* the Env instance *)
  eoa : option Address.t;
  _gas_price : option Z;
  _contracts : gmap bytes handle;
  _coverage_enabled : bool;
  _speed : Z;
  (* the calls made so far *)
  effects : list event;
}.

Definition set_addresses (f : Address.store -> Address.store) (w : World) :=
  mkWorld (f (addresses w)) (execution_context w) (spurious_dragon w)
          (accounts w) (checkpoints w) (next_checkpoint w) (eoa w)
          (_gas_price w) (_contracts w) (_coverage_enabled w) (_speed w) (effects w).

Definition set_attrs (p : target) (f : gmap string pyval -> gmap string pyval)
  (w : World) :=
  match p with
  | ExecutionContext =>
      mkWorld (addresses w) (f (execution_context w)) (spurious_dragon w)
              (accounts w) (checkpoints w) (next_checkpoint w) (eoa w)
              (_gas_price w) (_contracts w) (_coverage_enabled w) (_speed w) (effects w)
  | SpuriousDragon =>
      mkWorld (addresses w) (execution_context w) (f (spurious_dragon w))
              (accounts w) (checkpoints w) (next_checkpoint w) (eoa w)
              (_gas_price w) (_contracts w) (_coverage_enabled w) (_speed w) (effects w)
  end.

Definition set_accounts (f : Accounts -> Accounts) (w : World) :=
  mkWorld (addresses w) (execution_context w) (spurious_dragon w)
          (f (accounts w)) (checkpoints w) (next_checkpoint w) (eoa w)
          (_gas_price w) (_contracts w) (_coverage_enabled w) (_speed w) (effects w).

Definition set_checkpoints (cps : list (nat * Accounts)) (next : nat) (w : World) :=
  mkWorld (addresses w) (execution_context w) (spurious_dragon w)
          (accounts w) cps next (eoa w)
          (_gas_price w) (_contracts w) (_coverage_enabled w) (_speed w) (effects w).

Definition set_eoa (a : option Address.t) (w : World) :=
  mkWorld (addresses w) (execution_context w) (spurious_dragon w)
          (accounts w) (checkpoints w) (next_checkpoint w) a
          (_gas_price w) (_contracts w) (_coverage_enabled w) (_speed w) (effects w).

Definition emit (e : event) (w : World) :=
  mkWorld (addresses w) (execution_context w) (spurious_dragon w)
          (accounts w) (checkpoints w) (next_checkpoint w) (eoa w)
          (_gas_price w) (_contracts w) (_coverage_enabled w) (_speed w) (effects w ++ [e]).

Definition attrs (p : target) (w : World) : gmap string pyval :=
  match p with
  | ExecutionContext => execution_context w
  | SpuriousDragon => spurious_dragon w
  end.

(** [getattr(p, field)] and [setattr(p, field, value)] on a patched object. *)
Definition py_getattr (p : target) (field : string) : M World pyval :=
  fun w =>
    match attrs p w !! field with
    | Some v => (Ok v, w)
    | None => (Raise (AttributeError field), w)
    end.

Definition write_attr (p : target) (field : string) (v : pyval) (w : World) : World :=
  emit (EvSetattr p field v) (set_attrs p (<[field := v]>) w).

Definition py_setattr (p : target) (field : string) (v : pyval) : M World unit :=
  fun w => (Ok tt, write_attr p field v w).

(** *** The engine: [vm.state]

    py-evm is used through [snapshot], [revert], and the balance, nonce and
    code accessors.  A checkpoint records the accounts; [revert] goes back
    to the checkpoint and drops it together with those taken after it. *)

(** [snapshot()]: a new checkpoint on top of the open ones. *)
Definition state_snapshot : M World nat :=
  fun w =>
    let id := next_checkpoint w in
    (Ok id,
     emit (EvSnapshot id)
          (set_checkpoints ((id, accounts w) :: checkpoints w) (S id) w)).

Fixpoint discard_to (id : nat) (cps : list (nat * Accounts))
  : option (Accounts * list (nat * Accounts)) :=
  match cps with
  | [] => None
  | (i, saved) :: rest =>
      if decide (i = id) then Some (saved, rest) else discard_to id rest
  end.

(** [revert(id)]; an unknown checkpoint is an error of the engine. *)
Definition state_revert (id : nat) : M World unit :=
  fun w =>
    match discard_to id (checkpoints w) with
    | Some (saved, rest) =>
        (Ok tt,
         emit (EvRevert id)
              (set_checkpoints rest (next_checkpoint w)
                               (set_accounts (fun _ => saved) w)))
    | None => (Raise (ForeignError "unknown checkpoint"), emit (EvRevert id) w)
    end.

(** What a caller hands to the engine where it takes an address: a
    [bytes] value, or an [Address] object, which is no [bytes] (the class
    has no base class). *)
Inductive engine_arg :=
| ArgBytes (b : bytes)
| ArgAddress (a : Address.t).

(** py-evm's [validate_canonical_address]: [ValidationError] unless the
    value is [bytes] of length twenty. *)
Definition validate_canonical_address (x : engine_arg) : result bytes :=
  match x with
  | ArgBytes b =>
      if bool_decide (length b = 20%nat) then Ok b
      else Raise (ForeignError "ValidationError")
  | ArgAddress _ => Raise (ForeignError "ValidationError")
  end.

(** py-evm's [validate_uint256]. *)
Definition validate_uint256 (value : Z) : result Z :=
  if bool_decide (0 <= value < 2 ^ 256) then Ok value
  else Raise (ForeignError "ValidationError").

(** [vm.state.set_balance(address, balance)] and
    [vm.state.get_balance(address)]: the account database validates the
    address, and the balance to write, before it does anything. *)
Definition state_set_balance (address : engine_arg) (value : Z) : M World unit :=
  match validate_canonical_address address with
  | Raise e => raise e
  | Ok k =>
      match validate_uint256 value with
      | Raise e => raise e
      | Ok v =>
          modify (fun w =>
            emit (EvSetBalance k v)
                 (set_accounts (fun acc => mkAccounts (<[k := v]> (balances acc))
                                                      (nonces acc) (codes acc)) w))
      end
  end.

Definition state_get_balance (address : engine_arg) : M World Z :=
  match validate_canonical_address address with
  | Raise e => raise e
  | Ok k => gets (fun w => default 0 (balances (accounts w) !! k))
  end.

Definition state_get_nonce (a : bytes) : M World Z :=
  fun w => (Ok (default 0 (nonces (accounts w) !! a)), emit (EvGetNonce a) w).

Definition state_increment_nonce (a : bytes) : M World unit :=
  modify (fun w =>
    emit (EvIncrementNonce a)
         (set_accounts (fun acc =>
            mkAccounts (balances acc)
                       (<[a := default 0 (nonces acc !! a) + 1]> (nonces acc))
                       (codes acc)) w)).

Definition state_get_code (a : bytes) : M World bytes :=
  gets (fun w => default [] (codes (accounts w) !! a)).

(** [vm.state.gas_limit] reads the execution context. *)
Definition state_gas_limit : M World pyval :=
  py_getattr ExecutionContext "_gas_limit".

(** [Env._lookup_contract_fast] (line 474): [self._contracts.get(address)] *)
Definition _lookup_contract_fast (address : bytes) : M World (option handle) :=
  gets (fun w => _contracts w !! address).

End Runtime.
Import Runtime.

(** ** class VMPatcher (lines 41-94) *)

Module VMPatcher.

Definition _exc_patchables : list (string * string) :=
  [ ("block_number", "_block_number");
    ("timestamp", "_timestamp");
    ("coinbase", "_coinbase");
    ("difficulty", "_difficulty");
    ("prev_hashes", "_prev_hashes");
    ("chain_id", "_chain_id");
    ("gas_limit", "_gas_limit") ]%string.

Definition _cmp_patchables : list (string * string) :=
  [ ("code_size_limit", "EIP170_CODE_SIZE_LIMIT") ]%string.

(** [self._patchables], set in [__init__]. *)
Definition _patchables : list (list (string * string) * target) :=
  [ (_exc_patchables, ExecutionContext); (_cmp_patchables, SpuriousDragon) ].

(** The loop of [__getattr__]. *)
Fixpoint getattr_in (ps : list (list (string * string) * target)) (attr : string)
  : M World pyval :=
  match ps with
  | [] => raise (AttributeError attr)
  | (s, p) :: rest =>
      match dict_get s attr with
      | Some field => py_getattr p field
      | None => getattr_in rest attr
      end
  end.

(** [VMPatcher.__getattr__]: Python calls it for the names that the
    ordinary lookup does not find, which is the case of every patchable
    name. *)
Definition __getattr__ (attr : string) : M World pyval :=
  getattr_in _patchables attr.

(** The loop of [__setattr__]. *)
Fixpoint setattr_in (ps : list (list (string * string) * target)) (attr : string)
  (value : pyval) : M World unit :=
  match ps with
  | [] => ret tt
  | (s, p) :: rest =>
      match dict_get s attr with
      | Some field => py_setattr p field value
      | None => setattr_in rest attr value
      end
  end.

(** [VMPatcher.__setattr__] *)
Definition __setattr__ (attr : string) (value : pyval) : M World unit :=
  setattr_in _patchables attr value.

(** [for s, _ in self._patchables: for attr in s] *)
Definition patchable_names : list string :=
  flat_map (fun sp => dict_keys sp.1) _patchables.

(** [anchor], up to the [yield]: [snap[attr] = getattr(self, attr)]. *)
Fixpoint take_snap (names : list string) (snap : gmap string pyval)
  : M World (gmap string pyval) :=
  match names with
  | [] => ret snap
  | attr :: rest =>
      let* v := __getattr__ attr in
      take_snap rest (<[attr := v]> snap)
  end.

Definition anchor_enter : M World (gmap string pyval) :=
  take_snap patchable_names ∅.

(** [anchor], the [finally] clause: [setattr(self, attr, snap[attr])]. *)
Definition anchor_exit (snap : gmap string pyval) : M World unit :=
  for_each patchable_names (fun attr =>
    match snap !! attr with
    | Some v => __setattr__ attr v
    | None => raise KeyError
    end).

(** [with self.anchor(): body] *)
Definition anchor {A} (body : M World A) : M World A :=
  let* snap := anchor_enter in
  try_finally body (anchor_exit snap).

(** The attribute behind each patchable name, in the order of the two
    loops. *)
Definition slots : list (target * string) :=
  flat_map (fun sp => (fun af => (sp.2, af.2)) <$> sp.1) _patchables.

(** Every patched attribute exists on its object. *)
Definition patched (w : World) : Prop :=
  Forall (fun slot => is_Some (attrs slot.1 w !! slot.2)) slots.

(** The writes that put back the values the attributes have in [w]. *)
Definition restore_events (w : World) : list event :=
  omap (fun slot => EvSetattr slot.1 slot.2 <$> attrs slot.1 w !! slot.2) slots.

End VMPatcher.

(** ** Messages and computations of py-evm, as far as the module reads them *)

Module Evm.

Record Message := mkMessage {
  sender : bytes;
  to : bytes;
  gas : pyval;
  value : Z;
  code : bytes;
  data : bytes;
  create_address : option bytes;
  _code_address : option bytes;
  is_static : bool;
  (* the attributes that [execute_code] sets on its [FakeMessage] *)
  _fake_codesize : option Z;
  _start_pc : Z;
  _contract : option handle;
}.

(** The properties [Message.code_address] and [Message.storage_address]. *)
Definition code_address (m : Message) : bytes :=
  default (to m) (_code_address m).

Definition storage_address (m : Message) : bytes :=
  default (to m) (create_address m).

Record TxCtx := mkTxCtx {
  origin : bytes;
  gas_price : Z;
}.

(** An entry of the py-evm stack: a pair of a type and a value. *)
Inductive pytype :=
| TyInt
| TyBytes.

Definition stackitem : Type := pytype * pyval.

(** A computation object: the frame while it runs, the result once it has
    run.  [_trace] is the trace of [TracingCodeStream]. *)
#[warnings="-register-all"]
Inductive Computation := mkComputation {
  msg : Message;
  stack_values : list stackitem;
  _memory : bytes;
  _error : option exn;
  output : bytes;
  children : list Computation;
  _trace : list Z;
}.

Definition is_error (c : Computation) : bool := bool_decide (is_Some (_error c)).

End Evm.
Import Evm.

(** ** The tracing opcodes (lines 218-268) and the two trace methods of [Env]
       (lines 411-419) *)

Module Tracers.

(** [env.sha3_trace] and [env.sstore_trace]. *)
Record TraceStore := mkTraceStore {
  sha3_trace : gmap bytes bytes;
  sstore_trace : gmap bytes (gset Z);
}.

(** [Env._trace_sha3_preimage] *)
Definition _trace_sha3_preimage (preimage image : bytes) : M TraceStore unit :=
  modify (fun env => mkTraceStore (<[image := preimage]> (sha3_trace env))
                                  (sstore_trace env)).

(** [Env._trace_sstore]: [setdefault(account, set())], then [add(slot)]. *)
Definition _trace_sstore (account : bytes) (slot : Z) : M TraceStore unit :=
  let* _ := modify (fun env =>
    match sstore_trace env !! account with
    | Some _ => env
    | None => mkTraceStore (sha3_trace env) (<[account := ∅]> (sstore_trace env))
    end) in
  modify (fun env =>
    match sstore_trace env !! account with
    | Some slots =>
        mkTraceStore (sha3_trace env)
                     (<[account := slots ∪ {[slot]}]> (sstore_trace env))
    | None => env
    end).

(** [values[-2:]] *)
Definition last2 {A} (l : list A) : list A := drop (length l - 2) l.

Section hooks.
(** [boa.vm.utils.to_int] and [to_bytes], and py-evm's [Memory.read_bytes]. *)
Variable to_int : pyval -> Z.
Variable to_bytes : pyval -> bytes.
Variable read_bytes : bytes -> Z -> Z -> bytes.

Definition _stackitem_to_int (value : stackitem) : Z := to_int value.2.
Definition _stackitem_to_bytes (value : stackitem) : bytes := to_bytes value.2.

(** [Sha3PreimageTracer.__call__]; [sha3] is the wrapped opcode, which
    works on the computation in place and may raise. *)
Definition Sha3PreimageTracer_call (sha3 : Computation -> result Computation)
  (computation : Computation) : M TraceStore Computation :=
  match _stackitem_to_int <$> last2 (stack_values computation) with
  | [size; offset] =>
      match sha3 computation with
      | Raise e => raise e
      | Ok computation' =>
          if bool_decide (size ≠ 64) then ret computation'
          else
            let preimage := read_bytes (_memory computation') offset size in
            match last (stack_values computation') with
            | None => raise IndexError
            | Some top =>
                let image := _stackitem_to_bytes top in
                let* _ := _trace_sha3_preimage preimage image in
                ret computation'
            end
      end
  | _ => raise (ValueError "not enough values to unpack")
  end.

(** [SstoreTracer.__call__] *)
Definition SstoreTracer_call (sstore : Computation -> result Computation)
  (computation : Computation) : M TraceStore Computation :=
  match _stackitem_to_int <$> last2 (stack_values computation) with
  | [value; slot] =>
      let account := storage_address (msg computation) in
      let* _ := _trace_sstore account slot in
      fun env => (sstore computation, env)
  | _ => raise (ValueError "not enough values to unpack")
  end.

(** The store after the hook has run for each computation of a list. *)
Definition run_sstores (sstore : Computation -> result Computation)
  (ops : list Computation) (env : TraceStore) : TraceStore :=
  foldl (fun e c => (SstoreTracer_call sstore c e).2) env ops.

(** The slot an SSTORE frame writes: the top of its stack. *)
Definition written_slot (c : Computation) : option Z :=
  _stackitem_to_int <$> last (stack_values c).

(** The slots that the frames of [account] in a list write, in order. *)
Definition slots_written (account : bytes) (ops : list Computation) : list Z :=
  omap written_slot
       (filter (fun c => storage_address (msg c) = account) ops).

(** The value an SSTORE frame writes: the entry under the top. *)
Definition written_value (c : Computation) : option Z :=
  _stackitem_to_int <$> head (last2 (stack_values c)).

End hooks.

End Tracers.

(** ** class titanoboa_computation: [apply_computation] (lines 334-350) *)

Module Computation.

Definition _SLOW : Z := 0.
Definition _FAST : Z := 1.
Definition _LUDICROUS : Z := 2.

Section apply.
(** What the class gets from its py-evm base and from the contract:
    [super().apply_computation], the constructor [cls(state, msg, tx_ctx)],
    [__exit__], which says whether it swallows the exception it is given,
    and [contract.ir_executor.exec], which works on the frame in place and
    may raise.  [__enter__] returns [self]. *)
Variable super_apply_computation : Message -> TxCtx -> M World Computation.
Variable cls : Message -> TxCtx -> M World Computation.
Variable frame_exit : Computation -> option exn -> World -> (Computation * bool) * World.
Variable ir_exec : handle -> Computation -> World -> (Computation * option exn) * World.

(** The body of the [with] statement: [try: exec(computation) except Halt: pass];
    what is returned is the frame and the exception that leaves the body. *)
Definition native_body (contract : handle) (computation : Computation)
  : World -> (Computation * option exn) * World :=
  fun w =>
    match ir_exec contract computation w with
    | (computation', Some Halt, w') => (computation', None, w')
    | other => other
    end.

(** [with cls(state, msg, tx_ctx) as computation: ...; return computation] *)
Definition native_path (contract : handle) (msg : Message)
  (tx_ctx : TxCtx) : M World Computation :=
  let* computation := cls msg tx_ctx in
  fun w =>
    match native_body contract computation w with
    | (computation', pending, w') =>
        match frame_exit computation' pending w' with
        | (final, swallowed, w'') =>
            match pending with
            | None => (Ok final, w'')
            | Some e => if swallowed then (Ok final, w'') else (Raise e, w'')
            end
        end
    end.

Definition apply_computation (msg : Message) (tx_ctx : TxCtx) : M World Computation :=
  let addr := code_address msg in
  let* contract :=
    if bool_decide (addr ≠ []) then _lookup_contract_fast addr else ret None in
  let* speed := gets _speed in
  match contract with
  | None => super_apply_computation msg tx_ctx
  | Some contract =>
      if bool_decide (speed = _SLOW) then super_apply_computation msg tx_ctx
      else native_path contract msg tx_ctx
  end.

End apply.

End Computation.

(** ** class Env (lines 354-654) *)

Module Env.

(** [a += b] on an attribute value: integers add, anything else plus an
    [int] is a [TypeError]. *)
Definition py_iadd (a : pyval) (b : Z) : result pyval :=
  match a with
  | VInt z => Ok (VInt (z + b))
  | _ => Raise TypeError
  end.

(** [a // b] on integers. *)
Definition py_floordiv (a b : Z) : result Z :=
  if bool_decide (b = 0) then Raise ZeroDivisionError else Ok (a `div` b).

Definition of_result {S A} (r : result A) : M S A := fun s => (r, s).

(** The statements of a block under [with env.anchor():]: the calls into
    the environment that a block makes, [env.vm.state.set_balance] on the
    engine itself, an exception, and a nested anchored block. *)
#[warnings="-register-all"]
Inductive stmt :=
| SetBalance (addr : Address.input) (value : Z)
| StateSetBalance (address : bytes) (value : Z)
| SetPatch (attr : string) (value : pyval)
| TimeTravel (seconds blocks : option Z) (block_delta : Z)
| RaiseExn (e : exn)
| Anchored (body : list stmt).

Section env.
Context `{Address.EthUtils}.
(** [eth._utils.address.generate_contract_address], the two class methods
    of [vm.state.computation_class] that submit a message, and the number of
    Python frames left before [RecursionError]. *)
Variable generate_contract_address : bytes -> Z -> bytes.
Variable apply_create_message : Message -> TxCtx -> M World Computation.
Variable apply_message : Message -> TxCtx -> M World Computation.
Variable recursion_limit : nat.

(** [Address(address)] *)
Definition Address_ (address : Address.input) : M World Address.t :=
  fun w =>
    match Address.new_ address (addresses w) with
    | (r, a') => (r, set_addresses (fun _ => a') w)
    end.

Definition get_gas_price : M World Z :=
  gets (fun w => default 0 (_gas_price w)).

(** Both hand the [Address] object itself to the engine. *)
Definition set_balance (addr : Address.input) (value : Z) : M World unit :=
  let* a := Address_ addr in
  state_set_balance (ArgAddress a) value.

Definition get_balance (addr : Address.input) : M World Z :=
  let* a := Address_ addr in
  state_get_balance (ArgAddress a).

(** [with self.anchor(): body] *)
Definition anchor {A} (body : M World A) : M World A :=
  let* snapshot_id := state_snapshot in
  try_finally (VMPatcher.anchor body) (state_revert snapshot_id).

Definition _get_sender (sender : option Address.input) : M World bytes :=
  let* eoa_ := gets eoa in
  let sender := match sender with
                | None => Address.OfAddress <$> eoa_
                | Some s => Some s
                end in
  match eoa_, sender with
  | Some _, Some sender =>
      let* a := Address_ sender in
      ret (Address.canonical_address a)
  | _, _ => raise (ValueError "eoa not defined!")
  end.

Definition deploy_code (sender : option Address.input) (gas : option Z)
  (value : Z) (bytecode : bytes) (start_pc : Z)
  (override_address : option Address.input) : M World (bytes * bytes) :=
  let* gas := match gas with
              | None => state_gas_limit
              | Some g => ret (VInt g)
              end in
  let* sender := _get_sender sender in
  let* target_address :=
    match override_address with
    | Some override =>
        let* a := Address_ override in
        ret (Address.canonical_address a)
    | None =>
        let* nonce := state_get_nonce sender in
        let* _ := state_increment_nonce sender in
        ret (generate_contract_address sender nonce)
    end in
  let msg := mkMessage sender [] gas value bytecode [] (Some target_address)
                       None false None 0 None in
  let origin := sender in
  let* price := get_gas_price in
  let tx_ctx := mkTxCtx origin price in
  let* c := apply_create_message msg tx_ctx in
  match _error c with
  | Some error => raise error
  | None => ret (target_address, output c)
  end.

(** [deploy_code] up to the submission: the target address and the two
    arguments of [apply_create_message]. *)
Definition deploy_submission (sender : option Address.input) (gas : option Z)
  (value : Z) (bytecode : bytes) (start_pc : Z)
  (override_address : option Address.input) : M World (bytes * Message * TxCtx) :=
  let* gas := match gas with
              | None => state_gas_limit
              | Some g => ret (VInt g)
              end in
  let* sender := _get_sender sender in
  let* target_address :=
    match override_address with
    | Some override =>
        let* a := Address_ override in
        ret (Address.canonical_address a)
    | None =>
        let* nonce := state_get_nonce sender in
        let* _ := state_increment_nonce sender in
        ret (generate_contract_address sender nonce)
    end in
  let msg := mkMessage sender [] gas value bytecode [] (Some target_address)
                       None false None 0 None in
  let origin := sender in
  let* price := get_gas_price in
  let tx_ctx := mkTxCtx origin price in
  ret (target_address, msg, tx_ctx).

(** [_hook_trace_computation]; the first argument counts the frames that
    Python still allows. *)
Fixpoint _hook_trace_computation (frames : nat) (computation : Computation)
  (contract : option handle) : M World unit :=
  match frames with
  | O => raise RecursionError
  | S frames' =>
      let* _ := for_each (_trace computation) (fun _pc => ret tt) in
      for_each (children computation) (fun child =>
        let* child_contract := _lookup_contract_fast (code_address (msg child)) in
        _hook_trace_computation frames' computation child_contract)
  end.

Definition execute_code (to_address : Address.input)
  (sender : option Address.input) (gas : option Z) (value : Z) (data : bytes)
  (override_bytecode : option bytes) (is_modifying : bool) (start_pc : Z)
  (fake_codesize : option Z) (contract : option handle)
  : M World Computation :=
  let* gas := match gas with
              | None => state_gas_limit
              | Some g => ret (VInt g)
              end in
  let* sender := _get_sender sender in
  let* to_ := Address_ to_address in
  let to := Address.canonical_address to_ in
  let* bytecode := match override_bytecode with
                   | None => state_get_code to
                   | Some b => ret b
                   end in
  let is_static := negb is_modifying in
  let msg := mkMessage sender to gas value bytecode data None None is_static
                       fake_codesize start_pc contract in
  let origin := sender in
  let* price := get_gas_price in
  let tx_ctx := mkTxCtx origin price in
  let* ret_ := apply_message msg tx_ctx in
  let* coverage := gets _coverage_enabled in
  let* _ := if coverage
            then _hook_trace_computation recursion_limit ret_ contract
            else ret tt in
  ret ret_.

(** [execute_code] up to the submission: the two arguments of
    [apply_message]. *)
Definition execute_submission (to_address : Address.input)
  (sender : option Address.input) (gas : option Z) (value : Z) (data : bytes)
  (override_bytecode : option bytes) (is_modifying : bool) (start_pc : Z)
  (fake_codesize : option Z) (contract : option handle)
  : M World (Message * TxCtx) :=
  let* gas := match gas with
              | None => state_gas_limit
              | Some g => ret (VInt g)
              end in
  let* sender := _get_sender sender in
  let* to_ := Address_ to_address in
  let to := Address.canonical_address to_ in
  let* bytecode := match override_bytecode with
                   | None => state_get_code to
                   | Some b => ret b
                   end in
  let is_static := negb is_modifying in
  let msg := mkMessage sender to gas value bytecode data None None is_static
                       fake_codesize start_pc contract in
  let origin := sender in
  let* price := get_gas_price in
  let tx_ctx := mkTxCtx origin price in
  ret (msg, tx_ctx).

Definition time_travel (seconds blocks : option Z) (block_delta : Z)
  : M World unit :=
  if bool_decide (bool_decide (seconds = None) = bool_decide (blocks = None))
  then raise (ValueError "One of seconds or blocks should be set")
  else
    let* sb :=
      match seconds, blocks with
      | Some seconds, _ =>
          let* blocks := of_result (py_floordiv seconds block_delta) in
          ret (seconds, blocks)
      | None, Some blocks => ret (blocks * block_delta, blocks)
      | None, None => raise (ForeignError "AssertionError")
      end in
    let* timestamp := VMPatcher.__getattr__ "timestamp" in
    let* timestamp := of_result (py_iadd timestamp sb.1) in
    let* _ := VMPatcher.__setattr__ "timestamp" timestamp in
    let* block_number := VMPatcher.__getattr__ "block_number" in
    let* block_number := of_result (py_iadd block_number sb.2) in
    VMPatcher.__setattr__ "block_number" block_number.

(** Running a block. *)
Fixpoint run_stmt (s : stmt) : M World unit :=
  match s with
  | SetBalance addr value => set_balance addr value
  | StateSetBalance address value => state_set_balance (ArgBytes address) value
  | SetPatch attr value => VMPatcher.__setattr__ attr value
  | TimeTravel seconds blocks block_delta => time_travel seconds blocks block_delta
  | RaiseExn e => raise e
  | Anchored body =>
      anchor ((fix run_all (l : list stmt) : M World unit :=
                 match l with
                 | [] => ret tt
                 | s :: rest => let* _ := run_stmt s in run_all rest
                 end) body)
  end.

Definition run_block (body : list stmt) : M World unit :=
  for_each body run_stmt.

End env.

End Env.

(** ** class TracingCodeStream (lines 184-215) *)

Module TracingCodeStream.

(** [eth.vm.opcode_values.STOP] *)
Definition STOP : Z := 0.

(** The stream.  [_raw_code_bytes] and [_length_cache] are set by the
    constructor of the base class, the latter to the length of the code. *)
Record t := mk {
  _raw_code_bytes : bytes;
  _length_cache : Z;
  _fake_codesize : option Z;
  program_counter : Z;
  _trace : list Z;
}.

Definition __init__ (code_bytes : bytes) (start_pc : Z) (fake_codesize : option Z) : t :=
  mk code_bytes (Z.of_nat (length code_bytes)) fake_codesize start_pc [].

(** [b[i]] on [bytes]: a negative index counts from the end, an index out
    of range is an [IndexError]. *)
Definition py_getitem (b : bytes) (i : Z) : result Z :=
  let n := Z.of_nat (length b) in
  let j := if bool_decide (i < 0) then i + n else i in
  if bool_decide (0 <= j < n)
  then match b !! Z.to_nat j with
       | Some x => Ok (Z.of_N (Byte.to_N x))
       | None => Raise IndexError
       end
  else Raise IndexError.

(** One [next()] on the generator that [__iter__] returns.  The state is the
    stream and whether the generator has run to its end (it has yielded
    [STOP], or it has raised); [None] is [StopIteration]. *)
Definition next_ : M (t * bool) (option Z) :=
  fun st =>
    let cs := st.1 in
    if st.2 then (Ok None, st)
    else if bool_decide (program_counter cs < _length_cache cs)
    then match py_getitem (_raw_code_bytes cs) (program_counter cs) with
         | Ok opcode =>
             (Ok (Some opcode),
              (mk (_raw_code_bytes cs) (_length_cache cs) (_fake_codesize cs)
                  (program_counter cs + 1)
                  (_trace cs ++ [program_counter cs]), false))
         | Raise e => (Raise e, (cs, true))
         end
    else (Ok (Some STOP), (cs, true)).

(** [self.program_counter = pc], as a jump does between two opcodes. *)
Definition jump (pc : Z) : M (t * bool) unit :=
  modify (fun st =>
    (mk (_raw_code_bytes st.1) (_length_cache st.1) (_fake_codesize st.1) pc
        (_trace st.1), st.2)).

(** What the consumer of the generator does: ask for the next opcode, or
    move the program counter. *)
Inductive action :=
| Next
| Jump (pc : Z).

(** The opcodes yielded over a run of actions. *)
Fixpoint run (acts : list action) : M (t * bool) (list Z) :=
  match acts with
  | [] => ret []
  | Next :: rest =>
      let* o := next_ in
      let* ys := run rest in
      ret (option_list o ++ ys)
  | Jump pc :: rest =>
      let* _ := jump pc in
      run rest
  end.

Definition __len__ (cs : t) : Z :=
  match _fake_codesize cs with
  | Some n => n
  | None => _length_cache cs
  end.

End TracingCodeStream.

(** ** class Env: the registries, the aliases, the address counter and the
       scoped overrides (lines 432-525) *)

Module Registry.

(** The [Env] fields that these methods use beside those of [World]. *)
Record State := mkState {
  world : World;
  _aliases : gmap bytes string;
  _code_registry : gmap bytes handle;
  _address_counter : Z;
  (* vm.state.computation_class._gas_meter_class *)
  _gas_meter_class : handle;
}.

Definition lift {A} (m : M World A) : M State A :=
  fun s =>
    match m (world s) with
    | (r, w') => (r, mkState w' (_aliases s) (_code_registry s)
                             (_address_counter s) (_gas_meter_class s))
    end.

Definition set_contracts (f : gmap bytes handle -> gmap bytes handle) (w : World) :=
  mkWorld (addresses w) (execution_context w) (spurious_dragon w)
          (accounts w) (checkpoints w) (next_checkpoint w) (eoa w)
          (_gas_price w) (f (_contracts w)) (_coverage_enabled w) (_speed w)
          (effects w).

Definition set_aliases (f : gmap bytes string -> gmap bytes string) (s : State) :=
  mkState (world s) (f (_aliases s)) (_code_registry s) (_address_counter s)
          (_gas_meter_class s).

Definition set_code_registry (f : gmap bytes handle -> gmap bytes handle) (s : State) :=
  mkState (world s) (_aliases s) (f (_code_registry s)) (_address_counter s)
          (_gas_meter_class s).

Definition set_address_counter (c : Z) (s : State) :=
  mkState (world s) (_aliases s) (_code_registry s) c (_gas_meter_class s).

(** [int.to_bytes(length, byteorder="big")]: the big-endian digits, an
    [OverflowError] for a negative integer or one that does not fit. *)
Definition byte_of_Z (z : Z) : Byte.byte :=
  default Byte.x00 (Byte.of_N (Z.to_N z)).

Fixpoint big_endian (length : nat) (z : Z) : bytes :=
  match length with
  | O => []
  | S n => big_endian n (z `div` 256) ++ [byte_of_Z (z `mod` 256)]
  end.

Definition int_to_bytes (z : Z) (length : nat) : result bytes :=
  if bool_decide (0 <= z < 256 ^ Z.of_nat length)
  then Ok (big_endian length z)
  else Raise (ForeignError "OverflowError").

(** [int.from_bytes(b, byteorder="big")] *)
Definition int_from_bytes (b : bytes) : Z :=
  foldl (fun acc x => acc * 256 + Z.of_N (Byte.to_N x)) 0 b.

Section registry.
Context `{Address.EthUtils}.

(** [Address(address)] *)
Definition Address_ (address : Address.input) : M State Address.t :=
  lift (Env.Address_ address).

Definition set_gas_meter_class (cls : handle) : M State unit :=
  modify (fun s => mkState (world s) (_aliases s) (_code_registry s)
                           (_address_counter s) cls).

(** [with self.gas_meter_class(cls): body] *)
Definition gas_meter_class {A} (cls : handle) (body : M State A) : M State A :=
  let* tmp := gets _gas_meter_class in
  try_finally (let* _ := set_gas_meter_class cls in body)
              (set_gas_meter_class tmp).

Definition register_contract (address : Address.input) (obj : handle) : M State unit :=
  let* a := Address_ address in
  let addr := Address.canonical_address a in
  let* _ := lift (modify (set_contracts (<[addr := obj]>))) in
  let* bytecode := lift (state_get_code addr) in
  modify (set_code_registry (<[bytecode := obj]>)).

Definition register_blueprint (bytecode : bytes) (obj : handle) : M State unit :=
  modify (set_code_registry (<[bytecode := obj]>)).

Definition lookup_contract (address : Address.input) : M State (option handle) :=
  let* a := Address_ address in
  lift (_lookup_contract_fast (Address.canonical_address a)).

Definition alias (address : Address.input) (name : string) : M State unit :=
  let* a := Address_ address in
  modify (set_aliases (<[Address.canonical_address a := name]>)).

Definition lookup_alias (address : Address.input) : M State string :=
  let* a := Address_ address in
  let* aliases := gets _aliases in
  match aliases !! Address.canonical_address a with
  | Some name => ret name
  | None => raise KeyError
  end.

(** [with self.sender(address): body] *)
Definition sender {A} (address : Address.input) (body : M State A) : M State A :=
  let* tmp := lift (gets eoa) in
  let* a := Address_ address in
  let* _ := lift (modify (set_eoa (Some a))) in
  try_finally body (lift (modify (set_eoa tmp))).

Definition prank {A} (address : Address.input) (body : M State A) : M State A :=
  sender address body.

Definition generate_address (alias_ : option string) : M State Address.t :=
  let* _ := modify (fun s => set_address_counter (_address_counter s + 1) s) in
  let* counter := gets _address_counter in
  let* raw := Env.of_result (int_to_bytes counter 20) in
  let* t := Address_ (Address.OfRaw (Address.RBytes raw)) in
  let* _ := match alias_ with
            | Some name => alias (Address.OfAddress t) name
            | None => ret tt
            end in
  ret t.

End registry.

End Registry.

(** ** Notions used in the statements below *)

(** [k] is the key of exactly one entry, and that entry holds [a]. *)
Definition sole (k : Address.raw) (a : Address.t)
  (entries : list (Address.raw * Address.t)) : Prop :=
  exists l1 l2, entries = l1 ++ (k, a) :: l2 /\ (k ∉ l1.*1) /\ (k ∉ l2.*1).

(** What one run of the SSTORE hook leaves in the store. *)
Definition touched (account : bytes) (slot : Z) (env : Tracers.TraceStore)
  : Tracers.TraceStore :=
  Tracers.mkTraceStore
    (Tracers.sha3_trace env)
    (<[account := default ∅ (Tracers.sstore_trace env !! account) ∪ {[slot]}]>
       (Tracers.sstore_trace env)).

(** Some key of the registry is an [Address] object for the address with
    these canonical bytes. *)
Definition bound (canonical : bytes) (registry : gmap nat (Address.t * handle))
  : Prop :=
  exists k a fn, registry !! k = Some (a, fn) /\
                 Address.canonical_address a = canonical.

(** [w'] differs from [w] at most in the state of the [Address] class. *)
Definition same_but_addresses (w w' : World) : Prop :=
  w' = set_addresses (fun _ => addresses w') w.

(** What a block may change without the anchor noticing: the open
    checkpoints stay, the two patched objects change at patched attributes
    only, and calls are only added to the trace. *)
Definition frame (w w' : World) : Prop :=
  checkpoints w' = checkpoints w /\
  (forall f, f ∉ VMPatcher._exc_patchables.*2 ->
             execution_context w' !! f = execution_context w !! f) /\
  (forall f, f ∉ VMPatcher._cmp_patchables.*2 ->
             spurious_dragon w' !! f = spurious_dragon w !! f) /\
  exists evs, effects w' = effects w ++ evs.

(** The snapshot that [VMPatcher.anchor] takes and the world after its
    [finally] clause, for given values of the eight attributes. *)
Section snapshot.
Variables v1 v2 v3 v4 v5 v6 v7 v8 : pyval.

Definition snap_of : gmap string pyval :=
  <["code_size_limit" := v8]>
  (<["gas_limit" := v7]>
  (<["chain_id" := v6]>
  (<["prev_hashes" := v5]>
  (<["difficulty" := v4]>
  (<["coinbase" := v3]>
  (<["timestamp" := v2]>
  (<["block_number" := v1]> ∅))))))).

Definition restore (w : World) : World :=
  write_attr SpuriousDragon "EIP170_CODE_SIZE_LIMIT" v8
  (write_attr ExecutionContext "_gas_limit" v7
  (write_attr ExecutionContext "_chain_id" v6
  (write_attr ExecutionContext "_prev_hashes" v5
  (write_attr ExecutionContext "_difficulty" v4
  (write_attr ExecutionContext "_coinbase" v3
  (write_attr ExecutionContext "_timestamp" v2
  (write_attr ExecutionContext "_block_number" v1 w))))))).

(** The eight attributes have these values in [w]. *)
Definition holds (w : World) : Prop :=
  execution_context w !! "_block_number" = Some v1 /\
  execution_context w !! "_timestamp" = Some v2 /\
  execution_context w !! "_coinbase" = Some v3 /\
  execution_context w !! "_difficulty" = Some v4 /\
  execution_context w !! "_prev_hashes" = Some v5 /\
  execution_context w !! "_chain_id" = Some v6 /\
  execution_context w !! "_gas_limit" = Some v7 /\
  spurious_dragon w !! "EIP170_CODE_SIZE_LIMIT" = Some v8.

End snapshot.

(** The world after [revert] went back to the checkpoint on top. *)
Definition reverted (id : nat) (saved : Accounts) (rest : list (nat * Accounts))
  (w : World) : World :=
  emit (EvRevert id)
       (set_checkpoints rest (next_checkpoint w) (set_accounts (fun _ => saved) w)).

(** The world in which the block of [anchor] starts. *)
Definition entered (w : World) : World := (state_snapshot w).2.

(** ** Concrete instances, for the examples *)

Module Fixtures.

Definition addr (b : Byte.byte) : bytes := b :: replicate 19 Byte.x00.

(** The address [addr x01] as text. *)
Definition hex01 : string := "0x0100000000000000000000000000000000000000".

(** A stand-in for [eth_utils]: [bytes] inputs of twenty bytes are
    addresses, and so is the text [hex01]; the checksummed text is left
    abstract as a fixed string per first byte; everything else is
    rejected. *)
Definition hex_of (b : bytes) : string :=
  match b with
  | Byte.x01 :: _ => "0xAb01"
  | Byte.x02 :: _ => "0xCd02"
  | _ => "0xEf00"
  end.

#[global] Instance eth_utils : Address.EthUtils := {|
  Address.to_checksum_address r :=
    match r with
    | Address.RBytes b =>
        if bool_decide (length b = 20%nat) then Ok (hex_of b)
        else Raise (ValueError "not an address")
    | Address.RStr s =>
        if bool_decide (s = hex01) then Ok "0xAb01"
        else Raise (ValueError "not an address")
    end;
  Address.to_canonical_address r :=
    match r with
    | Address.RBytes b =>
        if bool_decide (length b = 20%nat) then Ok b
        else Raise (ValueError "not an address")
    | Address.RStr s =>
        if bool_decide (s = hex01) then Ok (addr Byte.x01)
        else Raise (ValueError "not an address")
    end;
|}.

Definition alice : Address.input := Address.OfRaw (Address.RBytes (addr Byte.x01)).
Definition bob : Address.input := Address.OfRaw (Address.RBytes (addr Byte.x02)).

Definition store0 : Address.store := Address.mkStore [] 0.

(** An environment as [Env.__init__] and [_init_vm] leave it, with the
    eight patched attributes present. *)
Definition ctx0 : gmap string pyval :=
  <["_block_number" := VInt 1]>
  (<["_timestamp" := VInt 1000]>
  (<["_coinbase" := VBytes (addr Byte.x00)]>
  (<["_difficulty" := VInt 0]>
  (<["_prev_hashes" := VHashes []]>
  (<["_chain_id" := VInt 1]>
  (<["_gas_limit" := VInt 100000000]> ∅)))))).

Definition sd0 : gmap string pyval :=
  <["EIP170_CODE_SIZE_LIMIT" := VInt 24576]> ∅.

Definition eoa0 : Address.t :=
  Address.mk 0 "0xEf00" (addr Byte.x00) "0xef00".

Definition world0 : World :=
  mkWorld (Address.mkStore [] 1) ctx0 sd0 (mkAccounts ∅ ∅ ∅) [] 0
          (Some eoa0) None ∅ false Computation._SLOW [].

(** Stand-ins for [boa.vm.utils.to_int] and [to_bytes] and for the memory
    of py-evm. *)
Definition to_int (v : pyval) : Z :=
  match v with
  | VInt z => z
  | _ => 0
  end.

Definition to_bytes (v : pyval) : bytes :=
  match v with
  | VBytes b => b
  | _ => []
  end.

Definition read_bytes (mem : bytes) (offset size : Z) : bytes :=
  take (Z.to_nat size) (drop (Z.to_nat offset) mem).

Definition msg0 : Message :=
  mkMessage (addr Byte.x00) (addr Byte.x01) (VInt 100000) 0 [] [] None None
            false None 0 None.

(** A frame of the account [addr x01] about to run SSTORE or SHA3 with the
    two given stack entries on top. *)
Definition frame (under top : Z) : Computation :=
  mkComputation msg0 [(TyInt, VInt 99); (TyInt, VInt under); (TyInt, VInt top)]
                (replicate 64 Byte.x2a) None [] [] [].

(** A stand-in for the wrapped SSTORE: pops its two operands. *)
Definition sstore_op (c : Computation) : result Computation :=
  Ok (mkComputation (msg c) (take (length (stack_values c) - 2) (stack_values c))
                    (_memory c) (_error c) (output c) (children c) (_trace c)).

(** A stand-in for the wrapped SHA3: replaces its two operands by a fixed
    image. *)
Definition sha3_op (c : Computation) : result Computation :=
  Ok (mkComputation (msg c)
        (take (length (stack_values c) - 2) (stack_values c)
           ++ [(TyBytes, VBytes [Byte.xaa; Byte.xbb])])
        (_memory c) (_error c) (output c) (children c) (_trace c)).

(** Stand-ins for the py-evm base class and for a contract whose native
    path stores one output byte and then halts. *)
Definition result_of (m : Message) (out : bytes) (err : option exn)
  (kids : list Computation) : Computation :=
  mkComputation m [] [] err out kids [].

Definition super_apply_computation (m : Message) (tx : TxCtx) : M World Computation :=
  ret (result_of m [Byte.x01] None []).

Definition cls (m : Message) (tx : TxCtx) : M World Computation :=
  ret (result_of m [] None []).

Definition frame_exit (c : Computation) (pending : option exn) (w : World)
  : (Computation * bool) * World :=
  match pending with
  | Some (VMError what) =>
      (mkComputation (msg c) (stack_values c) (_memory c) (Some (VMError what))
                     (output c) (children c) (_trace c), true, w)
  | _ => (c, false, w)
  end.

Definition ir_exec (contract : handle) (c : Computation) (w : World)
  : (Computation * option exn) * World :=
  (mkComputation (msg c) (stack_values c) (_memory c) (_error c)
                 [Byte.x02] (children c) (_trace c), Some Halt, w).

(** [world0] with a contract registered at [addr x01] and the fast mode on. *)
Definition world_fast : World :=
  mkWorld (Address.mkStore [] 1) ctx0 sd0 (mkAccounts ∅ ∅ ∅) [] 0
          (Some eoa0) None {[ addr Byte.x01 := 3%nat ]} false
          Computation._FAST [].

Definition tx0 : TxCtx := mkTxCtx (addr Byte.x00) 0.

(** Stand-ins for the engine: a creation and a call that fail with a
    revert, the call after one nested call; and
    [generate_contract_address]. *)
Definition generate_contract_address (sender : bytes) (nonce : Z) : bytes :=
  addr Byte.x09.

Definition child0 : Computation := result_of msg0 [] None [].

Definition apply_create_message (m : Message) (tx : TxCtx) : M World Computation :=
  ret (result_of m [] (Some (VMError "Revert")) []).

Definition apply_message (m : Message) (tx : TxCtx) : M World Computation :=
  ret (result_of m [] (Some (VMError "Revert")) [child0]).

(** [world0] with coverage on. *)
Definition world_cov : World :=
  mkWorld (Address.mkStore [] 1) ctx0 sd0 (mkAccounts ∅ ∅ ∅) [] 0
          (Some eoa0) None ∅ true Computation._SLOW [].

End Fixtures.

(** ** Further notions, for the properties beyond the dispatch and anchor ones *)

(** A cache entry is what [Address.__new__] builds from its key, and its
    object is older than the next identity. *)
Definition entry_wf `{Address.EthUtils} (next : nat) (e : Address.raw * Address.t) : Prop :=
  Address.to_checksum_address e.1 = Ok (Address.checksum_address e.2) /\
  Address.to_canonical_address e.1 = Ok (Address.canonical_address e.2) /\
  Address.normalized_address e.2 = Address.lower (Address.checksum_address e.2) /\
  (Address.oid e.2 < next)%nat.

(** The state of the [Address] class as the constructor keeps it: one entry
    per key, one object per entry, at most [cache_capacity] entries, each
    entry built from its key. *)
Definition store_wf `{Address.EthUtils} (s : Address.store) : Prop :=
  NoDup (Address._cache s).*1 /\
  NoDup (Address.oid <$> (Address._cache s).*2) /\
  (length (Address._cache s) <= Address.cache_capacity)%nat /\
  Forall (entry_wf (Address.next_oid s)) (Address._cache s).

(** The entry of [k] is unique, holds [a], and at most [n] entries have been
    used more recently. *)
Definition sole_within (n : nat) (k : Address.raw) (a : Address.t)
  (entries : list (Address.raw * Address.t)) : Prop :=
  exists l1 l2, entries = l1 ++ (k, a) :: l2 /\ (k ∉ l1.*1) /\ (k ∉ l2.*1) /\
                (length l2 <= n)%nat.

(** The object and attribute behind a patchable name, as both loops of
    [VMPatcher] find them. *)
Definition slot_of (attr : string) : option (target * string) :=
  match dict_get VMPatcher._exc_patchables attr with
  | Some field => Some (ExecutionContext, field)
  | None =>
      match dict_get VMPatcher._cmp_patchables attr with
      | Some field => Some (SpuriousDragon, field)
      | None => None
      end
  end.

(** The opcodes of a code, as indexing [bytes] gives them. *)
Definition opcodes (code : bytes) : list Z := (fun x => Z.of_N (Byte.to_N x)) <$> code.

(** The positions [p], [p + 1], ... below [n]. *)
Definition positions (p n : Z) : list Z := seqZ p (n - p).

(** ** Further instances, for the examples *)

Module Examples.


(** A fresh environment: no account has been set. *)
Definition world_no_eoa : World := set_eoa None Fixtures.world0.

(** The fields of a new [Env] around [world0]: no alias, no contract, the
    address counter at its initial value. *)
Definition state0 : Registry.State := Registry.mkState Fixtures.world0 ∅ ∅ 100 0%nat.

(** A wrapped SSTORE that fails, as in a static call. *)
Definition sstore_fails (c : Computation) : result Computation :=
  Raise (VMError "WriteProtection").

(** Native code that fails with an error of the engine, and native code
    that fails with an error of its own. *)
Definition ir_exec_reverts (contract : handle) (c : Computation) (w : World)
  : (Computation * option exn) * World :=
  (c, Some (VMError "Revert"), w).

Definition ir_exec_crashes (contract : handle) (c : Computation) (w : World)
  : (Computation * option exn) * World :=
  (c, Some KeyError, w).

(** An engine in which every creation succeeds with a fixed runtime code,
    and a contract address that depends on the nonce. *)
Definition create_ok (m : Message) (tx : TxCtx) : M World Computation :=
  ret (Fixtures.result_of m [Byte.xfe] None []).

Definition contract_address (sender : bytes) (nonce : Z) : bytes :=
  Registry.big_endian 20 nonce.

End Examples.

(** * Properties *)

(** ** VMPatcher *)

Lemma dict_get_None {V} (d : list (string * V)) (k : string) :
  k ∉ dict_keys d -> dict_get d k = None.
Proof.
  induction d as [|[k' v] d IH]; simpl; [done|].
  intros Hk. apply not_elem_of_cons in Hk as [Hne Hk].
  case_decide; [congruence | auto].
Qed.

Lemma patchable_names_eq :
  VMPatcher.patchable_names =
  ["block_number"; "timestamp"; "coinbase"; "difficulty"; "prev_hashes";
   "chain_id"; "gas_limit"; "code_size_limit"]%string.
Proof. reflexivity. Qed.

Lemma getattr_timestamp :
  VMPatcher.__getattr__ "timestamp" = py_getattr ExecutionContext "_timestamp".
Proof. reflexivity. Qed.

Lemma getattr_block_number :
  VMPatcher.__getattr__ "block_number" = py_getattr ExecutionContext "_block_number".
Proof. reflexivity. Qed.

Lemma setattr_timestamp v :
  VMPatcher.__setattr__ "timestamp" v = py_setattr ExecutionContext "_timestamp" v.
Proof. reflexivity. Qed.

Lemma setattr_block_number v :
  VMPatcher.__setattr__ "block_number" v = py_setattr ExecutionContext "_block_number" v.
Proof. reflexivity. Qed.

Lemma unknown_name_not_in_dicts (attr : string) :
  attr ∉ VMPatcher.patchable_names ->
  dict_get VMPatcher._exc_patchables attr = None /\
  dict_get VMPatcher._cmp_patchables attr = None.
Proof.
  intros Hn. split; apply dict_get_None; intros Hin; apply Hn;
    change (attr ∈ dict_keys VMPatcher._exc_patchables
                   ++ dict_keys VMPatcher._cmp_patchables);
    apply elem_of_app; auto.
Qed.

(** C5 (the getter half holds, the setter half does not).  For a name
    outside the recognized set, [__getattr__] raises [AttributeError] with
    that name and leaves everything as it was, whereas [__setattr__]
    returns normally, also leaving everything as it was: the assignment is
    dropped without an error. *)
Theorem patch_unknown_name (attr : string) (value : pyval) (w : World) :
  attr ∉ VMPatcher.patchable_names ->
  VMPatcher.__getattr__ attr w = (Raise (AttributeError attr), w) /\
  VMPatcher.__setattr__ attr value w = (Ok tt, w).
Proof.
  intros Hn. destruct (unknown_name_not_in_dicts attr Hn) as [He Hc].
  unfold VMPatcher.__getattr__, VMPatcher.__setattr__, VMPatcher._patchables.
  cbn [VMPatcher.getattr_in VMPatcher.setattr_in]. rewrite He, Hc. done.
Qed.

Lemma patch_unknown_name_witness :
  VMPatcher.__getattr__ "block_numbr" Fixtures.world0
    = (Raise (AttributeError "block_numbr"), Fixtures.world0) /\
  VMPatcher.__setattr__ "block_numbr" (VInt 7) Fixtures.world0
    = (Ok tt, Fixtures.world0).
Proof.
  apply (patch_unknown_name "block_numbr" (VInt 7) Fixtures.world0).
  rewrite patchable_names_eq. intros Hin.
  repeat (apply elem_of_cons in Hin as [Hin|Hin]; [discriminate Hin|]).
  by apply elem_of_nil in Hin.
Defined.

(** ** Env.time_travel *)

Lemma time_travel_run (seconds blocks : Z) (t b : Z) (w : World) :
  execution_context w !! "_timestamp" = Some (VInt t) ->
  execution_context w !! "_block_number" = Some (VInt b) ->
  let w1 := (py_setattr ExecutionContext "_timestamp" (VInt (t + seconds)) w).2 in
  let w2 := (py_setattr ExecutionContext "_block_number" (VInt (b + blocks)) w1).2 in
  (let* timestamp := VMPatcher.__getattr__ "timestamp" in
   let* timestamp := Env.of_result (Env.py_iadd timestamp (seconds, blocks).1) in
   let* _ := VMPatcher.__setattr__ "timestamp" timestamp in
   let* block_number := VMPatcher.__getattr__ "block_number" in
   let* block_number := Env.of_result (Env.py_iadd block_number (seconds, blocks).2) in
   VMPatcher.__setattr__ "block_number" block_number) w = (Ok tt, w2).
Proof.
  intros Ht Hb w1 w2.
  rewrite getattr_timestamp, getattr_block_number.
  unfold bind at 1. unfold py_getattr at 1. simpl attrs. rewrite Ht.
  unfold bind at 1. simpl.
  unfold bind at 1. rewrite setattr_timestamp.
  unfold bind at 1. unfold py_getattr. simpl.
  rewrite lookup_insert_ne by done. rewrite Hb.
  unfold bind at 1. simpl. rewrite setattr_block_number. reflexivity.
Qed.

Lemma time_travel_lookups (seconds blocks t b : Z) (w : World) :
  let w1 := (py_setattr ExecutionContext "_timestamp" (VInt (t + seconds)) w).2 in
  let w2 := (py_setattr ExecutionContext "_block_number" (VInt (b + blocks)) w1).2 in
  execution_context w2 !! "_timestamp" = Some (VInt (t + seconds)) /\
  execution_context w2 !! "_block_number" = Some (VInt (b + blocks)).
Proof.
  simpl. split.
  - rewrite lookup_insert_ne by done. apply lookup_insert_eq.
  - apply lookup_insert_eq.
Qed.

(** C3.  In an environment whose patched timestamp and block number are the
    integers [t] and [b]: [time_travel(seconds=120, block_delta=12)] returns
    and leaves the timestamp at [t + 120] and the block number at [b + 10];
    with both [seconds] and [blocks] given, or with neither, it raises
    [ValueError] and changes nothing; with [blocks] alone it returns and
    leaves the timestamp at [t + blocks * block_delta] and the block number
    at [b + blocks]. *)
Theorem time_travel_spec (w : World) (t b : Z) :
  execution_context w !! "_timestamp" = Some (VInt t) ->
  execution_context w !! "_block_number" = Some (VInt b) ->
  (exists w',
      Env.time_travel (Some 120) None 12 w = (Ok tt, w') /\
      execution_context w' !! "_timestamp" = Some (VInt (t + 120)) /\
      execution_context w' !! "_block_number" = Some (VInt (b + 10))) /\
  (forall seconds blocks block_delta, exists msg,
      Env.time_travel (Some seconds) (Some blocks) block_delta w
      = (Raise (ValueError msg), w)) /\
  (forall block_delta, exists msg,
      Env.time_travel None None block_delta w = (Raise (ValueError msg), w)) /\
  (forall blocks block_delta, exists w',
      Env.time_travel None (Some blocks) block_delta w = (Ok tt, w') /\
      execution_context w' !! "_timestamp" = Some (VInt (t + blocks * block_delta)) /\
      execution_context w' !! "_block_number" = Some (VInt (b + blocks))).
Proof.
  intros Ht Hb. repeat split.
  - eexists. split.
    + unfold Env.time_travel. cbn [bool_decide decide_rel].
      change (bool_decide (bool_decide (Some 120 = None) = bool_decide (None = @None Z)))
        with false. cbv iota.
      unfold bind at 1. unfold bind at 1. unfold Env.of_result, Env.py_floordiv.
      change (bool_decide (12 = 0)) with false. cbv iota. unfold ret at 1.
      change (120 `div` 12) with 10.
      apply (time_travel_run 120 10 t b w Ht Hb).
    + apply time_travel_lookups.
  - intros seconds blocks block_delta. eexists. reflexivity.
  - intros block_delta. eexists. reflexivity.
  - intros blocks block_delta. eexists. split.
    + unfold Env.time_travel.
      change (bool_decide (bool_decide (None = None) = bool_decide (Some blocks = @None Z)))
        with false. cbv iota.
      unfold bind at 1. unfold ret at 1.
      apply (time_travel_run (blocks * block_delta) blocks t b w Ht Hb).
    + apply time_travel_lookups.
Qed.

Lemma time_travel_spec_witness :
  exists w',
    Env.time_travel (Some 120) None 12 Fixtures.world0 = (Ok tt, w') /\
    execution_context w' !! "_timestamp" = Some (VInt 1120) /\
    execution_context w' !! "_block_number" = Some (VInt 11).
Proof.
  exact (proj1 (time_travel_spec Fixtures.world0 1000 1 eq_refl eq_refl)).
Defined.

(** ** Address *)

Section address_facts.
Context `{Address.EthUtils}.

Lemma lru_lookup_app_notin {V} (k : Address.raw) (l1 l2 : list (Address.raw * V)) :
  k ∉ l1.*1 -> Address.lru_lookup k (l1 ++ l2) = Address.lru_lookup k l2.
Proof.
  induction l1 as [|[k' v] l1 IH]; simpl; [done|].
  intros Hk. apply not_elem_of_cons in Hk as [Hne Hk].
  case_decide; [congruence | auto].
Qed.

Lemma lru_lookup_None {V} (k : Address.raw) (l : list (Address.raw * V)) :
  Address.lru_lookup k l = None <-> k ∉ l.*1.
Proof.
  induction l as [|[k' v] l IH]; simpl.
  - split; [intros _; apply not_elem_of_nil | done].
  - case_decide as Hd.
    + subst. split; [done|]. intros Hn. exfalso. apply Hn. left.
    + rewrite IH. rewrite not_elem_of_cons. split; [by split | tauto].
Qed.

Lemma lru_remove_notin {V} (k : Address.raw) (l : list (Address.raw * V)) :
  k ∉ (Address.lru_remove k l).*1.
Proof.
  induction l as [|[k' v] l IH]; simpl; [apply not_elem_of_nil|].
  case_decide; [done|]. simpl. apply not_elem_of_cons. split; [congruence | done].
Qed.

Lemma lru_remove_id {V} (k : Address.raw) (l : list (Address.raw * V)) :
  k ∉ l.*1 -> Address.lru_remove k l = l.
Proof.
  induction l as [|[k' v] l IH]; simpl; [done|].
  intros Hk. apply not_elem_of_cons in Hk as [Hne Hk].
  case_decide; [congruence|]. by rewrite IH.
Qed.

Lemma lru_remove_app {V} (k : Address.raw) (l1 l2 : list (Address.raw * V)) :
  Address.lru_remove k (l1 ++ l2) = Address.lru_remove k l1 ++ Address.lru_remove k l2.
Proof.
  induction l1 as [|[k' v] l1 IH]; simpl; [done|].
  case_decide; [done|]. simpl. by rewrite IH.
Qed.

Lemma lru_remove_keys_subseteq {V} (k k' : Address.raw) (l : list (Address.raw * V)) :
  k' ∈ (Address.lru_remove k l).*1 -> k' ∈ l.*1.
Proof.
  induction l as [|[k0 v] l IH]; simpl; [done|].
  case_decide; simpl.
  - intros Hin. right. auto.
  - rewrite !elem_of_cons. tauto.
Qed.

Lemma sole_lookup k a l : sole k a l -> Address.lru_lookup k l = Some a.
Proof.
  intros (l1 & l2 & -> & H1 & H2).
  rewrite lru_lookup_app_notin by done. simpl. by rewrite decide_True.
Qed.

(** A hit keeps the entry unique and makes it the last one. *)
Lemma sole_getitem_same k a l :
  sole k a l -> sole k a (Address.lru_remove k l ++ [(k, a)]).
Proof.
  intros _. exists (Address.lru_remove k l), []. split; [done|].
  split; [apply lru_remove_notin | apply not_elem_of_nil].
Qed.

(** Removing another key keeps the entry. *)
Lemma sole_remove_other k a k' l :
  k' <> k -> sole k a l -> sole k a (Address.lru_remove k' l).
Proof.
  intros Hne (l1 & l2 & -> & H1 & H2).
  exists (Address.lru_remove k' l1), (Address.lru_remove k' l2).
  rewrite lru_remove_app. simpl. rewrite decide_False by done.
  split; [done|]. split; intros Hin; apply lru_remove_keys_subseteq in Hin; done.
Qed.

Lemma sole_app_other k a l k' v :
  k' <> k -> sole k a l -> sole k a (l ++ [(k', v)]).
Proof.
  intros Hne (l1 & l2 & -> & H1 & H2).
  exists l1, (l2 ++ [(k', v)]). rewrite <- app_assoc. simpl.
  split; [done|]. split; [done|].
  rewrite fmap_app. simpl. rewrite elem_of_app, list_elem_of_singleton.
  intros [?|?]; congruence.
Qed.

(** Dropping the least recently used entry either drops the entry of [k]
    or keeps it unique. *)
Lemma sole_tail k a l :
  sole k a l -> is_Some (Address.lru_lookup k (tail l)) -> sole k a (tail l).
Proof.
  intros (l1 & l2 & -> & H1 & H2) Hs.
  destruct l1 as [|e l1]; simpl in *.
  - exfalso. apply lru_lookup_None in H2. rewrite H2 in Hs. by destruct Hs.
  - exists l1, l2. split; [done|]. split; [|done].
    intros Hin. apply H1. by right.
Qed.

Lemma sole_setitem_other n k a k' v l :
  k' <> k -> sole k a l ->
  is_Some (Address.lru_lookup k (Address.lru_setitem n k' v l)) ->
  sole k a (Address.lru_setitem n k' v l).
Proof.
  intros Hne Hs. unfold Address.lru_setitem. cbv zeta.
  pose proof (sole_app_other _ _ _ k' v Hne (sole_remove_other _ _ k' _ Hne Hs)) as Hs'.
  case_match; [|done]. by apply sole_tail.
Qed.

(** An insertion into a store of capacity at least one keeps the new
    entry. *)
Lemma sole_setitem_same n k a l :
  (0 < n)%nat -> sole k a (Address.lru_setitem n k a l).
Proof.
  intros Hn. unfold Address.lru_setitem. cbv zeta.
  case_match eqn:Hlt.
  - apply Nat.ltb_lt in Hlt. rewrite length_app in Hlt. simpl in Hlt.
    destruct (Address.lru_remove k l) as [|e l'] eqn:Hr; simpl in *; [lia|].
    exists l', []. split; [done|]. split; [|apply not_elem_of_nil].
    pose proof (lru_remove_notin k l) as Hn'. rewrite Hr in Hn'. simpl in Hn'.
    apply not_elem_of_cons in Hn'. tauto.
  - exists (Address.lru_remove k l), []. split; [done|].
    split; [apply lru_remove_notin | apply not_elem_of_nil].
Qed.

Lemma cache_capacity_pos : (0 < Address.cache_capacity)%nat.
Proof. unfold Address.cache_capacity. lia. Qed.

(** After a successful construction from a raw input, the cache holds the
    returned object, once, under that input. *)
Lemma new_caches r a s s1 :
  Address.new_ (Address.OfRaw r) s = (Ok a, s1) -> sole r a (Address._cache s1).
Proof.
  unfold Address.new_, Address.lru_getitem.
  destruct (Address.lru_lookup r (Address._cache s)) as [a0|] eqn:Hl.
  - intros [= <- <-]. simpl. exists (Address.lru_remove r (Address._cache s)), [].
    split; [done|]. split; [apply lru_remove_notin | apply not_elem_of_nil].
  - destruct (Address.to_checksum_address r); [|done].
    destruct (Address.to_canonical_address r); [|done].
    intros [= <- <-]. simpl. apply sole_setitem_same, cache_capacity_pos.
Qed.

(** A cached input is answered with the cached object. *)
Lemma new_hit r a s :
  sole r a (Address._cache s) ->
  exists s', Address.new_ (Address.OfRaw r) s = (Ok a, s') /\
             sole r a (Address._cache s').
Proof.
  intros Hs. unfold Address.new_, Address.lru_getitem.
  rewrite (sole_lookup _ _ _ Hs). eexists. split; [done|].
  simpl. by apply sole_getitem_same.
Qed.

(** A construction keeps the entry of [r] as long as [r] is still a key
    afterwards. *)
Lemma new_keeps r a i s :
  sole r a (Address._cache s) ->
  is_Some (Address.lru_lookup r (Address._cache (Address.new_ i s).2)) ->
  sole r a (Address._cache (Address.new_ i s).2).
Proof.
  intros Hs. destruct i as [k|b]; [|done].
  destruct (decide (k = r)) as [->|Hne].
  - destruct (new_hit _ _ _ Hs) as (s' & -> & Hs'). done.
  - unfold Address.new_, Address.lru_getitem.
    destruct (Address.lru_lookup k (Address._cache s)) as [a0|] eqn:Hl; simpl.
    + intros _. apply sole_app_other; [done|]. by apply sole_remove_other.
    + destruct (Address.to_checksum_address k); [|done].
      destruct (Address.to_canonical_address k); [|done]. simpl.
      by apply sole_setitem_other.
Qed.

Lemma new_all_keeps r a inputs s :
  sole r a (Address._cache s) ->
  Address.stays_cached r inputs s ->
  sole r a (Address._cache (Address.new_all inputs s)).
Proof.
  revert s. induction inputs as [|i inputs IH]; intros s Hs Hc; simpl; [done|].
  destruct Hc as [_ Hc]. apply IH; [|done].
  apply new_keeps; [done|]. destruct inputs; apply Hc.
Qed.

End address_facts.

(** The first call makes [r] a key; if no later call drops it, it is a key
    throughout. *)
Lemma not_evicted_stays `{Address.EthUtils} r inputs s :
  is_Some (Address.lru_lookup r (Address._cache s)) ->
  Address.not_evicted r inputs s ->
  Address.stays_cached r inputs s.
Proof.
  revert s. induction inputs as [|i inputs IH]; intros s Hc Hn; simpl; [done|].
  destruct Hn as [Hstep Hn]. split; [done|]. apply IH; [by apply Hstep | done].
Qed.

(** C6.  [Address(b)] for an [Address] object [b] returns [b] itself and
    changes nothing.  If [Address(r)] for a raw input [r] returned the
    object [a], then [r] is cached, and after any further constructor calls
    none of which drops [r] from the cache, [Address(r)] returns the same
    object [a] (same identity), and so the same checksummed and normalized
    strings. *)
Theorem address_identity `{Address.EthUtils}
  (r : Address.raw) (a b : Address.t) (s s1 : Address.store)
  (inputs : list Address.input) :
  Address.new_ (Address.OfRaw r) s = (Ok a, s1) ->
  Address.not_evicted r inputs s1 ->
  Address.new_ (Address.OfAddress b) s = (Ok b, s) /\
  Address.lru_lookup r (Address._cache s1) = Some a /\
  exists a' s2,
    Address.new_ (Address.OfRaw r) (Address.new_all inputs s1) = (Ok a', s2) /\
    a' = a /\
    Address.oid a' = Address.oid a /\
    Address.checksum_address a' = Address.checksum_address a /\
    Address.normalized_address a' = Address.normalized_address a.
Proof.
  intros Hnew Hkeep. split; [reflexivity|].
  pose proof (new_caches _ _ _ _ Hnew) as Hsole.
  pose proof (sole_lookup _ _ _ Hsole) as Hl. split; [done|].
  assert (Address.stays_cached r inputs s1) as Hstay.
  { apply not_evicted_stays; [by rewrite Hl | done]. }
  pose proof (new_all_keeps r a inputs s1 Hsole Hstay) as Hs.
  destruct (new_hit _ _ _ Hs) as (s2 & Hhit & _).
  exists a, s2. by rewrite Hhit.
Qed.

Lemma address_identity_witness :
  let r := Address.RBytes (Fixtures.addr Byte.x01) in
  let a := Address.mk 0 "0xAb01" (Fixtures.addr Byte.x01) "0xab01" in
  let s1 := Address.mkStore [(r, a)] 1 in
  Address.new_ (Address.OfRaw r) Fixtures.store0 = (Ok a, s1) /\
  exists a' s2,
    Address.new_ (Address.OfRaw r)
                 (Address.new_all [Fixtures.bob; Address.OfAddress a] s1)
    = (Ok a', s2) /\
    a' = a /\
    Address.oid a' = Address.oid a /\
    Address.checksum_address a' = Address.checksum_address a /\
    Address.normalized_address a' = Address.normalized_address a.
Proof.
  intros r a s1. split; [reflexivity|].
  refine (proj2 (proj2 (address_identity r a a Fixtures.store0 s1
                          [Fixtures.bob; Address.OfAddress a] _ _))).
  - reflexivity.
  - vm_compute. repeat split; intros _; eexists; reflexivity.
Defined.

(** ** The precompile registry *)

Section precompile_facts.
Context `{Address.EthUtils}.

Lemma register_raw_precompile_eq address fn force a s1 (s : Precompiles.state) :
  Address.new_ address (Precompiles.addresses s) = (Ok a, s1) ->
  Precompiles.register_raw_precompile address fn force s =
  if bool_decide (Address.oid a ∈ dom (Precompiles._precompiles s)) && negb force
  then (Raise (ValueError ("Already registered: " +:+ Address.checksum_address a)),
        Precompiles.mkState s1 (Precompiles._precompiles s))
  else (Ok tt, Precompiles.mkState s1
                 (<[Address.oid a := (a, fn)]> (Precompiles._precompiles s))).
Proof.
  intros Hnew. unfold Precompiles.register_raw_precompile, Precompiles.Address_.
  unfold bind at 1. rewrite Hnew. unfold bind at 1. simpl.
  by destruct (_ && _).
Qed.

(** A first registration at a fresh key succeeds. *)
Lemma register_fresh address fn force a s1 (s : Precompiles.state) :
  Address.new_ address (Precompiles.addresses s) = (Ok a, s1) ->
  Address.oid a ∉ dom (Precompiles._precompiles s) ->
  Precompiles.register_raw_precompile address fn force s =
  (Ok tt, Precompiles.mkState s1 (<[Address.oid a := (a, fn)]> (Precompiles._precompiles s))).
Proof.
  intros Hnew Hd. rewrite (register_raw_precompile_eq _ _ _ _ _ _ Hnew).
  by rewrite bool_decide_eq_false_2.
Qed.

End precompile_facts.

(** Registering at a key that is bound: when the object that
    [Address(address)] yields is a key of [_precompiles], the call without
    [force] raises [ValueError] with [_precompiles] as before, and the call
    with [force] binds [fn] at that key and leaves every other key. *)
Lemma register_bound_key `{Address.EthUtils}
  (address : Address.input) (fn : handle) (a : Address.t)
  (s1 : Address.store) (s : Precompiles.state) :
  Address.new_ address (Precompiles.addresses s) = (Ok a, s1) ->
  Address.oid a ∈ dom (Precompiles._precompiles s) ->
  (exists msg s',
      Precompiles.register_raw_precompile address fn false s
      = (Raise (ValueError msg), s') /\
      Precompiles._precompiles s' = Precompiles._precompiles s) /\
  (exists s',
      Precompiles.register_raw_precompile address fn true s = (Ok tt, s') /\
      Precompiles._precompiles s' !! Address.oid a = Some (a, fn) /\
      forall k, k <> Address.oid a ->
                Precompiles._precompiles s' !! k = Precompiles._precompiles s !! k).
Proof.
  intros Hnew Hd. split.
  - do 2 eexists. rewrite (register_raw_precompile_eq _ _ _ _ _ _ Hnew).
    rewrite bool_decide_eq_true_2 by done. simpl. done.
  - eexists. rewrite (register_raw_precompile_eq _ _ _ _ _ _ Hnew).
    rewrite andb_false_r. split; [done|]. simpl. split.
    + apply lookup_insert_eq.
    + intros k Hk. by rewrite lookup_insert_ne.
Qed.

(** The address [addr x01] is registered from its bytes, then registered
    again, without [force], from its text.  The address is bound, yet the
    second call returns normally and the registry ends with two entries for
    the one address. *)
Example register_same_address_as_text :
  let s0 := Precompiles.mkState Fixtures.store0 ∅ in
  let s := (Precompiles.register_raw_precompile Fixtures.alice 5%nat false s0).2 in
  let second :=
    Precompiles.register_raw_precompile
      (Address.OfRaw (Address.RStr Fixtures.hex01)) 6%nat false s in
  Address.to_canonical_address (Address.RStr Fixtures.hex01)
    = Ok (Fixtures.addr Byte.x01) /\
  bound (Fixtures.addr Byte.x01) (Precompiles._precompiles s) /\
  second.1 = Ok tt /\
  ~ (exists msg, second.1 = Raise (ValueError msg)) /\
  size (Precompiles._precompiles second.2) = 2%nat.
Proof.
  intros s0 s second. split; [reflexivity|]. split.
  { exists 0%nat, (Address.mk 0 "0xAb01" (Fixtures.addr Byte.x01) "0xab01"), 5%nat.
    split; reflexivity. }
  split; [reflexivity|]. split.
  { intros [msg Hmsg]. discriminate Hmsg. }
  vm_compute. reflexivity.
Qed.

(** Registering twice from the same raw input: the second call without
    [force] raises, the second call with [force] rebinds. *)
Lemma register_twice `{Address.EthUtils} r fn fn' force0 s s' :
  Precompiles.register_raw_precompile (Address.OfRaw r) fn force0 s = (Ok tt, s') ->
  (exists msg s'',
      Precompiles.register_raw_precompile (Address.OfRaw r) fn' false s'
      = (Raise (ValueError msg), s'') /\
      Precompiles._precompiles s'' = Precompiles._precompiles s') /\
  (exists a s'',
      Precompiles.register_raw_precompile (Address.OfRaw r) fn' true s' = (Ok tt, s'') /\
      Precompiles._precompiles s' !! Address.oid a = Some (a, fn) /\
      Precompiles._precompiles s'' !! Address.oid a = Some (a, fn')).
Proof.
  intros Hreg.
  destruct (Address.new_ (Address.OfRaw r) (Precompiles.addresses s)) as [[a|e] s1] eqn:Hnew.
  2:{ unfold Precompiles.register_raw_precompile, Precompiles.Address_, bind in Hreg.
      rewrite Hnew in Hreg. discriminate. }
  rewrite (register_raw_precompile_eq _ _ _ _ _ _ Hnew) in Hreg.
  destruct (_ && _); [discriminate|]. injection Hreg as <-.
  destruct (new_hit r a s1 (new_caches _ _ _ _ Hnew)) as (s2 & Hhit & _).
  simpl. split.
  - do 2 eexists.
    rewrite (register_raw_precompile_eq _ _ _ a s2) by done. simpl.
    rewrite bool_decide_eq_true_2; [done|].
    rewrite dom_insert_L. set_solver.
  - exists a. eexists.
    rewrite (register_raw_precompile_eq _ _ _ a s2) by done. simpl.
    rewrite andb_false_r. split; [done|]. simpl.
    by rewrite !lookup_insert_eq.
Qed.

(** ** The tracing opcodes *)

Section tracer_facts.
Variable to_int : pyval -> Z.

Lemma last2_snoc2 {A} (rest : list A) (x y : A) :
  Tracers.last2 (rest ++ [x; y]) = [x; y].
Proof.
  unfold Tracers.last2. rewrite length_app. simpl.
  replace (length rest + 2 - 2)%nat with (length rest) by lia.
  by rewrite drop_app_length.
Qed.

Lemma two_on_top {A} (l : list A) :
  (2 <= length l)%nat -> exists rest x y, l = rest ++ [x; y].
Proof.
  intros Hl. exists (take (length l - 2) l).
  pose proof (take_drop (length l - 2) l) as Htd.
  destruct (drop (length l - 2) l) as [|x [|y [|z t]]] eqn:Hd.
  - apply (f_equal length) in Hd. rewrite length_drop in Hd. simpl in Hd. lia.
  - apply (f_equal length) in Hd. rewrite length_drop in Hd. simpl in Hd. lia.
  - exists x, y. done.
  - apply (f_equal length) in Hd. rewrite length_drop in Hd. simpl in Hd. lia.
Qed.

Lemma _trace_sstore_eq account slot env :
  Tracers._trace_sstore account slot env = (Ok tt, touched account slot env).
Proof.
  unfold Tracers._trace_sstore, touched, bind, modify.
  destruct (Tracers.sstore_trace env !! account) as [slots|] eqn:Hl; simpl.
  - by rewrite Hl.
  - rewrite lookup_insert_eq. simpl. by rewrite insert_insert_eq.
Qed.

Lemma SstoreTracer_call_eq sstore c rest x y env :
  stack_values c = rest ++ [x; y] ->
  Tracers.SstoreTracer_call to_int sstore c env =
  (sstore c, touched (storage_address (msg c)) (to_int y.2) env).
Proof.
  intros Hs. unfold Tracers.SstoreTracer_call. rewrite Hs, last2_snoc2. simpl.
  unfold bind. by rewrite _trace_sstore_eq.
Qed.

Lemma written_slot_snoc2 c rest x y :
  stack_values c = rest ++ [x; y] ->
  Tracers.written_slot to_int c = Some (to_int y.2).
Proof.
  intros Hs. unfold Tracers.written_slot. rewrite Hs.
  replace (rest ++ [x; y]) with ((rest ++ [x]) ++ [y]) by by rewrite <- app_assoc.
  by rewrite last_snoc.
Qed.

Lemma run_sstores_cons sstore c ops env :
  Tracers.run_sstores to_int sstore (c :: ops) env =
  Tracers.run_sstores to_int sstore ops (Tracers.SstoreTracer_call to_int sstore c env).2.
Proof. reflexivity. Qed.

Lemma run_sstores_trace sstore ops env account :
  Forall (fun c => (2 <= length (stack_values c))%nat) ops ->
  default ∅ (Tracers.sstore_trace (Tracers.run_sstores to_int sstore ops env) !! account)
  = default ∅ (Tracers.sstore_trace env !! account)
    ∪ list_to_set (Tracers.slots_written to_int account ops).
Proof.
  intros Hall. revert env. induction Hall as [|c ops Hc Hall IH]; intros env.
  - simpl. unfold Tracers.slots_written. simpl. set_solver.
  - rewrite run_sstores_cons, IH.
    destruct (two_on_top _ Hc) as (rest & x & y & Hs).
    rewrite (SstoreTracer_call_eq _ _ _ _ _ _ Hs). simpl.
    unfold Tracers.slots_written. rewrite filter_cons.
    case_decide as Hacc.
    + subst account. rewrite lookup_insert_eq. simpl.
      rewrite (written_slot_snoc2 _ _ _ _ Hs). simpl. set_solver.
    + by rewrite lookup_insert_ne.
Qed.

Lemma slots_written_elem account ops c slot :
  c ∈ ops -> storage_address (msg c) = account ->
  Tracers.written_slot to_int c = Some slot ->
  slot ∈ Tracers.slots_written to_int account ops.
Proof.
  intros Hin Hacc Hslot. unfold Tracers.slots_written.
  apply list_elem_of_omap. exists c. split; [|done].
  apply list_elem_of_filter. done.
Qed.

End tracer_facts.

(** C8.  Run the SSTORE hook over any list of frames, each with its two
    operands on the stack.  The trace of an account is then what it was
    before together with the set of the slots that the frames of that
    account write (a set, so a slot written twice is there once); and a
    slot is in it whatever value is written, zero included. *)
Theorem sstore_trace_spec (to_int : pyval -> Z)
  (sstore : Computation -> result Computation) (ops : list Computation)
  (env : Tracers.TraceStore) (account : bytes) :
  Forall (fun c => (2 <= length (stack_values c))%nat) ops ->
  let env' := Tracers.run_sstores to_int sstore ops env in
  default ∅ (Tracers.sstore_trace env' !! account)
  = default ∅ (Tracers.sstore_trace env !! account)
    ∪ list_to_set (Tracers.slots_written to_int account ops) /\
  forall c slot,
    c ∈ ops -> storage_address (msg c) = account ->
    Tracers.written_value to_int c = Some 0 ->
    Tracers.written_slot to_int c = Some slot ->
    slot ∈ default ∅ (Tracers.sstore_trace env' !! account).
Proof.
  intros Hall env'. pose proof (run_sstores_trace to_int sstore ops env account Hall) as Heq.
  split; [exact Heq|].
  intros c slot Hin Hacc _ Hslot. unfold env'. rewrite Heq.
  apply elem_of_union_r, elem_of_list_to_set.
  by apply (slots_written_elem to_int account ops c slot).
Qed.

Lemma sstore_trace_spec_witness :
  let ops := [Fixtures.frame 7 1; Fixtures.frame 0 2; Fixtures.frame 9 1] in
  let env' := Tracers.run_sstores Fixtures.to_int Fixtures.sstore_op ops
                (Tracers.mkTraceStore ∅ ∅) in
  default ∅ (Tracers.sstore_trace env' !! Fixtures.addr Byte.x01)
  = (∅ : gset Z) ∪ list_to_set [1; 2; 1] /\
  forall c slot,
    c ∈ ops -> storage_address (msg c) = Fixtures.addr Byte.x01 ->
    Tracers.written_value Fixtures.to_int c = Some 0 ->
    Tracers.written_slot Fixtures.to_int c = Some slot ->
    slot ∈ default ∅ (Tracers.sstore_trace env' !! Fixtures.addr Byte.x01).
Proof.
  intros ops env'.
  refine (sstore_trace_spec Fixtures.to_int Fixtures.sstore_op ops
            (Tracers.mkTraceStore ∅ ∅) (Fixtures.addr Byte.x01) _).
  repeat constructor; simpl; lia.
Defined.

(** Writing slots 1 and 2 and then slot 1 again leaves exactly {1, 2}. *)
Example sstore_trace_1_2_1 :
  Tracers.sstore_trace
    (Tracers.run_sstores Fixtures.to_int Fixtures.sstore_op
       [Fixtures.frame 7 1; Fixtures.frame 0 2; Fixtures.frame 9 1]
       (Tracers.mkTraceStore ∅ ∅)) !! Fixtures.addr Byte.x01
  = Some ({[1; 2]} : gset Z).
Proof. vm_compute. reflexivity. Qed.

(** C9.  The SHA3 hook on any frame.  When the stack ends with the size
    operand and, on top, the offset operand, the outcome is that of the
    wrapped opcode on that frame: its exception if it raises, its frame if
    it returns.  If the size is 64 and the opcode returns a frame with the
    image on top, the trace gets exactly the entry from the image to the 64
    bytes read at the offset in the memory of the returned frame, and
    nothing else changes.  If the size is not 64, or the opcode raises, the
    traces are as before.  When the stack has fewer than two entries the
    hook raises [ValueError] at its first line, the unpacking: the outcome
    is the same whatever the wrapped opcode is, which is not invoked, and
    the traces are as before. *)
Theorem sha3_hook_spec (to_int : pyval -> Z) (to_bytes : pyval -> bytes)
  (read_bytes : bytes -> Z -> Z -> bytes)
  (sha3 : Computation -> result Computation)
  (c : Computation) (env : Tracers.TraceStore) :
  let call := Tracers.Sha3PreimageTracer_call to_int to_bytes read_bytes sha3 c env in
  (forall rest size_item offset_item,
      stack_values c = rest ++ [size_item; offset_item] ->
      let size := to_int size_item.2 in
      let offset := to_int offset_item.2 in
      (forall c' top,
          size = 64 -> sha3 c = Ok c' -> last (stack_values c') = Some top ->
          call = (Ok c',
                  Tracers.mkTraceStore
                    (<[to_bytes top.2 := read_bytes (_memory c') offset 64]>
                       (Tracers.sha3_trace env))
                    (Tracers.sstore_trace env))) /\
      (size <> 64 -> call = (sha3 c, env)) /\
      (forall e, sha3 c = Raise e -> call = (Raise e, env))) /\
  ((length (stack_values c) < 2)%nat ->
   exists msg,
     call = (Raise (ValueError msg), env) /\
     forall sha3',
       Tracers.Sha3PreimageTracer_call to_int to_bytes read_bytes sha3' c env = call).
Proof.
  intros call. subst call. split.
  - intros rest size_item offset_item Hs size offset. subst size offset.
    unfold Tracers.Sha3PreimageTracer_call.
    rewrite Hs, last2_snoc2. simpl.
    unfold Tracers._stackitem_to_int. repeat split.
    + intros c' top Hsize Hsha Htop. rewrite Hsha.
      rewrite bool_decide_eq_false_2 by (intros Hne; by apply Hne).
      rewrite Htop, Hsize. reflexivity.
    + intros Hsize. destruct (sha3 c) as [c'|e]; [|done].
      by rewrite bool_decide_eq_true_2.
    + intros e Hsha. by rewrite Hsha.
  - intros Hl. eexists.
    unfold Tracers.Sha3PreimageTracer_call, Tracers.last2.
    destruct (stack_values c) as [|x [|y t]]; simpl in *; try lia;
      split; reflexivity.
Qed.

(** The SHA3 opcode on an empty stack, with a wrapped opcode that would
    return: the hook raises; and on a frame with its operands, size 64: the
    pair is recorded. *)
Lemma sha3_hook_spec_witness :
  (exists msg,
      Tracers.Sha3PreimageTracer_call Fixtures.to_int Fixtures.to_bytes
        Fixtures.read_bytes Fixtures.sha3_op Fixtures.child0 (Tracers.mkTraceStore ∅ ∅)
      = (Raise (ValueError msg), Tracers.mkTraceStore ∅ ∅)) /\
  exists c',
    Fixtures.sha3_op (Fixtures.frame 64 0) = Ok c' /\
    Tracers.Sha3PreimageTracer_call Fixtures.to_int Fixtures.to_bytes
      Fixtures.read_bytes Fixtures.sha3_op (Fixtures.frame 64 0)
      (Tracers.mkTraceStore ∅ ∅)
    = (Ok c',
       Tracers.mkTraceStore
         {[ [Byte.xaa; Byte.xbb] := replicate 64 Byte.x2a ]} ∅).
Proof.
  split.
  - destruct (proj2 (sha3_hook_spec Fixtures.to_int Fixtures.to_bytes
                       Fixtures.read_bytes Fixtures.sha3_op Fixtures.child0
                       (Tracers.mkTraceStore ∅ ∅)))
      as (msg & Hcall & _); [simpl; lia|].
    by exists msg.
  - eexists. split; [reflexivity|].
    refine (proj1 (proj1 (sha3_hook_spec Fixtures.to_int Fixtures.to_bytes
                     Fixtures.read_bytes Fixtures.sha3_op (Fixtures.frame 64 0)
                     (Tracers.mkTraceStore ∅ ∅))
                    [(TyInt, VInt 99)] (TyInt, VInt 64) (TyInt, VInt 0) eq_refl)
                  _ (TyBytes, VBytes [Byte.xaa; Byte.xbb])
                  eq_refl eq_refl eq_refl).
Defined.

(** Hashing 32 bytes records nothing. *)
Example sha3_hook_32 :
  (Tracers.Sha3PreimageTracer_call Fixtures.to_int Fixtures.to_bytes
     Fixtures.read_bytes Fixtures.sha3_op (Fixtures.frame 32 0)
     (Tracers.mkTraceStore ∅ ∅)).2
  = Tracers.mkTraceStore ∅ ∅.
Proof. reflexivity. Qed.

(** With fewer than two entries on the stack both hooks raise before the
    wrapped opcode is reached. *)
Lemma hooks_on_short_stack to_int to_bytes read_bytes op c env :
  (length (stack_values c) < 2)%nat ->
  (exists msg,
      Tracers.Sha3PreimageTracer_call to_int to_bytes read_bytes op c env
      = (Raise (ValueError msg), env)) /\
  (exists msg,
      Tracers.SstoreTracer_call to_int op c env = (Raise (ValueError msg), env)).
Proof.
  intros Hl. unfold Tracers.Sha3PreimageTracer_call, Tracers.SstoreTracer_call,
    Tracers.last2.
  destruct (stack_values c) as [|x [|y t]]; simpl in *; try lia;
    split; eexists; reflexivity.
Qed.

(** ** titanoboa_computation.apply_computation *)

Section apply_facts.
Variable super_apply_computation : Message -> TxCtx -> M World Computation.
Variable cls : Message -> TxCtx -> M World Computation.
Variable frame_exit : Computation -> option exn -> World -> (Computation * bool) * World.
Variable ir_exec : handle -> Computation -> World -> (Computation * option exn) * World.

Abbreviation apply_computation :=
  (Computation.apply_computation super_apply_computation cls frame_exit ir_exec).
Abbreviation native_path := (Computation.native_path cls frame_exit ir_exec).

Lemma apply_computation_delegates msg tx w :
  code_address msg = [] \/ _contracts w !! code_address msg = None
    \/ _speed w = Computation._SLOW ->
  apply_computation msg tx w = super_apply_computation msg tx w.
Proof.
  unfold Computation.apply_computation, _lookup_contract_fast, bind, gets, ret.
  intros [He|[Hn|Hs]].
  - rewrite bool_decide_eq_false_2 by (intros Hne; by apply Hne). done.
  - case_bool_decide; [by rewrite Hn | done].
  - destruct (bool_decide (code_address msg ≠ [])); [|done].
    destruct (_contracts w !! code_address msg); [|done].
    by rewrite bool_decide_eq_true_2.
Qed.

Lemma apply_computation_native msg tx w contract :
  code_address msg <> [] ->
  _contracts w !! code_address msg = Some contract ->
  _speed w <> Computation._SLOW ->
  apply_computation msg tx w = native_path contract msg tx w.
Proof.
  intros Ha Hc Hs.
  unfold Computation.apply_computation, _lookup_contract_fast, bind, gets.
  rewrite bool_decide_eq_true_2 by done. rewrite Hc.
  by rewrite bool_decide_eq_false_2.
Qed.

(** The native path when the handler returns or raises [Halt]. *)
Lemma native_path_completes contract msg tx w frame w1 frame' outcome w2 :
  cls msg tx w = (Ok frame, w1) ->
  ir_exec contract frame w1 = (frame', outcome, w2) ->
  outcome = None \/ outcome = Some Halt ->
  native_path contract msg tx w
  = (Ok (frame_exit frame' None w2).1.1, (frame_exit frame' None w2).2).
Proof.
  intros Hcls Hexec Hout.
  unfold Computation.native_path, Computation.native_body, bind.
  rewrite Hcls, Hexec.
  destruct Hout as [-> | ->]; by destruct (frame_exit frame' None w2) as [[final sw] w3].
Qed.

End apply_facts.

(** C4.  [apply_computation] returns what [super().apply_computation]
    returns when the message has no code address, when no contract is
    registered at the code address, or when the speed is [_SLOW].  For a
    message with a code address at which a contract is registered, and a
    speed other than [_SLOW], it runs the native path: the handler runs on
    the frame built for this message, and when the handler returns or
    raises [Halt] the call returns that frame normally, [__exit__] having
    been given no exception, so both cases end alike. *)
Theorem apply_computation_dispatch
  (super_apply_computation cls : Message -> TxCtx -> M World Computation)
  (frame_exit : Computation -> option exn -> World -> (Computation * bool) * World)
  (ir_exec : handle -> Computation -> World -> (Computation * option exn) * World)
  (msg : Message) (tx : TxCtx) (w : World) :
  let apply := Computation.apply_computation super_apply_computation cls
                 frame_exit ir_exec in
  (code_address msg = [] \/ _contracts w !! code_address msg = None
     \/ _speed w = Computation._SLOW ->
   apply msg tx w = super_apply_computation msg tx w) /\
  (forall contract,
      code_address msg <> [] ->
      _contracts w !! code_address msg = Some contract ->
      _speed w <> Computation._SLOW ->
      apply msg tx w = Computation.native_path cls frame_exit ir_exec contract msg tx w /\
      forall frame w1 frame' outcome w2,
        cls msg tx w = (Ok frame, w1) ->
        ir_exec contract frame w1 = (frame', outcome, w2) ->
        outcome = None \/ outcome = Some Halt ->
        apply msg tx w
        = (Ok (frame_exit frame' None w2).1.1, (frame_exit frame' None w2).2)).
Proof.
  intros apply. split.
  - apply apply_computation_delegates.
  - intros contract Ha Hc Hs. split.
    + by apply apply_computation_native.
    + intros frame w1 frame' outcome w2 Hcls Hexec Hout. unfold apply.
      rewrite (apply_computation_native super_apply_computation cls frame_exit
                 ir_exec msg tx w contract Ha Hc Hs).
      eapply native_path_completes; eauto.
Qed.

Lemma apply_computation_dispatch_witness :
  let apply := Computation.apply_computation Fixtures.super_apply_computation
                 Fixtures.cls Fixtures.frame_exit Fixtures.ir_exec in
  apply Fixtures.msg0 Fixtures.tx0 Fixtures.world0
  = Fixtures.super_apply_computation Fixtures.msg0 Fixtures.tx0 Fixtures.world0 /\
  apply Fixtures.msg0 Fixtures.tx0 Fixtures.world_fast
  = (Ok (Fixtures.result_of Fixtures.msg0 [Byte.x02] None []), Fixtures.world_fast).
Proof.
  intros apply. split.
  - refine (proj1 (apply_computation_dispatch Fixtures.super_apply_computation
                     Fixtures.cls Fixtures.frame_exit Fixtures.ir_exec
                     Fixtures.msg0 Fixtures.tx0 Fixtures.world0) _).
    right. right. reflexivity.
  - refine (proj2 (proj2 (apply_computation_dispatch Fixtures.super_apply_computation
                     Fixtures.cls Fixtures.frame_exit Fixtures.ir_exec
                     Fixtures.msg0 Fixtures.tx0 Fixtures.world_fast) 3%nat _ _ _)
                  _ _ _ (Some Halt) _ eq_refl eq_refl _).
    + discriminate.
    + reflexivity.
    + discriminate.
    + right. reflexivity.
Defined.

(** ** Env: deploy_code and execute_code *)

Section submit_facts.
Context `{Address.EthUtils}.
Variable generate_contract_address : bytes -> Z -> bytes.
Variable apply_create_message : Message -> TxCtx -> M World Computation.
Variable apply_message : Message -> TxCtx -> M World Computation.
Variable recursion_limit : nat.

Lemma bind_assoc {S A B C} (m : M S A) (f : A -> M S B) (g : B -> M S C) (s : S) :
  bind (bind m f) g s = bind m (fun a => bind (f a) g) s.
Proof. unfold bind. by destruct (m s) as [[a|e] s']. Qed.

Lemma bind_ext {S A B} (m : M S A) (f g : A -> M S B) (s : S) :
  (forall a s', f a s' = g a s') -> bind m f s = bind m g s.
Proof. intros Hfg. unfold bind. destruct (m s) as [[a|e] s']; auto. Qed.

(** [deploy_code] is its submission, then [apply_create_message], then the
    test of [c.is_error]. *)
Lemma deploy_code_split sender gas value bytecode start_pc override w :
  Env.deploy_code generate_contract_address apply_create_message
    sender gas value bytecode start_pc override w
  = match Env.deploy_submission generate_contract_address
            sender gas value bytecode start_pc override w with
    | (Ok (target, msg, tx), w1) =>
        match apply_create_message msg tx w1 with
        | (Ok c, w2) =>
            match _error c with
            | Some e => (Raise e, w2)
            | None => (Ok (target, output c), w2)
            end
        | (Raise e, w2) => (Raise e, w2)
        end
    | (Raise e, w1) => (Raise e, w1)
    end.
Proof.
  unfold Env.deploy_code, Env.deploy_submission, Env.get_gas_price.
  unfold bind, ret, gets, raise.
  destruct gas as [g|]; [|destruct (state_gas_limit w) as [[g|e] w0]; [|done]];
    (destruct (Env._get_sender sender _) as [[s|e] w2]; [|done]);
    (destruct override as [o|];
     [ destruct (Env.Address_ o w2) as [[a|e] w3]; [|done]
     | destruct (state_get_nonce s w2) as [[n|e] w3]; [|done];
       destruct (state_increment_nonce s w3) as [[u|e] w4]; [|done] ]);
    (destruct (apply_create_message _ _ _) as [[c|e] w5]; [|done]);
    by destruct (_error c).
Qed.

Lemma for_each_skip {S A} (xs : list A) (s : S) :
  for_each xs (fun _ => ret tt) s = (Ok tt, s).
Proof. induction xs as [|x xs IH]; simpl; [done|]. unfold bind, ret. apply IH. Qed.

(** The coverage hook on a computation with a child never returns: it
    calls itself on the same computation until Python gives up. *)
Lemma hook_with_children frames c contract w :
  children c <> [] ->
  Env._hook_trace_computation frames c contract w = (Raise RecursionError, w).
Proof.
  intros Hc. revert contract.
  induction frames as [|frames IH]; intros contract; simpl; [done|].
  unfold bind at 1. rewrite for_each_skip.
  destruct (children c) as [|child rest]; [done|]. simpl.
  unfold bind at 1. unfold bind at 1. unfold _lookup_contract_fast, gets.
  by rewrite IH.
Qed.

Lemma hook_without_children frames c contract w :
  children c = [] ->
  Env._hook_trace_computation (S frames) c contract w = (Ok tt, w).
Proof.
  intros Hc. simpl. unfold bind. rewrite for_each_skip, Hc. done.
Qed.

(** [execute_code] is its submission, then [apply_message], then the
    coverage hook. *)
Lemma execute_code_split to_address sender gas value data override_bytecode
  is_modifying start_pc fake_codesize contract w :
  Env.execute_code apply_message recursion_limit to_address sender gas value
    data override_bytecode is_modifying start_pc fake_codesize contract w
  = match Env.execute_submission to_address sender gas value data
            override_bytecode is_modifying start_pc fake_codesize contract w with
    | (Ok (msg, tx), w1) =>
        match apply_message msg tx w1 with
        | (Ok c, w2) =>
            if _coverage_enabled w2
            then match Env._hook_trace_computation recursion_limit c contract w2 with
                 | (Ok _, w3) => (Ok c, w3)
                 | (Raise e, w3) => (Raise e, w3)
                 end
            else (Ok c, w2)
        | (Raise e, w2) => (Raise e, w2)
        end
    | (Raise e, w1) => (Raise e, w1)
    end.
Proof.
  unfold Env.execute_code, Env.execute_submission, Env.get_gas_price.
  unfold bind, ret, gets, raise.
  destruct gas as [g|]; [|destruct (state_gas_limit w) as [[g|e] w0]; [|done]];
    (destruct (Env._get_sender sender _) as [[s|e] w2]; [|done]);
    (destruct (Env.Address_ to_address w2) as [[t|e] w3]; [|done]);
    (destruct override_bytecode as [b|];
     [|destruct (state_get_code (Address.canonical_address t) w3) as [[b|e] w4];
       [|done]]);
    (destruct (apply_message _ _ _) as [[c|e] w5]; [|done]);
    (destruct (_coverage_enabled w5); [|done]);
    by destruct (Env._hook_trace_computation _ _ _ _) as [[[]|e] w6].
Qed.

(** A creation that the engine reports as failed raises the engine's
    error. *)
Lemma deploy_code_raises sender gas value bytecode start_pc override w
  target msg tx w1 c w2 e :
  Env.deploy_submission generate_contract_address
    sender gas value bytecode start_pc override w = (Ok (target, msg, tx), w1) ->
  apply_create_message msg tx w1 = (Ok c, w2) ->
  _error c = Some e ->
  Env.deploy_code generate_contract_address apply_create_message
    sender gas value bytecode start_pc override w = (Raise e, w2).
Proof.
  intros Hsub Hc He. by rewrite deploy_code_split, Hsub, Hc, He.
Qed.

(** A call returns the computation, failed or not, when coverage is off or
    the computation has no children. *)
Lemma execute_code_returns to_address sender gas value data override_bytecode
  is_modifying start_pc fake_codesize contract w msg tx w1 c w2 :
  Env.execute_submission to_address sender gas value data override_bytecode
    is_modifying start_pc fake_codesize contract w = (Ok (msg, tx), w1) ->
  apply_message msg tx w1 = (Ok c, w2) ->
  _coverage_enabled w2 = false \/ (children c = [] /\ recursion_limit <> 0%nat) ->
  Env.execute_code apply_message recursion_limit to_address sender gas value
    data override_bytecode is_modifying start_pc fake_codesize contract w
  = (Ok c, w2).
Proof.
  intros Hsub Hc Hcov. rewrite execute_code_split, Hsub, Hc.
  destruct Hcov as [-> | [Hch Hl]]; [done|].
  destruct (_coverage_enabled w2); [|done].
  destruct recursion_limit as [|n]; [done|].
  by rewrite hook_without_children.
Qed.

End submit_facts.

(** C2 (the creation half holds, see [deploy_code_raises]; the call half
    holds with coverage off, see [execute_code_returns], and fails as
    follows).  With [_coverage_enabled] set, a call whose computation has a
    child computation does not return the computation: the coverage hook
    recurses on the computation itself instead of on the child, and
    [execute_code] raises [RecursionError], whatever the recursion limit
    and whether or not the engine reported an error. *)
Theorem execute_code_recursion `{Address.EthUtils}
  (apply_message : Message -> TxCtx -> M World Computation)
  (recursion_limit : nat)
  (to_address : Address.input) (sender : option Address.input) (gas : option Z)
  (value : Z) (data : bytes) (override_bytecode : option bytes)
  (is_modifying : bool) (start_pc : Z) (fake_codesize : option Z)
  (contract : option handle)
  (w w1 w2 : World) (msg : Message) (tx : TxCtx) (c : Computation) :
  Env.execute_submission to_address sender gas value data override_bytecode
    is_modifying start_pc fake_codesize contract w = (Ok (msg, tx), w1) ->
  apply_message msg tx w1 = (Ok c, w2) ->
  _coverage_enabled w2 = true ->
  children c <> [] ->
  Env.execute_code apply_message recursion_limit to_address sender gas value
    data override_bytecode is_modifying start_pc fake_codesize contract w
  = (Raise RecursionError, w2).
Proof.
  intros Hsub Hc Hcov Hch. rewrite execute_code_split, Hsub, Hc, Hcov.
  by rewrite hook_with_children.
Qed.

Lemma execute_code_recursion_witness :
  (Env.execute_code Fixtures.apply_message 1000
     Fixtures.alice None (Some 100000) 0 [] None true 0 None None
     Fixtures.world_cov).1
  = Raise RecursionError.
Proof.
  refine (f_equal fst
            (execute_code_recursion Fixtures.apply_message 1000
               Fixtures.alice None (Some 100000) 0 [] None true 0 None None
               Fixtures.world_cov _ _ _ _ _ eq_refl eq_refl eq_refl _)).
  discriminate.
Defined.

(** The same call with coverage off returns the failed computation, and the
    matching creation raises the engine's error. *)
Example call_returns_create_raises :
  (exists c w,
      Env.execute_code Fixtures.apply_message 1000
        Fixtures.alice None (Some 100000) 0 [] None true 0 None None
        Fixtures.world0 = (Ok c, w) /\
      is_error c = true) /\
  (Env.deploy_code Fixtures.generate_contract_address Fixtures.apply_create_message
     None (Some 100000) 0 [] 0 None Fixtures.world0).1
  = Raise (VMError "Revert").
Proof.
  split.
  - do 2 eexists. split.
    + eapply execute_code_returns;
        [vm_compute; reflexivity | vm_compute; reflexivity | by left].
    + reflexivity.
  - erewrite deploy_code_raises;
      [reflexivity | vm_compute; reflexivity | vm_compute; reflexivity | reflexivity].
Qed.

(** ** Env.deploy_code and the nonce of the sender *)

Lemma same_but_addresses_refl w : same_but_addresses w w.
Proof. by destruct w. Qed.


Section nonce_facts.
Context `{Address.EthUtils}.

Lemma Address__frame i w : same_but_addresses w (Env.Address_ i w).2.
Proof.
  unfold Env.Address_. by destruct (Address.new_ i (addresses w)) as [r st].
Qed.

Lemma state_gas_limit_frame w : (state_gas_limit w).2 = w.
Proof.
  unfold state_gas_limit, py_getattr. by destruct (_ !! _).
Qed.

Lemma gas_frame (gas : option Z) w :
  exists r, match gas with
            | None => state_gas_limit
            | Some g => ret (VInt g)
            end w = (r, w).
Proof.
  destruct gas; [by eexists|]. exists (state_gas_limit w).1.
  rewrite <- (state_gas_limit_frame w) at 3. by destruct (state_gas_limit w).
Qed.

Lemma _get_sender_frame sender w : same_but_addresses w (Env._get_sender sender w).2.
Proof.
  unfold Env._get_sender, bind, gets.
  destruct (eoa w) as [e|]; simpl.
  - destruct sender as [s|]; simpl.
    + pose proof (Address__frame s w) as Hf.
      by destruct (Env.Address_ s w) as [[a|x] w'].
    + pose proof (Address__frame (Address.OfAddress e) w) as Hf.
      by destruct (Env.Address_ (Address.OfAddress e) w) as [[a|x] w'].
  - destruct sender; apply same_but_addresses_refl.
Qed.

End nonce_facts.

Section nonce_facts_2.
Context `{Address.EthUtils}.
Variable generate_contract_address : bytes -> Z -> bytes.


(** Without an override address the submission reads the nonce of the
    sender and increments it. *)
Lemma deploy_submission_fresh sender gas value bytecode start_pc w s w1 :
  is_Some gas \/ is_Some (execution_context w !! "_gas_limit") ->
  Env._get_sender sender w = (Ok s, w1) ->
  exists target msg tx,
    Env.deploy_submission generate_contract_address sender gas value bytecode
      start_pc None w
    = (Ok (target, msg, tx),
       (state_increment_nonce s (state_get_nonce s w1).2).2).
Proof.
  intros Hgas Hs.
  unfold Env.deploy_submission. unfold bind at 1.
  assert (exists g, match gas with
                    | None => state_gas_limit
                    | Some g => ret (VInt g)
                    end w = (Ok g, w)) as [g ->].
  { destruct gas as [g|]; [by eexists|].
    destruct Hgas as [[? [=]]|[v Hv]].
    unfold state_gas_limit, py_getattr. simpl. rewrite Hv. by eexists. }
  unfold Env.get_gas_price, bind, gets, ret.
  rewrite Hs. simpl. by do 3 eexists.
Qed.


End nonce_facts_2.



(** Without an override the nonce of the sender goes up by one. *)
Example deploy_code_bumps_nonce :
  let w' := (Env.deploy_code Fixtures.generate_contract_address
               Fixtures.apply_create_message None None 0 [] 0 None
               Fixtures.world0).2 in
  nonces (accounts w') !! Fixtures.addr Byte.x00 = Some 1 /\
  effects w' = [EvGetNonce (Fixtures.addr Byte.x00);
                EvIncrementNonce (Fixtures.addr Byte.x00)].
Proof. vm_compute. done. Qed.

(** ** Env.anchor *)

Lemma frame_refl w : frame w w.
Proof. repeat split; try done. exists []. by rewrite app_nil_r. Qed.

Lemma frame_trans w1 w2 w3 : frame w1 w2 -> frame w2 w3 -> frame w1 w3.
Proof.
  intros (Hc1 & He1 & Hs1 & evs1 & Hev1) (Hc2 & He2 & Hs2 & evs2 & Hev2).
  repeat split.
  - congruence.
  - intros f Hf. rewrite He2, He1; done.
  - intros f Hf. rewrite Hs2, Hs1; done.
  - exists (evs1 ++ evs2). rewrite Hev2, Hev1. by rewrite app_assoc.
Qed.

Lemma frame_bind {A B} (m : M World A) (k : A -> M World B) w :
  frame w (m w).2 ->
  (forall a w1, frame w1 (k a w1).2) ->
  frame w (bind m k w).2.
Proof.
  intros Hm Hk. unfold bind. destruct (m w) as [[a|e] w1]; simpl in *; [|done].
  eapply frame_trans; [exact Hm | apply Hk].
Qed.

Lemma frame_for_each {A} (xs : list A) (f : A -> M World unit) :
  (forall x w, frame w (f x w).2) ->
  forall w, frame w (for_each xs f w).2.
Proof.
  intros Hf. induction xs as [|x xs IH]; intros w; simpl.
  - apply frame_refl.
  - apply frame_bind; [apply Hf | intros _ w1; apply IH].
Qed.

Lemma dict_get_Some_in {V} (d : list (string * V)) k v :
  dict_get d k = Some v -> v ∈ d.*2.
Proof.
  induction d as [|[k' v'] d IH]; simpl; [done|].
  case_decide.
  - intros [= ->]. left.
  - intros Hd. right. auto.
Qed.

Lemma py_getattr_pure p f w : (py_getattr p f w).2 = w.
Proof. unfold py_getattr. by destruct (_ !! _). Qed.

Lemma getattr_pure attr w : (VMPatcher.__getattr__ attr w).2 = w.
Proof.
  unfold VMPatcher.__getattr__, VMPatcher._patchables.
  cbn [VMPatcher.getattr_in].
  destruct (dict_get VMPatcher._exc_patchables attr); [apply py_getattr_pure|].
  destruct (dict_get VMPatcher._cmp_patchables attr); [apply py_getattr_pure|].
  done.
Qed.

Lemma setattr_frame attr v w : frame w (VMPatcher.__setattr__ attr v w).2.
Proof.
  unfold VMPatcher.__setattr__, VMPatcher._patchables.
  cbn [VMPatcher.setattr_in].
  destruct (dict_get VMPatcher._exc_patchables attr) as [f|] eqn:He.
  { apply dict_get_Some_in in He. simpl. repeat split; try done.
    - intros f' Hf'. simpl. apply lookup_insert_ne. congruence.
    - by eexists. }
  destruct (dict_get VMPatcher._cmp_patchables attr) as [f|] eqn:Hc.
  { apply dict_get_Some_in in Hc. simpl. repeat split; try done.
    - intros f' Hf'. simpl. apply lookup_insert_ne. congruence.
    - by eexists. }
  apply frame_refl.
Qed.

Lemma frame_of_pure {A} (m : M World A) w : (m w).2 = w -> frame w (m w).2.
Proof. intros ->. apply frame_refl. Qed.

Lemma time_travel_frame seconds blocks block_delta w :
  frame w (Env.time_travel seconds blocks block_delta w).2.
Proof.
  unfold Env.time_travel. case_bool_decide; [apply frame_refl|].
  apply frame_bind.
  { destruct seconds as [s|]; [|destruct blocks; apply frame_refl].
    apply frame_bind; [|intros; apply frame_refl].
    unfold Env.of_result. apply frame_refl. }
  intros sb w1.
  apply frame_bind; [apply frame_of_pure, getattr_pure|]. intros t w2.
  apply frame_bind; [apply frame_refl|]. intros t' w3.
  apply frame_bind; [apply setattr_frame|]. intros _ w4.
  apply frame_bind; [apply frame_of_pure, getattr_pure|]. intros b w5.
  apply frame_bind; [apply frame_refl|]. intros b' w6.
  apply setattr_frame.
Qed.

Lemma same_but_addresses_frame w w1 : same_but_addresses w w1 -> frame w w1.
Proof.
  intros ->. repeat split; try done. exists []. simpl. by rewrite app_nil_r.
Qed.

Lemma state_set_balance_frame address value w :
  frame w (state_set_balance address value w).2.
Proof.
  unfold state_set_balance.
  destruct (validate_canonical_address address) as [k|e]; [|apply frame_refl].
  destruct (validate_uint256 value) as [v|e]; [|apply frame_refl].
  repeat split; try done. by eexists.
Qed.

Lemma set_balance_frame `{Address.EthUtils} addr value w :
  frame w (Env.set_balance addr value w).2.
Proof.
  unfold Env.set_balance.
  apply frame_bind; [|intros a w1; apply state_set_balance_frame].
  apply same_but_addresses_frame, Address__frame.
Qed.

Lemma write_attr_accounts p f v w : accounts (write_attr p f v w) = accounts w.
Proof. by destruct p. Qed.

Lemma write_attr_checkpoints p f v w :
  checkpoints (write_attr p f v w) = checkpoints w.
Proof. by destruct p. Qed.

Lemma write_attr_effects p f v w :
  effects (write_attr p f v w) = effects w ++ [EvSetattr p f v].
Proof. by destruct p. Qed.

Lemma write_attr_same p f v w :
  attrs p (write_attr p f v w) = <[f := v]> (attrs p w).
Proof. by destruct p. Qed.

Lemma write_attr_other p q f v w :
  p <> q -> attrs q (write_attr p f v w) = attrs q w.
Proof. by destruct p, q. Qed.

Section snapshot_facts.
Variables v1 v2 v3 v4 v5 v6 v7 v8 : pyval.

Lemma snap_of_lookups :
  (snap_of v1 v2 v3 v4 v5 v6 v7 v8) !! "block_number" = Some v1 /\
  (snap_of v1 v2 v3 v4 v5 v6 v7 v8) !! "timestamp" = Some v2 /\
  (snap_of v1 v2 v3 v4 v5 v6 v7 v8) !! "coinbase" = Some v3 /\
  (snap_of v1 v2 v3 v4 v5 v6 v7 v8) !! "difficulty" = Some v4 /\
  (snap_of v1 v2 v3 v4 v5 v6 v7 v8) !! "prev_hashes" = Some v5 /\
  (snap_of v1 v2 v3 v4 v5 v6 v7 v8) !! "chain_id" = Some v6 /\
  (snap_of v1 v2 v3 v4 v5 v6 v7 v8) !! "gas_limit" = Some v7 /\
  (snap_of v1 v2 v3 v4 v5 v6 v7 v8) !! "code_size_limit" = Some v8.
Proof.
  unfold snap_of. repeat split;
    repeat (rewrite lookup_insert_ne by done); apply lookup_insert_eq.
Qed.

Lemma anchor_enter_ok w :
  holds v1 v2 v3 v4 v5 v6 v7 v8 w -> VMPatcher.anchor_enter w = (Ok (snap_of v1 v2 v3 v4 v5 v6 v7 v8), w).
Proof.
  intros (H1 & H2 & H3 & H4 & H5 & H6 & H7 & H8).
  unfold VMPatcher.anchor_enter. rewrite patchable_names_eq.
  cbn [VMPatcher.take_snap].
  change (VMPatcher.__getattr__ "block_number") with (py_getattr ExecutionContext "_block_number").
  change (VMPatcher.__getattr__ "timestamp") with (py_getattr ExecutionContext "_timestamp").
  change (VMPatcher.__getattr__ "coinbase") with (py_getattr ExecutionContext "_coinbase").
  change (VMPatcher.__getattr__ "difficulty") with (py_getattr ExecutionContext "_difficulty").
  change (VMPatcher.__getattr__ "prev_hashes") with (py_getattr ExecutionContext "_prev_hashes").
  change (VMPatcher.__getattr__ "chain_id") with (py_getattr ExecutionContext "_chain_id").
  change (VMPatcher.__getattr__ "gas_limit") with (py_getattr ExecutionContext "_gas_limit").
  change (VMPatcher.__getattr__ "code_size_limit")
    with (py_getattr SpuriousDragon "EIP170_CODE_SIZE_LIMIT").
  unfold bind, py_getattr, attrs, ret.
  by rewrite H1, H2, H3, H4, H5, H6, H7, H8.
Qed.

Lemma anchor_exit_snap w :
  VMPatcher.anchor_exit (snap_of v1 v2 v3 v4 v5 v6 v7 v8) w = (Ok tt, restore v1 v2 v3 v4 v5 v6 v7 v8 w).
Proof.
  destruct snap_of_lookups as (H1 & H2 & H3 & H4 & H5 & H6 & H7 & H8).
  unfold VMPatcher.anchor_exit. rewrite patchable_names_eq.
  cbn [for_each]. rewrite H1, H2, H3, H4, H5, H6, H7, H8.
  change (VMPatcher.__setattr__ "block_number") with (py_setattr ExecutionContext "_block_number").
  change (VMPatcher.__setattr__ "timestamp") with (py_setattr ExecutionContext "_timestamp").
  change (VMPatcher.__setattr__ "coinbase") with (py_setattr ExecutionContext "_coinbase").
  change (VMPatcher.__setattr__ "difficulty") with (py_setattr ExecutionContext "_difficulty").
  change (VMPatcher.__setattr__ "prev_hashes") with (py_setattr ExecutionContext "_prev_hashes").
  change (VMPatcher.__setattr__ "chain_id") with (py_setattr ExecutionContext "_chain_id").
  change (VMPatcher.__setattr__ "gas_limit") with (py_setattr ExecutionContext "_gas_limit").
  change (VMPatcher.__setattr__ "code_size_limit")
    with (py_setattr SpuriousDragon "EIP170_CODE_SIZE_LIMIT").
  unfold bind, ret, py_setattr, restore. reflexivity.
Qed.

Lemma restore_accounts w : accounts (restore v1 v2 v3 v4 v5 v6 v7 v8 w) = accounts w.
Proof. unfold restore. by rewrite !write_attr_accounts. Qed.

Lemma restore_checkpoints w : checkpoints (restore v1 v2 v3 v4 v5 v6 v7 v8 w) = checkpoints w.
Proof. unfold restore. by rewrite !write_attr_checkpoints. Qed.

Lemma restore_effects w :
  effects (restore v1 v2 v3 v4 v5 v6 v7 v8 w) =
  effects w ++
    [ EvSetattr ExecutionContext "_block_number" v1;
      EvSetattr ExecutionContext "_timestamp" v2;
      EvSetattr ExecutionContext "_coinbase" v3;
      EvSetattr ExecutionContext "_difficulty" v4;
      EvSetattr ExecutionContext "_prev_hashes" v5;
      EvSetattr ExecutionContext "_chain_id" v6;
      EvSetattr ExecutionContext "_gas_limit" v7;
      EvSetattr SpuriousDragon "EIP170_CODE_SIZE_LIMIT" v8 ].
Proof. unfold restore. rewrite !write_attr_effects. by rewrite <- !app_assoc. Qed.

Lemma restore_events_holds w :
  holds v1 v2 v3 v4 v5 v6 v7 v8 w ->
  VMPatcher.restore_events w =
    [ EvSetattr ExecutionContext "_block_number" v1;
      EvSetattr ExecutionContext "_timestamp" v2;
      EvSetattr ExecutionContext "_coinbase" v3;
      EvSetattr ExecutionContext "_difficulty" v4;
      EvSetattr ExecutionContext "_prev_hashes" v5;
      EvSetattr ExecutionContext "_chain_id" v6;
      EvSetattr ExecutionContext "_gas_limit" v7;
      EvSetattr SpuriousDragon "EIP170_CODE_SIZE_LIMIT" v8 ].
Proof.
  intros (H1 & H2 & H3 & H4 & H5 & H6 & H7 & H8).
  unfold VMPatcher.restore_events.
  change VMPatcher.slots with
    [ (ExecutionContext, "_block_number"); (ExecutionContext, "_timestamp");
      (ExecutionContext, "_coinbase"); (ExecutionContext, "_difficulty");
      (ExecutionContext, "_prev_hashes"); (ExecutionContext, "_chain_id");
      (ExecutionContext, "_gas_limit");
      (SpuriousDragon, "EIP170_CODE_SIZE_LIMIT") ]%string.
  cbn [omap list_omap attrs fst snd].
  by rewrite H1, H2, H3, H4, H5, H6, H7, H8.
Qed.

(** After the [finally] clause the two objects are as they were when the
    snapshot was taken, whatever the block did to the patched attributes. *)
Lemma restore_attrs w0 w :
  holds v1 v2 v3 v4 v5 v6 v7 v8 w0 ->
  (forall f, f ∉ VMPatcher._exc_patchables.*2 ->
             execution_context w !! f = execution_context w0 !! f) ->
  (forall f, f ∉ VMPatcher._cmp_patchables.*2 ->
             spurious_dragon w !! f = spurious_dragon w0 !! f) ->
  execution_context (restore v1 v2 v3 v4 v5 v6 v7 v8 w) = execution_context w0 /\
  spurious_dragon (restore v1 v2 v3 v4 v5 v6 v7 v8 w) = spurious_dragon w0.
Proof.
  intros (H1 & H2 & H3 & H4 & H5 & H6 & H7 & H8) He Hs. unfold restore. split.
  - change (execution_context ?a) with (attrs ExecutionContext a).
    rewrite write_attr_other by done. rewrite !write_attr_same.
    apply map_eq. intros f. cbn [attrs].
    repeat (rewrite lookup_insert; case_decide; [subst f; by symmetry|]).
    apply He. simpl. rewrite !not_elem_of_cons. repeat split; try congruence.
    apply not_elem_of_nil.
  - change (spurious_dragon ?a) with (attrs SpuriousDragon a).
    rewrite write_attr_same. rewrite !write_attr_other by done.
    apply map_eq. intros f. cbn [attrs].
    rewrite lookup_insert; case_decide; [subst f; by symmetry|].
    apply Hs. simpl. rewrite !not_elem_of_cons. repeat split; try congruence.
    apply not_elem_of_nil.
Qed.

End snapshot_facts.

Lemma take_snap_pure names snap w : (VMPatcher.take_snap names snap w).2 = w.
Proof.
  revert snap w. induction names as [|attr names IH]; intros snap w; simpl; [done|].
  unfold bind. pose proof (getattr_pure attr w) as Hg.
  destruct (VMPatcher.__getattr__ attr w) as [[v|e] w1]; simpl in Hg; subst w1; [|done].
  apply IH.
Qed.

Lemma anchor_enter_pure w : (VMPatcher.anchor_enter w).2 = w.
Proof. apply take_snap_pure. Qed.

Lemma anchor_enter_Ok_holds w snap w1 :
  VMPatcher.anchor_enter w = (Ok snap, w1) ->
  exists v1 v2 v3 v4 v5 v6 v7 v8,
    holds v1 v2 v3 v4 v5 v6 v7 v8 w /\ snap = snap_of v1 v2 v3 v4 v5 v6 v7 v8.
Proof.
  unfold VMPatcher.anchor_enter. rewrite patchable_names_eq.
  cbn [VMPatcher.take_snap].
  change (VMPatcher.__getattr__ "block_number") with (py_getattr ExecutionContext "_block_number").
  change (VMPatcher.__getattr__ "timestamp") with (py_getattr ExecutionContext "_timestamp").
  change (VMPatcher.__getattr__ "coinbase") with (py_getattr ExecutionContext "_coinbase").
  change (VMPatcher.__getattr__ "difficulty") with (py_getattr ExecutionContext "_difficulty").
  change (VMPatcher.__getattr__ "prev_hashes") with (py_getattr ExecutionContext "_prev_hashes").
  change (VMPatcher.__getattr__ "chain_id") with (py_getattr ExecutionContext "_chain_id").
  change (VMPatcher.__getattr__ "gas_limit") with (py_getattr ExecutionContext "_gas_limit").
  change (VMPatcher.__getattr__ "code_size_limit")
    with (py_getattr SpuriousDragon "EIP170_CODE_SIZE_LIMIT").
  unfold bind, py_getattr, attrs, ret.
  destruct (execution_context w !! "_block_number") as [v1|] eqn:H1; [|discriminate].
  destruct (execution_context w !! "_timestamp") as [v2|] eqn:H2; [|discriminate].
  destruct (execution_context w !! "_coinbase") as [v3|] eqn:H3; [|discriminate].
  destruct (execution_context w !! "_difficulty") as [v4|] eqn:H4; [|discriminate].
  destruct (execution_context w !! "_prev_hashes") as [v5|] eqn:H5; [|discriminate].
  destruct (execution_context w !! "_chain_id") as [v6|] eqn:H6; [|discriminate].
  destruct (execution_context w !! "_gas_limit") as [v7|] eqn:H7; [|discriminate].
  destruct (spurious_dragon w !! "EIP170_CODE_SIZE_LIMIT") as [v8|] eqn:H8; [|discriminate].
  intros [= <- <-]. exists v1, v2, v3, v4, v5, v6, v7, v8. by unfold holds.
Qed.

Lemma patched_holds w :
  VMPatcher.patched w ->
  exists v1 v2 v3 v4 v5 v6 v7 v8, holds v1 v2 v3 v4 v5 v6 v7 v8 w.
Proof.
  unfold VMPatcher.patched.
  change VMPatcher.slots with
    [ (ExecutionContext, "_block_number"); (ExecutionContext, "_timestamp");
      (ExecutionContext, "_coinbase"); (ExecutionContext, "_difficulty");
      (ExecutionContext, "_prev_hashes"); (ExecutionContext, "_chain_id");
      (ExecutionContext, "_gas_limit");
      (SpuriousDragon, "EIP170_CODE_SIZE_LIMIT") ]%string.
  intros Hp.
  apply Forall_cons in Hp as [[v1 H1] Hp]. apply Forall_cons in Hp as [[v2 H2] Hp].
  apply Forall_cons in Hp as [[v3 H3] Hp]. apply Forall_cons in Hp as [[v4 H4] Hp].
  apply Forall_cons in Hp as [[v5 H5] Hp]. apply Forall_cons in Hp as [[v6 H6] Hp].
  apply Forall_cons in Hp as [[v7 H7] Hp]. apply Forall_cons in Hp as [[v8 H8] Hp].
  exists v1, v2, v3, v4, v5, v6, v7, v8. by unfold holds.
Qed.

Lemma state_revert_top id saved rest w :
  checkpoints w = (id, saved) :: rest ->
  state_revert id w = (Ok tt, reverted id saved rest w).
Proof.
  intros Hc. unfold state_revert. rewrite Hc. simpl. by rewrite decide_True.
Qed.

Lemma reverted_facts id saved rest w :
  accounts (reverted id saved rest w) = saved /\
  execution_context (reverted id saved rest w) = execution_context w /\
  spurious_dragon (reverted id saved rest w) = spurious_dragon w /\
  checkpoints (reverted id saved rest w) = rest /\
  effects (reverted id saved rest w) = effects w ++ [EvRevert id].
Proof. done. Qed.

Lemma entered_facts w :
  accounts (entered w) = accounts w /\
  execution_context (entered w) = execution_context w /\
  spurious_dragon (entered w) = spurious_dragon w /\
  checkpoints (entered w) = (next_checkpoint w, accounts w) :: checkpoints w /\
  effects (entered w) = effects w ++ [EvSnapshot (next_checkpoint w)].
Proof. done. Qed.

Lemma holds_entered v1 v2 v3 v4 v5 v6 v7 v8 w :
  holds v1 v2 v3 v4 v5 v6 v7 v8 w <-> holds v1 v2 v3 v4 v5 v6 v7 v8 (entered w).
Proof. done. Qed.

(** What [with env.anchor(): body] does, for a block that respects
    [frame]. *)
Lemma anchor_spec {A} (body : M World A) (w : World) :
  frame (entered w) (body (entered w)).2 ->
  let res := Env.anchor body w in
  accounts res.2 = accounts w /\
  execution_context res.2 = execution_context w /\
  spurious_dragon res.2 = spurious_dragon w /\
  checkpoints res.2 = checkpoints w /\
  (exists evs, effects res.2 = effects w ++ evs) /\
  (VMPatcher.patched w ->
   res.1 = (body (entered w)).1 /\
   exists evs,
     effects (body (entered w)).2 = effects (entered w) ++ evs /\
     effects res.2
     = effects w ++ [EvSnapshot (next_checkpoint w)] ++ evs
         ++ VMPatcher.restore_events w ++ [EvRevert (next_checkpoint w)]).
Proof.
  intros Hframe res.
  destruct (entered_facts w) as (Hacc & Hctx & Hsd & Hcps & Heff).
  assert (res = try_finally (VMPatcher.anchor body)
                  (state_revert (next_checkpoint w)) (entered w)) as Hres by done.
  clearbody res. unfold try_finally, VMPatcher.anchor, bind in Hres.
  pose proof (anchor_enter_pure (entered w)) as Hpure.
  destruct (VMPatcher.anchor_enter (entered w)) as [[snap|e] w1] eqn:Henter;
    cbn [fst snd] in Hpure; subst w1.
  - destruct (anchor_enter_Ok_holds _ _ _ Henter)
      as (v1 & v2 & v3 & v4 & v5 & v6 & v7 & v8 & Hholds & ->).
    destruct Hframe as (Hfc & Hfe & Hfs & evs & Hfev).
    unfold try_finally in Hres.
    destruct (body (entered w)) as [r w2]; cbn [fst snd] in *.
    rewrite anchor_exit_snap in Hres.
    rewrite (state_revert_top (next_checkpoint w) (accounts w) (checkpoints w))
      in Hres by (rewrite restore_checkpoints; congruence).
    subst res.
    destruct (restore_attrs v1 v2 v3 v4 v5 v6 v7 v8 (entered w) w2 Hholds Hfe Hfs)
      as [Hre Hrs].
    destruct (reverted_facts (next_checkpoint w) (accounts w) (checkpoints w)
                (restore v1 v2 v3 v4 v5 v6 v7 v8 w2))
      as (Hra & Hrc & Hrd & Hrk & Hrv).
    assert (effects (reverted (next_checkpoint w) (accounts w) (checkpoints w)
                       (restore v1 v2 v3 v4 v5 v6 v7 v8 w2))
            = effects w ++ [EvSnapshot (next_checkpoint w)] ++ evs
                ++ VMPatcher.restore_events w ++ [EvRevert (next_checkpoint w)])
      as Hfinal.
    { rewrite Hrv, restore_effects, Hfev, Heff.
      rewrite (restore_events_holds v1 v2 v3 v4 v5 v6 v7 v8 w)
        by by apply holds_entered.
      by rewrite <- !app_assoc. }
    cbn [fst snd]. split; [done|]. split; [congruence|]. split; [congruence|].
    split; [done|]. split.
    + rewrite Hfinal. by eexists.
    + intros _. split; [done|]. exists evs. split; [done|]. exact Hfinal.
  - destruct (reverted_facts (next_checkpoint w) (accounts w) (checkpoints w)
                (entered w)) as (Hra & Hrc & Hrd & Hrk & Hrv).
    rewrite (state_revert_top (next_checkpoint w) (accounts w) (checkpoints w))
      in Hres by done.
    subst res.
    cbn [fst snd]. split; [done|]. split; [congruence|]. split; [congruence|].
    split; [done|]. split.
    + rewrite Hrv, Heff. eexists. by rewrite <- app_assoc.
    + intros Hp. exfalso.
      destruct (patched_holds w Hp) as (v1 & v2 & v3 & v4 & v5 & v6 & v7 & v8 & Hh).
      pose proof (anchor_enter_ok _ _ _ _ _ _ _ _ (entered w)
                    (proj1 (holds_entered _ _ _ _ _ _ _ _ w) Hh)).
      congruence.
Qed.

Lemma stmt_ind' (P : Env.stmt -> Prop) :
  (forall addr value, P (Env.SetBalance addr value)) ->
  (forall address value, P (Env.StateSetBalance address value)) ->
  (forall attr value, P (Env.SetPatch attr value)) ->
  (forall seconds blocks block_delta, P (Env.TimeTravel seconds blocks block_delta)) ->
  (forall e, P (Env.RaiseExn e)) ->
  (forall body, Forall P body -> P (Env.Anchored body)) ->
  forall s, P s.
Proof.
  intros Hb Hsb Hp Ht Hr Ha. fix IH 1.
  intros [addr value|address value|attr value|s b d|e|body].
  - apply Hb.
  - apply Hsb.
  - apply Hp.
  - apply Ht.
  - apply Hr.
  - apply Ha. induction body as [|s body IHb]; constructor; [apply IH | exact IHb].
Qed.

Section anchor_facts.
Context `{Address.EthUtils}.

Lemma run_stmt_Anchored body w :
  Env.run_stmt (Env.Anchored body) w = Env.anchor (Env.run_block body) w.
Proof.
  simpl. f_equal. unfold Env.run_block.
  induction body as [|s body IH]; simpl; [done|]. by rewrite IH.
Qed.

Lemma frame_for_each_Forall (body : list Env.stmt) :
  Forall (fun s => forall w, frame w (Env.run_stmt s w).2) body ->
  forall w, frame w (Env.run_block body w).2.
Proof.
  unfold Env.run_block. induction 1 as [|s body Hs Hbody IH]; intros w; simpl.
  - apply frame_refl.
  - apply frame_bind; [apply Hs | intros _ w1; apply IH].
Qed.

Lemma run_stmt_frame s : forall w, frame w (Env.run_stmt s w).2.
Proof.
  induction s as [addr value|address value|attr value|seconds blocks d|e|body IH]
    using stmt_ind'; intros w.
  - apply set_balance_frame.
  - apply state_set_balance_frame.
  - apply setattr_frame.
  - apply time_travel_frame.
  - apply frame_refl.
  - rewrite run_stmt_Anchored.
    destruct (anchor_spec (Env.run_block body) w
                (frame_for_each_Forall body IH (entered w)))
      as (_ & Hctx & Hsd & Hcps & Hev & _).
    repeat split; [done | by rewrite Hctx | by rewrite Hsd | done].
Qed.

Lemma run_block_frame body w : frame w (Env.run_block body w).2.
Proof.
  apply frame_for_each_Forall. apply Forall_forall. intros s _. apply run_stmt_frame.
Qed.

End anchor_facts.

(** C1.  Let a block of balance writes (on the engine, with the twenty
    bytes of the address, or through [env.set_balance]), patch writes, time
    travels, raises and nested anchored blocks run under
    [with env.anchor():].  When the
    [with] statement is left, by the end of the block or by an exception,
    the accounts (so every balance) and the attributes of the two patched
    objects (so the timestamp) are what they were before it was entered,
    and so are the open checkpoints.  If the eight patched attributes exist,
    the statement ends as the block ends (returns, or raises its
    exception), and the calls it makes are: [snapshot], the calls of the
    block, the writes that put the eight attributes back, and last
    [revert] of that snapshot. *)
Theorem anchor_restores `{Address.EthUtils} (body : list Env.stmt) (w : World) :
  let res := Env.anchor (Env.run_block body) w in
  accounts res.2 = accounts w /\
  (forall a, (state_get_balance a res.2).1 = (state_get_balance a w).1) /\
  execution_context res.2 = execution_context w /\
  spurious_dragon res.2 = spurious_dragon w /\
  (VMPatcher.__getattr__ "timestamp" res.2).1 = (VMPatcher.__getattr__ "timestamp" w).1 /\
  checkpoints res.2 = checkpoints w /\
  (VMPatcher.patched w ->
   res.1 = (Env.run_block body (entered w)).1 /\
   exists evs,
     effects (Env.run_block body (entered w)).2 = effects (entered w) ++ evs /\
     effects res.2
     = effects w ++ [EvSnapshot (next_checkpoint w)] ++ evs
         ++ VMPatcher.restore_events w ++ [EvRevert (next_checkpoint w)]).
Proof.
  intros res.
  destruct (anchor_spec (Env.run_block body) w (run_block_frame body (entered w)))
    as (Hacc & Hctx & Hsd & Hcps & _ & Hord).
  fold res in Hacc, Hctx, Hsd, Hcps, Hord.
  split; [done|]. split.
  { intros a. unfold state_get_balance.
    destruct (validate_canonical_address a) as [k|e]; [|done].
    unfold gets. cbn [fst]. by rewrite Hacc. }
  split; [done|]. split; [done|]. split.
  { change (VMPatcher.__getattr__ "timestamp")
      with (py_getattr ExecutionContext "_timestamp").
    unfold py_getattr, attrs. rewrite Hctx.
    by destruct (execution_context w !! "_timestamp"). }
  split; [done|]. exact Hord.
Qed.

Lemma patched_world0 : VMPatcher.patched Fixtures.world0.
Proof. repeat constructor; eexists; reflexivity. Qed.

Lemma anchor_restores_witness :
  let body := [Env.StateSetBalance (Fixtures.addr Byte.x01) 5;
               Env.SetPatch "timestamp" (VInt 7);
               Env.RaiseExn (ValueError "boom")] in
  let res := Env.anchor (Env.run_block body) Fixtures.world0 in
  VMPatcher.patched Fixtures.world0 /\
  res.1 = Raise (ValueError "boom") /\
  accounts res.2 = accounts Fixtures.world0 /\
  (VMPatcher.__getattr__ "timestamp" res.2).1 = Ok (VInt 1000) /\
  exists evs,
    effects res.2
    = effects Fixtures.world0 ++ [EvSnapshot 0%nat] ++ evs
        ++ VMPatcher.restore_events Fixtures.world0 ++ [EvRevert 0%nat].
Proof.
  intros body res.
  destruct (anchor_restores body Fixtures.world0)
    as (Hacc & _ & _ & _ & Hts & _ & Hord).
  destruct (Hord patched_world0) as (Hres & evs & _ & Hev).
  split; [exact patched_world0|].
  split; [exact Hres|].
  split; [exact Hacc|].
  split; [exact Hts|].
  exists evs. exact Hev.
Defined.

(** Inside the block the two writes are visible; after it they are gone;
    the exception of the block comes out of the [with] statement. *)
Example anchor_round_trip :
  let inside :=
    (Env.run_block [Env.StateSetBalance (Fixtures.addr Byte.x01) 5;
                    Env.SetPatch "timestamp" (VInt 7)]
                   (entered Fixtures.world0)).2 in
  let after :=
    Env.anchor (Env.run_block [Env.StateSetBalance (Fixtures.addr Byte.x01) 5;
                               Env.SetPatch "timestamp" (VInt 7);
                               Env.RaiseExn (ValueError "boom")])
               Fixtures.world0 in
  (state_get_balance (ArgBytes (Fixtures.addr Byte.x01)) inside).1 = Ok 5 /\
  (VMPatcher.__getattr__ "timestamp" inside).1 = Ok (VInt 7) /\
  after.1 = Raise (ValueError "boom") /\
  (state_get_balance (ArgBytes (Fixtures.addr Byte.x01)) after.2).1 = Ok 0 /\
  (VMPatcher.__getattr__ "timestamp" after.2).1 = Ok (VInt 1000) /\
  effects after.2 =
    [ EvSnapshot 0%nat;
      EvSetBalance (Fixtures.addr Byte.x01) 5;
      EvSetattr ExecutionContext "_timestamp" (VInt 7);
      EvSetattr ExecutionContext "_block_number" (VInt 1);
      EvSetattr ExecutionContext "_timestamp" (VInt 1000);
      EvSetattr ExecutionContext "_coinbase" (VBytes (Fixtures.addr Byte.x00));
      EvSetattr ExecutionContext "_difficulty" (VInt 0);
      EvSetattr ExecutionContext "_prev_hashes" (VHashes []);
      EvSetattr ExecutionContext "_chain_id" (VInt 1);
      EvSetattr ExecutionContext "_gas_limit" (VInt 100000000);
      EvSetattr SpuriousDragon "EIP170_CODE_SIZE_LIMIT" (VInt 24576);
      EvRevert 0%nat ].
Proof. vm_compute. repeat split. Qed.

(** * Further properties *)

(** ** Address: what the cache keeps *)

Section address_cache_facts.
Context `{Address.EthUtils}.

Lemma lru_lookup_Some_split {V} (k : Address.raw) (v : V) l :
  Address.lru_lookup k l = Some v ->
  exists l1 l2, l = l1 ++ (k, v) :: l2 /\ (k ∉ l1.*1).
Proof.
  induction l as [|[k' v'] l IH]; simpl; [done|].
  case_decide as Hd.
  - intros [= ->]. subst k'. exists [], l. split; [done|]. apply not_elem_of_nil.
  - intros Hl. destruct (IH Hl) as (l1 & l2 & -> & Hn).
    exists ((k', v') :: l1), l2. split; [done|]. simpl.
    apply not_elem_of_cons. done.
Qed.

Lemma lru_remove_split {V} (k : Address.raw) (v : V) l1 l2 :
  k ∉ l1.*1 -> k ∉ l2.*1 ->
  Address.lru_remove k (l1 ++ (k, v) :: l2) = l1 ++ l2.
Proof.
  intros H1 H2. rewrite lru_remove_app. simpl. rewrite decide_True by done.
  by rewrite !lru_remove_id.
Qed.

(** In a cache with one entry per key, a hit only reorders the entries. *)
Lemma hit_permutation (k : Address.raw) (a : Address.t) l :
  NoDup l.*1 -> Address.lru_lookup k l = Some a ->
  Address.lru_remove k l ++ [(k, a)] ≡ₚ l.
Proof.
  intros Hnd Hl. destruct (lru_lookup_Some_split _ _ _ Hl) as (l1 & l2 & -> & H1).
  assert (k ∉ l2.*1) as H2.
  { rewrite fmap_app in Hnd. simpl in Hnd. apply NoDup_app in Hnd as (_ & _ & Hnd).
    by apply NoDup_cons in Hnd as [Hnd _]. }
  rewrite lru_remove_split by done.
  rewrite <- app_assoc. apply Permutation_app_head.
  symmetry. apply Permutation_cons_append.
Qed.

Lemma entry_wf_mono n m e : (n <= m)%nat -> entry_wf n e -> entry_wf m e.
Proof. intros Hnm (H1 & H2 & H3 & H4). repeat split; try done. lia. Qed.

Lemma store_wf_empty : store_wf (Address.mkStore [] 0).
Proof.
  repeat split; simpl; try apply NoDup_nil_2; [|constructor].
  unfold Address.cache_capacity. lia.
Qed.

Lemma store_wf_tail c n :
  NoDup c.*1 -> NoDup (Address.oid <$> c.*2) -> Forall (entry_wf n) c ->
  NoDup (tail c).*1 /\ NoDup (Address.oid <$> (tail c).*2) /\
  Forall (entry_wf n) (tail c).
Proof.
  destruct c as [|e c]; simpl; [done|].
  intros H1 H2 H3. apply NoDup_cons in H1 as [_ H1]. apply NoDup_cons in H2 as [_ H2].
  apply Forall_cons in H3 as [_ H3]. done.
Qed.

Lemma new_preserves_wf i s : store_wf s -> store_wf (Address.new_ i s).2.
Proof.
  intros (Hk & Ho & Hlen & Hall). destruct i as [r|b]; [|done].
  unfold Address.new_, Address.lru_getitem.
  destruct (Address.lru_lookup r (Address._cache s)) as [a|] eqn:Hl; simpl.
  - pose proof (hit_permutation r a _ Hk Hl) as Hp.
    repeat split; simpl.
    + by rewrite Hp.
    + by rewrite Hp.
    + by rewrite Hp.
    + by rewrite Hp.
  - destruct (Address.to_checksum_address r) as [cs|e] eqn:Hcs; [|done].
    destruct (Address.to_canonical_address r) as [cn|e] eqn:Hcn; [|done].
    simpl. unfold Address.lru_setitem. cbv zeta.
    apply lru_lookup_None in Hl. rewrite lru_remove_id by done.
    set (self := Address.mk (Address.next_oid s) cs cn (Address.lower cs)).
    assert (NoDup (Address._cache s ++ [(r, self)]).*1) as Hk'.
    { rewrite fmap_app. simpl. apply NoDup_app. split; [done|]. split.
      - intros x Hx Hx'. apply list_elem_of_singleton in Hx'. by subst x.
      - apply NoDup_singleton. }
    assert (NoDup (Address.oid <$> (Address._cache s ++ [(r, self)]).*2)) as Ho'.
    { rewrite !fmap_app. simpl. apply NoDup_app. split; [done|]. split.
      - intros x Hx Hx'. apply list_elem_of_singleton in Hx'. subst x.
        apply list_elem_of_fmap in Hx as (a & Ha & Hin).
        apply list_elem_of_fmap in Hin as (e & -> & Hin).
        rewrite Forall_forall in Hall. destruct (Hall e Hin) as (_ & _ & _ & Hlt).
        lia.
      - apply NoDup_singleton. }
    assert (Forall (entry_wf (S (Address.next_oid s)))
              (Address._cache s ++ [(r, self)])) as Hall'.
    { apply Forall_app. split.
      - eapply Forall_impl; [exact Hall|]. intros e. apply entry_wf_mono. lia.
      - constructor; [|constructor]. repeat split; simpl; try done. lia. }
    case_match eqn:Hlt.
    + destruct (store_wf_tail _ _ Hk' Ho' Hall') as (H1 & H2 & H3).
      repeat split; try done. simpl.
      destruct (Address._cache s) as [|e0 c0]; simpl in *; [lia|].
      rewrite length_app. simpl. lia.
    + apply Nat.ltb_ge in Hlt. repeat split; done.
Qed.

Lemma new_all_preserves_wf inputs s : store_wf s -> store_wf (Address.new_all inputs s).
Proof.
  revert s. induction inputs as [|i inputs IH]; intros s Hs; simpl; [done|].
  apply IH. by apply new_preserves_wf.
Qed.

End address_cache_facts.

(** X1.  Whatever constructor calls have been made since the class was
    loaded, the cache has one entry per raw input, the cached objects are
    pairwise distinct, there are at most 1024 entries, and every cached
    object carries exactly what [eth_utils] derives from its key. *)
Theorem address_store_invariant `{Address.EthUtils} (inputs : list Address.input) :
  let s := Address.new_all inputs (Address.mkStore [] 0) in
  NoDup (Address._cache s).*1 /\
  NoDup (Address.oid <$> (Address._cache s).*2) /\
  (length (Address._cache s) <= 1024)%nat /\
  Forall (fun e =>
            Address.to_checksum_address e.1 = Ok (Address.checksum_address e.2) /\
            Address.to_canonical_address e.1 = Ok (Address.canonical_address e.2) /\
            Address.normalized_address e.2
              = Address.lower (Address.checksum_address e.2))
         (Address._cache s).
Proof.
  intros s.
  destruct (new_all_preserves_wf inputs _ store_wf_empty) as (H1 & H2 & H3 & H4).
  fold s in H1, H2, H3, H4. repeat split; try done.
  eapply Forall_impl; [exact H4|]. intros e (? & ? & ? & _). done.
Qed.

Lemma sole_elem k a l : sole k a l -> (k, a) ∈ l.
Proof. intros (l1 & l2 & -> & _). apply elem_of_app. right. left. Qed.

(** X2.  The cache is transparent: on a state that the constructor has
    kept, [Address(r)], hit or miss, returns an object whose three slots are
    [to_checksum_address(r)], [to_canonical_address(r)] and the lower-cased
    checksum. *)
Theorem address_fields `{Address.EthUtils}
  (r : Address.raw) (a : Address.t) (s s' : Address.store) :
  store_wf s ->
  Address.new_ (Address.OfRaw r) s = (Ok a, s') ->
  Address.to_checksum_address r = Ok (Address.checksum_address a) /\
  Address.to_canonical_address r = Ok (Address.canonical_address a) /\
  Address.normalized_address a = Address.lower (Address.checksum_address a).
Proof.
  intros Hwf Hnew.
  pose proof (new_preserves_wf (Address.OfRaw r) s Hwf) as (_ & _ & _ & Hall).
  rewrite Hnew in Hall. simpl in Hall.
  pose proof (sole_elem _ _ _ (new_caches _ _ _ _ Hnew)) as Hin.
  rewrite Forall_forall in Hall. destruct (Hall _ Hin) as (? & ? & ? & _). done.
Qed.

Lemma address_fields_witness :
  let r := Address.RBytes (Fixtures.addr Byte.x01) in
  let a := Address.mk 0 "0xAb01" (Fixtures.addr Byte.x01) "0xab01" in
  Address.to_checksum_address r = Ok (Address.checksum_address a) /\
  Address.to_canonical_address r = Ok (Address.canonical_address a) /\
  Address.normalized_address a = Address.lower (Address.checksum_address a).
Proof.
  intros r a.
  exact (address_fields r a Fixtures.store0 _ store_wf_empty eq_refl).
Defined.

Lemma lookup_elem {V} (k : Address.raw) (v : V) l :
  Address.lru_lookup k l = Some v -> (k, v) ∈ l.
Proof.
  intros Hl. destruct (lru_lookup_Some_split _ _ _ Hl) as (l1 & l2 & -> & _).
  apply elem_of_app. right. left.
Qed.

(** X3.  An input that [eth_utils] rejects is never answered from the
    cache: on a state that the constructor has kept, [Address(r)] raises the
    error of [to_checksum_address], or else that of [to_canonical_address],
    and the state of the class is as before. *)
Theorem address_rejects `{Address.EthUtils}
  (r : Address.raw) (e : exn) (s : Address.store) :
  store_wf s ->
  Address.to_checksum_address r = Raise e \/
  ((exists c, Address.to_checksum_address r = Ok c) /\
   Address.to_canonical_address r = Raise e) ->
  Address.new_ (Address.OfRaw r) s = (Raise e, s).
Proof.
  intros (_ & _ & _ & Hall) Hbad.
  unfold Address.new_, Address.lru_getitem.
  destruct (Address.lru_lookup r (Address._cache s)) as [a|] eqn:Hl.
  - apply lookup_elem in Hl. rewrite Forall_forall in Hall.
    destruct (Hall _ Hl) as (Hcs & Hcn & _). simpl in *.
    destruct Hbad as [Hbad | [_ Hbad]]; congruence.
  - destruct Hbad as [-> | [[c ->] ->]]; done.
Qed.

Lemma address_rejects_witness :
  Address.new_ (Address.OfRaw (Address.RStr "not an address")) Fixtures.store0
  = (Raise (ValueError "not an address"), Fixtures.store0).
Proof.
  refine (address_rejects (Address.RStr "not an address")
            (ValueError "not an address") Fixtures.store0 store_wf_empty _).
  left. reflexivity.
Defined.

Lemma wf_distinct_objects `{Address.EthUtils} s r1 r2 a1 a2 :
  store_wf s ->
  (r1, a1) ∈ Address._cache s -> (r2, a2) ∈ Address._cache s ->
  r1 <> r2 -> Address.oid a1 <> Address.oid a2.
Proof.
  intros (_ & Ho & _ & _) H1 H2 Hne Heq.
  apply list_elem_of_lookup in H1 as [i Hi]. apply list_elem_of_lookup in H2 as [j Hj].
  assert (i = j) as ->.
  { eapply NoDup_lookup; [exact Ho| |].
    - rewrite !list_lookup_fmap, Hi. simpl. reflexivity.
    - rewrite !list_lookup_fmap, Hj. simpl. by rewrite Heq. }
  congruence.
Qed.

(** X4.  One object per raw input: on a state that the constructor has
    kept, the objects returned for two different raw inputs in a row are
    different objects, even when both inputs denote the same address. *)
Theorem address_per_input `{Address.EthUtils}
  (r1 r2 : Address.raw) (a1 a2 : Address.t) (s s1 s2 : Address.store) :
  store_wf s ->
  r1 <> r2 ->
  Address.new_ (Address.OfRaw r1) s = (Ok a1, s1) ->
  Address.new_ (Address.OfRaw r2) s1 = (Ok a2, s2) ->
  Address.oid a1 <> Address.oid a2.
Proof.
  intros Hwf Hne Hn1 Hn2.
  pose proof (new_preserves_wf (Address.OfRaw r1) s Hwf) as Hwf1.
  rewrite Hn1 in Hwf1. simpl in Hwf1.
  pose proof (sole_elem _ _ _ (new_caches _ _ _ _ Hn1)) as Hin1.
  revert Hn2. unfold Address.new_, Address.lru_getitem.
  destruct (Address.lru_lookup r2 (Address._cache s1)) as [a|] eqn:Hl.
  - intros [= <- <-]. apply lookup_elem in Hl.
    by apply (wf_distinct_objects s1 r1 r2 a1 a).
  - destruct (Address.to_checksum_address r2); [|done].
    destruct (Address.to_canonical_address r2); [|done].
    intros [= <- <-]. simpl.
    destruct Hwf1 as (_ & _ & _ & Hall). rewrite Forall_forall in Hall.
    destruct (Hall _ Hin1) as (_ & _ & _ & Hlt). simpl in Hlt. lia.
Qed.

Lemma address_per_input_witness :
  let r1 := Address.RBytes (Fixtures.addr Byte.x01) in
  let r2 := Address.RStr Fixtures.hex01 in
  Address.to_canonical_address r1 = Address.to_canonical_address r2 /\
  Address.oid (Address.mk 0 "0xAb01" (Fixtures.addr Byte.x01) "0xab01")
  <> Address.oid (Address.mk 1 "0xAb01" (Fixtures.addr Byte.x01) "0xab01").
Proof.
  intros r1 r2. split; [reflexivity|].
  refine (address_per_input r1 r2 _ _ Fixtures.store0 _ _ store_wf_empty _ eq_refl eq_refl).
  discriminate.
Defined.

Section recency_facts.
Context `{Address.EthUtils}.

Lemma sole_within_sole n k a l : sole_within n k a l -> sole k a l.
Proof. intros (l1 & l2 & ? & ? & ? & _). by exists l1, l2. Qed.

Lemma lru_remove_length {V} (k : Address.raw) (l : list (Address.raw * V)) :
  (length (Address.lru_remove k l) <= length l)%nat.
Proof.
  induction l as [|[k' v] l IH]; simpl; [done|]. case_decide; simpl; lia.
Qed.

(** After a successful construction the entry is the most recent one. *)
Lemma new_caches_within r a s s1 :
  Address.new_ (Address.OfRaw r) s = (Ok a, s1) ->
  sole_within 0 r a (Address._cache s1).
Proof.
  unfold Address.new_, Address.lru_getitem.
  destruct (Address.lru_lookup r (Address._cache s)) as [a0|] eqn:Hl.
  - intros [= <- <-]. simpl. exists (Address.lru_remove r (Address._cache s)), [].
    repeat split; [apply lru_remove_notin | apply not_elem_of_nil | done].
  - destruct (Address.to_checksum_address r); [|done].
    destruct (Address.to_canonical_address r); [|done].
    intros [= <- <-]. simpl. unfold Address.lru_setitem. cbv zeta.
    case_match eqn:Hlt.
    + apply Nat.ltb_lt in Hlt. rewrite length_app in Hlt. simpl in Hlt.
      destruct (Address.lru_remove r (Address._cache s)) as [|e l'] eqn:Hr;
        simpl in *; [unfold Address.cache_capacity in Hlt; lia|].
      exists l', []. repeat split; [|apply not_elem_of_nil|done].
      pose proof (lru_remove_notin r (Address._cache s)) as Hn'.
      rewrite Hr in Hn'. simpl in Hn'. apply not_elem_of_cons in Hn'. tauto.
    + exists (Address.lru_remove r (Address._cache s)), [].
      repeat split; [apply lru_remove_notin | apply not_elem_of_nil | done].
Qed.

(** Appending behind the entry makes it one step less recent. *)
Lemma sole_within_app n k a l k' v :
  k' <> k -> sole_within n k a l -> sole_within (S n) k a (l ++ [(k', v)]).
Proof.
  intros Hne (l1 & l2 & -> & H1 & H2 & Hlen).
  exists l1, (l2 ++ [(k', v)]). rewrite <- app_assoc. simpl.
  repeat split; try done.
  - rewrite fmap_app. simpl. rewrite elem_of_app, list_elem_of_singleton.
    intros [?|?]; congruence.
  - rewrite length_app. simpl. lia.
Qed.

Lemma sole_within_remove n k a k' l :
  k' <> k -> sole_within n k a l -> sole_within n k a (Address.lru_remove k' l).
Proof.
  intros Hne (l1 & l2 & -> & H1 & H2 & Hlen).
  exists (Address.lru_remove k' l1), (Address.lru_remove k' l2).
  rewrite lru_remove_app. simpl. rewrite decide_False by done.
  repeat split; try done.
  - intros Hin; apply lru_remove_keys_subseteq in Hin; done.
  - intros Hin; apply lru_remove_keys_subseteq in Hin; done.
  - pose proof (lru_remove_length k' l2). lia.
Qed.

(** The eviction spares an entry with fewer than [capacity] more recent
    ones. *)
Lemma sole_within_tail n cap k a l :
  (n < cap)%nat -> (cap < length l)%nat ->
  sole_within n k a l -> sole_within n k a (tail l).
Proof.
  intros Hn Hcap (l1 & l2 & -> & H1 & H2 & Hlen).
  destruct l1 as [|e l1]; simpl in *.
  - lia.
  - exists l1, l2. repeat split; try done. intros Hin. apply H1. by right.
Qed.

Lemma new_keeps_within n r a i s :
  (S n < Address.cache_capacity)%nat ->
  sole_within n r a (Address._cache s) ->
  sole_within (S n) r a (Address._cache (Address.new_ i s).2).
Proof.
  intros Hn Hs.
  assert (forall m l, (m <= S n)%nat -> sole_within m r a l -> sole_within (S n) r a l)
    as Hweak.
  { intros m l Hm (l1 & l2 & ? & ? & ? & ?). exists l1, l2. repeat split; try done. lia. }
  destruct i as [k|b]; [|apply (Hweak n); [lia|done]].
  destruct (decide (k = r)) as [->|Hne].
  - destruct (Address.new_ (Address.OfRaw r) s) as [[a'|e] s'] eqn:Hnew.
    + pose proof (sole_lookup _ _ _ (sole_within_sole _ _ _ _ Hs)) as Hl.
      assert (a' = a) as ->.
      { revert Hnew. unfold Address.new_, Address.lru_getitem. rewrite Hl.
        by intros [= -> _]. }
      apply (Hweak 0%nat); [lia|]. by apply (new_caches_within r a s s').
    + revert Hnew. unfold Address.new_, Address.lru_getitem.
      rewrite (sole_lookup _ _ _ (sole_within_sole _ _ _ _ Hs)). done.
  - unfold Address.new_, Address.lru_getitem.
    destruct (Address.lru_lookup k (Address._cache s)) as [a0|] eqn:Hl; simpl.
    + apply sole_within_app; [done|]. by apply sole_within_remove.
    + destruct (Address.to_checksum_address k); [|by apply (Hweak n); [lia|]].
      destruct (Address.to_canonical_address k); [|by apply (Hweak n); [lia|]].
      simpl. unfold Address.lru_setitem. cbv zeta.
      pose proof (sole_within_app _ _ _ _ k
                    (Address.mk (Address.next_oid s) a0 a1 (Address.lower a0)) Hne
                    (sole_within_remove _ _ _ k _ Hne Hs)) as Hs'.
      case_match eqn:Hlt; [|done].
      apply Nat.ltb_lt in Hlt.
      by apply (sole_within_tail (S n) Address.cache_capacity).
Qed.

Lemma recent_stays n r a inputs s :
  (n + length inputs < Address.cache_capacity)%nat ->
  sole_within n r a (Address._cache s) ->
  Address.stays_cached r inputs s /\
  sole r a (Address._cache (Address.new_all inputs s)).
Proof.
  revert n s. induction inputs as [|i inputs IH]; intros n s Hlen Hs; simpl.
  - split; [|by eapply sole_within_sole].
    split; [|done]. rewrite (sole_lookup _ _ _ (sole_within_sole _ _ _ _ Hs)). by eexists.
  - simpl in Hlen.
    destruct (IH (S n) (Address.new_ i s).2) as [Hst Hso].
    + lia.
    + apply new_keeps_within; [lia | done].
    + split; [|done]. split; [|done].
      rewrite (sole_lookup _ _ _ (sole_within_sole _ _ _ _ Hs)). by eexists.
Qed.

End recency_facts.

(** X5.  A raw input stays cached while fewer than 1024 constructor calls
    follow its last use: after [Address(r)] returned [a], any run of fewer
    than 1024 constructor calls, on any inputs, leaves [r] in the cache, and
    [Address(r)] after the run returns the same object [a]. *)
Theorem address_recently_used `{Address.EthUtils}
  (r : Address.raw) (a : Address.t) (s s1 : Address.store)
  (inputs : list Address.input) :
  Address.new_ (Address.OfRaw r) s = (Ok a, s1) ->
  (length inputs < 1024)%nat ->
  Address.stays_cached r inputs s1 /\
  exists s2,
    Address.new_ (Address.OfRaw r) (Address.new_all inputs s1) = (Ok a, s2).
Proof.
  intros Hnew Hlen.
  destruct (recent_stays 0 r a inputs s1) as [Hst Hso].
  - exact Hlen.
  - by apply (new_caches_within r a s s1).
  - split; [done|]. destruct (new_hit _ _ _ Hso) as (s2 & Hhit & _). by exists s2.
Qed.

Lemma address_recently_used_witness :
  let r := Address.RBytes (Fixtures.addr Byte.x01) in
  let a := Address.mk 0 "0xAb01" (Fixtures.addr Byte.x01) "0xab01" in
  let s1 := Address.mkStore [(r, a)] 1 in
  Address.stays_cached r [Fixtures.bob; Fixtures.bob] s1 /\
  exists s2,
    Address.new_ (Address.OfRaw r) (Address.new_all [Fixtures.bob; Fixtures.bob] s1)
    = (Ok a, s2).
Proof.
  intros r a s1.
  refine (address_recently_used r a Fixtures.store0 s1 [Fixtures.bob; Fixtures.bob] eq_refl _).
  simpl. lia.
Defined.

(** ** The precompile registry: deregistration *)

(** The object built or found for a raw input is not the one just returned
    for another raw input. *)
Lemma fresh_input_fresh_object `{Address.EthUtils}
  (r1 r2 : Address.raw) (a1 a2 : Address.t) (s s1 s2 : Address.store) :
  store_wf s ->
  r1 <> r2 ->
  Address.new_ (Address.OfRaw r1) s = (Ok a1, s1) ->
  Address.new_ (Address.OfRaw r2) s1 = (Ok a2, s2) ->
  Address.oid a1 <> Address.oid a2.
Proof.
  intros Hwf Hne Hn1 Hn2.
  pose proof (new_preserves_wf (Address.OfRaw r1) s Hwf) as Hwf1.
  rewrite Hn1 in Hwf1. simpl in Hwf1.
  pose proof (sole_elem _ _ _ (new_caches _ _ _ _ Hn1)) as Hin1.
  revert Hn2. unfold Address.new_, Address.lru_getitem.
  destruct (Address.lru_lookup r2 (Address._cache s1)) as [a|] eqn:Hl.
  - intros [= <- <-]. apply lookup_elem in Hl.
    by apply (wf_distinct_objects s1 r1 r2 a1 a).
  - destruct (Address.to_checksum_address r2); [|done].
    destruct (Address.to_canonical_address r2); [|done].
    intros [= <- <-]. simpl.
    destruct Hwf1 as (_ & _ & _ & Hall). rewrite Forall_forall in Hall.
    destruct (Hall _ Hin1) as (_ & _ & _ & Hlt). simpl in Hlt. lia.
Qed.

(** C7.  A duplicate that the check misses.  Let an address be registered,
    without [force], from one raw input, and then again, without [force],
    from another raw input of the same address (its text instead of its
    bytes, say), neither object being a key before.  Both calls return
    normally: the second raises nothing although the address is bound, and
    the registry ends with two entries for the one address, under the two
    [Address] objects.  [address in _precompiles] compares the objects, of
    which [Address] keeps one per raw input, not the addresses. *)
Theorem register_duplicate_missed `{Address.EthUtils}
  (r1 r2 : Address.raw) (fn1 fn2 : handle) (a1 a2 : Address.t)
  (st1 st2 : Address.store) (s : Precompiles.state) :
  store_wf (Precompiles.addresses s) ->
  r1 <> r2 ->
  Address.new_ (Address.OfRaw r1) (Precompiles.addresses s) = (Ok a1, st1) ->
  Address.new_ (Address.OfRaw r2) st1 = (Ok a2, st2) ->
  Address.canonical_address a1 = Address.canonical_address a2 ->
  Address.oid a1 ∉ dom (Precompiles._precompiles s) ->
  Address.oid a2 ∉ dom (Precompiles._precompiles s) ->
  exists s1 s2,
    Precompiles.register_raw_precompile (Address.OfRaw r1) fn1 false s = (Ok tt, s1) /\
    bound (Address.canonical_address a2) (Precompiles._precompiles s1) /\
    Precompiles.register_raw_precompile (Address.OfRaw r2) fn2 false s1 = (Ok tt, s2) /\
    Address.oid a1 <> Address.oid a2 /\
    Precompiles._precompiles s2 !! Address.oid a1 = Some (a1, fn1) /\
    Precompiles._precompiles s2 !! Address.oid a2 = Some (a2, fn2).
Proof.
  intros Hwf Hne Hn1 Hn2 Hcan Hd1 Hd2.
  pose proof (fresh_input_fresh_object _ _ _ _ _ _ _ Hwf Hne Hn1 Hn2) as Hoid.
  do 2 eexists. split; [by apply register_fresh|]. split.
  { exists (Address.oid a1), a1, fn1. cbn. by rewrite lookup_insert_eq. }
  split.
  { apply register_fresh; [exact Hn2|]. cbn.
    rewrite dom_insert_L. set_solver. }
  split; [done|]. cbn. split.
  - rewrite lookup_insert_ne by done. by rewrite lookup_insert_eq.
  - by rewrite lookup_insert_eq.
Qed.

Lemma register_duplicate_missed_witness :
  let a1 := Address.mk 0 "0xAb01" (Fixtures.addr Byte.x01) "0xab01" in
  let a2 := Address.mk 1 "0xAb01" (Fixtures.addr Byte.x01) "0xab01" in
  let s := Precompiles.mkState Fixtures.store0 ∅ in
  exists s1 s2,
    Precompiles.register_raw_precompile Fixtures.alice 5%nat false s = (Ok tt, s1) /\
    bound (Address.canonical_address a2) (Precompiles._precompiles s1) /\
    Precompiles.register_raw_precompile
      (Address.OfRaw (Address.RStr Fixtures.hex01)) 6%nat false s1 = (Ok tt, s2) /\
    Address.oid a1 <> Address.oid a2 /\
    Precompiles._precompiles s2 !! Address.oid a1 = Some (a1, 5%nat) /\
    Precompiles._precompiles s2 !! Address.oid a2 = Some (a2, 6%nat).
Proof.
  intros a1 a2 s.
  apply (register_duplicate_missed (Address.RBytes (Fixtures.addr Byte.x01))
           (Address.RStr Fixtures.hex01) 5%nat 6%nat a1 a2
           (Address.new_ Fixtures.alice Fixtures.store0).2
           (Address.new_ (Address.OfRaw (Address.RStr Fixtures.hex01))
              (Address.new_ Fixtures.alice Fixtures.store0).2).2 s).
  - apply store_wf_empty.
  - discriminate.
  - reflexivity.
  - reflexivity.
  - reflexivity.
  - cbn. rewrite dom_empty_L. apply not_elem_of_empty.
  - cbn. rewrite dom_empty_L. apply not_elem_of_empty.
Defined.

Lemma deregister_raw_precompile_eq `{Address.EthUtils}
  address force a s1 (s : Precompiles.state) :
  Address.new_ address (Precompiles.addresses s) = (Ok a, s1) ->
  Precompiles.deregister_raw_precompile address force s =
  if bool_decide (Address.oid a ∉ dom (Precompiles._precompiles s)) && negb force
  then (Raise (ValueError "Not registered: {address}"),
        Precompiles.mkState s1 (Precompiles._precompiles s))
  else (Ok tt, Precompiles.mkState s1
                 (delete (Address.oid a) (Precompiles._precompiles s))).
Proof.
  intros Hnew. unfold Precompiles.deregister_raw_precompile, Precompiles.Address_.
  unfold bind at 1. rewrite Hnew. unfold bind at 1. simpl.
  by destruct (_ && _).
Qed.

(** X6.  Registering a handler under a raw input whose object is not yet a
    key, and then deregistering the same raw input, leaves [_precompiles]
    exactly as it was before the two calls, whatever the two [force]
    flags. *)
Theorem register_then_deregister `{Address.EthUtils}
  (r : Address.raw) (fn : handle) (force force' : bool) (a : Address.t)
  (s1 : Address.store) (s : Precompiles.state) :
  Address.new_ (Address.OfRaw r) (Precompiles.addresses s) = (Ok a, s1) ->
  Address.oid a ∉ dom (Precompiles._precompiles s) ->
  exists s' s'',
    Precompiles.register_raw_precompile (Address.OfRaw r) fn force s = (Ok tt, s') /\
    Precompiles.deregister_raw_precompile (Address.OfRaw r) force' s' = (Ok tt, s'') /\
    Precompiles._precompiles s'' = Precompiles._precompiles s.
Proof.
  intros Hnew Hfresh.
  destruct (new_hit r a s1 (new_caches _ _ _ _ Hnew)) as (s2 & Hhit & _).
  do 2 eexists. split; [by apply register_fresh|]. split.
  - rewrite (deregister_raw_precompile_eq _ _ a s2) by done. simpl.
    rewrite bool_decide_eq_false_2; [done|].
    intros Hn. apply Hn. rewrite dom_insert_L. set_solver.
  - simpl. apply delete_insert_id. by apply not_elem_of_dom.
Qed.

Lemma register_then_deregister_witness :
  let s := Precompiles.mkState Fixtures.store0 ∅ in
  exists s' s'',
    Precompiles.register_raw_precompile Fixtures.alice 5%nat false s = (Ok tt, s') /\
    Precompiles.deregister_raw_precompile Fixtures.alice false s' = (Ok tt, s'') /\
    Precompiles._precompiles s'' = Precompiles._precompiles s.
Proof.
  intros s.
  refine (register_then_deregister (Address.RBytes (Fixtures.addr Byte.x01)) 5%nat
            false false _ _ s eq_refl _).
  simpl. rewrite dom_empty_L. apply not_elem_of_empty.
Defined.

(** X7.  Deregistering an address whose object is not a key: with [force]
    (the default) the call returns and [_precompiles] is unchanged; without
    [force] it raises [ValueError] whose message is the literal text
    "Not registered: {address}" (the string is not an f-string), and
    [_precompiles] is unchanged. *)
Theorem deregister_absent `{Address.EthUtils}
  (address : Address.input) (a : Address.t) (s1 : Address.store)
  (s : Precompiles.state) :
  Address.new_ address (Precompiles.addresses s) = (Ok a, s1) ->
  Address.oid a ∉ dom (Precompiles._precompiles s) ->
  Precompiles.deregister_raw_precompile address true s
  = (Ok tt, Precompiles.mkState s1 (Precompiles._precompiles s)) /\
  Precompiles.deregister_raw_precompile address false s
  = (Raise (ValueError "Not registered: {address}"),
     Precompiles.mkState s1 (Precompiles._precompiles s)).
Proof.
  intros Hnew Hfresh. rewrite !(deregister_raw_precompile_eq _ _ a s1) by done.
  rewrite bool_decide_eq_true_2 by done. simpl. split; [|done].
  rewrite delete_id; [done|]. by apply not_elem_of_dom.
Qed.

Lemma deregister_absent_witness :
  let s := Precompiles.mkState Fixtures.store0 ∅ in
  let s1 := (Address.new_ Fixtures.alice Fixtures.store0).2 in
  Precompiles.deregister_raw_precompile Fixtures.alice true s
  = (Ok tt, Precompiles.mkState s1 ∅) /\
  Precompiles.deregister_raw_precompile Fixtures.alice false s
  = (Raise (ValueError "Not registered: {address}"), Precompiles.mkState s1 ∅).
Proof.
  intros s s1.
  refine (deregister_absent Fixtures.alice _ s1 s eq_refl _).
  simpl. rewrite dom_empty_L. apply not_elem_of_empty.
Defined.

(** ** VMPatcher: reading back, and the anchor on its own *)

Lemma getattr_slot attr w :
  VMPatcher.__getattr__ attr w =
  match slot_of attr with
  | Some (p, field) => py_getattr p field w
  | None => (Raise (AttributeError attr), w)
  end.
Proof.
  unfold VMPatcher.__getattr__, VMPatcher._patchables, slot_of.
  cbn [VMPatcher.getattr_in].
  destruct (dict_get VMPatcher._exc_patchables attr); [done|].
  by destruct (dict_get VMPatcher._cmp_patchables attr).
Qed.

Lemma setattr_slot attr v w :
  VMPatcher.__setattr__ attr v w =
  match slot_of attr with
  | Some (p, field) => (Ok tt, write_attr p field v w)
  | None => (Ok tt, w)
  end.
Proof.
  unfold VMPatcher.__setattr__, VMPatcher._patchables, slot_of.
  cbn [VMPatcher.setattr_in].
  destruct (dict_get VMPatcher._exc_patchables attr); [done|].
  by destruct (dict_get VMPatcher._cmp_patchables attr).
Qed.

Lemma dict_get_Some_key {V} (d : list (string * V)) k v :
  dict_get d k = Some v -> k ∈ dict_keys d.
Proof.
  induction d as [|[k' v'] d IH]; simpl; [done|].
  case_decide; [intros _; subst; left | intros Hd; right; auto].
Qed.

Lemma dict_get_is_Some {V} (d : list (string * V)) k :
  k ∈ dict_keys d -> is_Some (dict_get d k).
Proof.
  induction d as [|[k' v'] d IH]; simpl.
  - intros Hk. by apply elem_of_nil in Hk.
  - intros Hk. case_decide; [by eexists|].
    apply elem_of_cons in Hk as [?|Hk]; [congruence | auto].
Qed.

(** Two names of one table with one attribute are one name. *)
Lemma dict_get_inj {V} (d : list (string * V)) k1 k2 v :
  NoDup d.*2 -> dict_get d k1 = Some v -> dict_get d k2 = Some v -> k1 = k2.
Proof.
  induction d as [|[k' v'] d IH]; simpl; [done|].
  intros Hnd. apply NoDup_cons in Hnd as [Hv Hnd].
  case_decide as H1; case_decide as H2.
  - congruence.
  - intros [= ->] Hd. apply dict_get_Some_in in Hd. done.
  - intros Hd [= ->]. apply dict_get_Some_in in Hd. done.
  - by apply IH.
Qed.

Lemma exc_fields_NoDup : NoDup VMPatcher._exc_patchables.*2.
Proof. apply (bool_decide_unpack _). vm_compute. exact I. Qed.

Lemma cmp_fields_NoDup : NoDup VMPatcher._cmp_patchables.*2.
Proof. apply (bool_decide_unpack _). vm_compute. exact I. Qed.

Lemma slot_of_inj a1 a2 slot :
  slot_of a1 = Some slot -> slot_of a2 = Some slot -> a1 = a2.
Proof.
  unfold slot_of.
  destruct (dict_get VMPatcher._exc_patchables a1) as [f1|] eqn:E1;
    destruct (dict_get VMPatcher._exc_patchables a2) as [f2|] eqn:E2.
  - intros [= <-] [= ->]. by apply (dict_get_inj _ _ _ _ exc_fields_NoDup E1 E2).
  - intros [= <-]. destruct (dict_get VMPatcher._cmp_patchables a2); congruence.
  - destruct (dict_get VMPatcher._cmp_patchables a1); congruence.
  - destruct (dict_get VMPatcher._cmp_patchables a1) as [g1|] eqn:C1; [|done].
    destruct (dict_get VMPatcher._cmp_patchables a2) as [g2|] eqn:C2; [|done].
    intros [= <-] [= ->]. by apply (dict_get_inj _ _ _ _ cmp_fields_NoDup C1 C2).
Qed.

Lemma slot_of_recognized attr :
  attr ∈ VMPatcher.patchable_names -> is_Some (slot_of attr).
Proof.
  change (attr ∈ dict_keys VMPatcher._exc_patchables
                 ++ dict_keys VMPatcher._cmp_patchables -> is_Some (slot_of attr)).
  rewrite elem_of_app. unfold slot_of. intros [Hin|Hin].
  - destruct (dict_get_is_Some _ _ Hin) as [f ->]. by eexists.
  - destruct (dict_get VMPatcher._exc_patchables attr); [by eexists|].
    destruct (dict_get_is_Some _ _ Hin) as [f ->]. by eexists.
Qed.

(** X8.  A recognized parameter reads back what was written to it, and
    writing it leaves what every other recognized parameter reads as it
    was: no two of the eight names share an attribute. *)
Theorem patch_set_get (attr : string) (value : pyval) (w : World) :
  attr ∈ VMPatcher.patchable_names ->
  let w' := (VMPatcher.__setattr__ attr value w).2 in
  (VMPatcher.__getattr__ attr w').1 = Ok value /\
  forall other, other <> attr ->
    (VMPatcher.__getattr__ other w').1 = (VMPatcher.__getattr__ other w).1.
Proof.
  intros Hin w'. subst w'. rewrite setattr_slot.
  destruct (slot_of_recognized _ Hin) as [[p f] Hs]. rewrite Hs. cbn [snd].
  split.
  - rewrite getattr_slot, Hs. unfold py_getattr.
    by rewrite write_attr_same, lookup_insert_eq.
  - intros other Hne. rewrite !getattr_slot.
    destruct (slot_of other) as [[q g]|] eqn:Ho; [|done].
    unfold py_getattr.
    assert (p = q \/ p <> q) as [<-|Hpq] by (destruct p, q; auto).
    + rewrite write_attr_same, lookup_insert_ne.
      * by destruct (attrs p w !! g).
      * intros <-. apply Hne. by apply (slot_of_inj _ _ _ Ho Hs).
    + rewrite write_attr_other by done. by destruct (attrs q w !! g).
Qed.

Lemma patch_set_get_witness :
  let w' := (VMPatcher.__setattr__ "chain_id" (VInt 5) Fixtures.world0).2 in
  (VMPatcher.__getattr__ "chain_id" w').1 = Ok (VInt 5) /\
  forall other, other <> "chain_id"%string ->
    (VMPatcher.__getattr__ other w').1
    = (VMPatcher.__getattr__ other Fixtures.world0).1.
Proof.
  refine (patch_set_get "chain_id" (VInt 5) Fixtures.world0 _).
  rewrite patchable_names_eq. do 5 right. left.
Defined.

Lemma restore_holds v1 v2 v3 v4 v5 v6 v7 v8 w :
  holds v1 v2 v3 v4 v5 v6 v7 v8 (restore v1 v2 v3 v4 v5 v6 v7 v8 w).
Proof.
  unfold holds, restore.
  change execution_context with (attrs ExecutionContext).
  change spurious_dragon with (attrs SpuriousDragon).
  repeat split;
    repeat first
      [ rewrite write_attr_other by done
      | rewrite write_attr_same
      | rewrite lookup_insert_ne by done ];
    by rewrite lookup_insert_eq.
Qed.

Lemma slot_of_in_slots attr slot : slot_of attr = Some slot -> slot ∈ VMPatcher.slots.
Proof.
  unfold slot_of.
  change VMPatcher.slots with
    (((fun af : string * string => (ExecutionContext, af.2)) <$> VMPatcher._exc_patchables)
     ++ ((fun af : string * string => (SpuriousDragon, af.2)) <$> VMPatcher._cmp_patchables)).
  rewrite elem_of_app, !list_elem_of_fmap.
  destruct (dict_get VMPatcher._exc_patchables attr) as [f|] eqn:He.
  { intros [= <-]. left.
    apply dict_get_Some_in, list_elem_of_fmap in He as (af & -> & Hin). by exists af. }
  destruct (dict_get VMPatcher._cmp_patchables attr) as [f|] eqn:Hc; [|done].
  intros [= <-]. right.
  apply dict_get_Some_in, list_elem_of_fmap in Hc as (af & -> & Hin). by exists af.
Qed.

Lemma holds_slots v1 v2 v3 v4 v5 v6 v7 v8 w w' slot :
  holds v1 v2 v3 v4 v5 v6 v7 v8 w -> holds v1 v2 v3 v4 v5 v6 v7 v8 w' ->
  slot ∈ VMPatcher.slots ->
  attrs slot.1 w' !! slot.2 = attrs slot.1 w !! slot.2.
Proof.
  intros (H1 & H2 & H3 & H4 & H5 & H6 & H7 & H8)
         (G1 & G2 & G3 & G4 & G5 & G6 & G7 & G8).
  change VMPatcher.slots with
    [ (ExecutionContext, "_block_number"); (ExecutionContext, "_timestamp");
      (ExecutionContext, "_coinbase"); (ExecutionContext, "_difficulty");
      (ExecutionContext, "_prev_hashes"); (ExecutionContext, "_chain_id");
      (ExecutionContext, "_gas_limit");
      (SpuriousDragon, "EIP170_CODE_SIZE_LIMIT") ]%string.
  intros Hin.
  repeat (apply elem_of_cons in Hin as [->|Hin]; [cbn [fst snd attrs]; congruence|]).
  by apply elem_of_nil in Hin.
Qed.

(** X9.  [VMPatcher.anchor] around any block at all: the block's outcome,
    a result or an exception, is the outcome of the whole, and afterwards
    every patchable name reads what it read before, whatever the block did
    to the two patched objects. *)
Theorem patch_anchor_any_block {A} (body : M World A) (w : World) :
  VMPatcher.patched w ->
  let res := VMPatcher.anchor body w in
  res.1 = (body w).1 /\
  (forall attr, (VMPatcher.__getattr__ attr res.2).1 = (VMPatcher.__getattr__ attr w).1) /\
  accounts res.2 = accounts (body w).2 /\
  checkpoints res.2 = checkpoints (body w).2.
Proof.
  intros Hp res.
  destruct (patched_holds _ Hp) as (v1 & v2 & v3 & v4 & v5 & v6 & v7 & v8 & Hh).
  assert (res = ((body w).1, restore v1 v2 v3 v4 v5 v6 v7 v8 (body w).2)) as ->.
  { subst res. unfold VMPatcher.anchor, bind.
    rewrite (anchor_enter_ok _ _ _ _ _ _ _ _ _ Hh).
    unfold try_finally. destruct (body w) as [r w2].
    by rewrite anchor_exit_snap. }
  cbn [fst snd]. split; [done|]. split.
  - intros attr. rewrite !getattr_slot.
    destruct (slot_of attr) as [[p f]|] eqn:Hs; [|done].
    unfold py_getattr.
    pose proof (holds_slots _ _ _ _ _ _ _ _ _ _ _ Hh
                  (restore_holds v1 v2 v3 v4 v5 v6 v7 v8 (body w).2)
                  (slot_of_in_slots _ _ Hs)) as Heq.
    cbn [fst snd] in Heq. rewrite Heq. by destruct (attrs p w !! f).
  - by rewrite restore_accounts, restore_checkpoints.
Qed.

Lemma patch_anchor_any_block_witness :
  let body : M World unit :=
    bind (VMPatcher.__setattr__ "chain_id" (VInt 5)) (fun _ => raise KeyError) in
  let res := VMPatcher.anchor body Fixtures.world0 in
  res.1 = (body Fixtures.world0).1 /\
  (forall attr, (VMPatcher.__getattr__ attr res.2).1
                = (VMPatcher.__getattr__ attr Fixtures.world0).1) /\
  accounts res.2 = accounts (body Fixtures.world0).2 /\
  checkpoints res.2 = checkpoints (body Fixtures.world0).2.
Proof.
  intros body.
  exact (patch_anchor_any_block (A := unit) body Fixtures.world0 patched_world0).
Defined.




(** ** Env.time_travel beyond the documented example *)

Lemma time_travel_seconds_eq (w : World) (t b seconds block_delta : Z) :
  execution_context w !! "_timestamp" = Some (VInt t) ->
  execution_context w !! "_block_number" = Some (VInt b) ->
  block_delta <> 0 ->
  Env.time_travel (Some seconds) None block_delta w
  = (Ok tt,
     write_attr ExecutionContext "_block_number" (VInt (b + seconds `div` block_delta))
       (write_attr ExecutionContext "_timestamp" (VInt (t + seconds)) w)).
Proof.
  intros Ht Hb Hd. unfold Env.time_travel.
  change (bool_decide (bool_decide (Some seconds = None) = bool_decide (None = @None Z)))
    with false. cbv iota.
  unfold bind at 1. unfold bind at 1. unfold Env.of_result, Env.py_floordiv.
  rewrite bool_decide_eq_false_2 by done. unfold ret at 1.
  apply (time_travel_run seconds (seconds `div` block_delta) t b w Ht Hb).
Qed.

Lemma time_travel_blocks_eq (w : World) (t b blocks block_delta : Z) :
  execution_context w !! "_timestamp" = Some (VInt t) ->
  execution_context w !! "_block_number" = Some (VInt b) ->
  Env.time_travel None (Some blocks) block_delta w
  = (Ok tt,
     write_attr ExecutionContext "_block_number" (VInt (b + blocks))
       (write_attr ExecutionContext "_timestamp" (VInt (t + blocks * block_delta)) w)).
Proof.
  intros Ht Hb. unfold Env.time_travel.
  change (bool_decide (bool_decide (None = None) = bool_decide (Some blocks = @None Z)))
    with false. cbv iota.
  unfold bind at 1. unfold ret at 1.
  apply (time_travel_run (blocks * block_delta) blocks t b w Ht Hb).
Qed.

Lemma travelled_context (w : World) (vt vb : pyval) :
  execution_context
    (write_attr ExecutionContext "_block_number" vb
       (write_attr ExecutionContext "_timestamp" vt w))
  = <["_block_number" := vb]> (<["_timestamp" := vt]> (execution_context w)).
Proof.
  change execution_context with (attrs ExecutionContext).
  by rewrite !write_attr_same.
Qed.

Lemma travelled_rest (w : World) (vt vb : pyval) :
  let w' := write_attr ExecutionContext "_block_number" vb
              (write_attr ExecutionContext "_timestamp" vt w) in
  spurious_dragon w' = spurious_dragon w /\ accounts w' = accounts w /\
  checkpoints w' = checkpoints w.
Proof.
  intros w'. subst w'. split; [|split].
  - change spurious_dragon with (attrs SpuriousDragon).
    by rewrite !write_attr_other.
  - by rewrite !write_attr_accounts.
  - by rewrite !write_attr_checkpoints.
Qed.

(** X11.  [time_travel(seconds=s, block_delta=d)] with [d] not zero: the
    timestamp advances by [s] and the block number by [k], the floor of
    [s / d]: the one integer with [d * k <= s < d * (k + 1)] for a positive
    [d] and with [d * (k + 1) < s <= d * k] for a negative [d].  Nothing
    else of the execution context, the size limit or the accounts
    changes. *)
Theorem time_travel_by_seconds (w : World) (t b seconds block_delta : Z) :
  execution_context w !! "_timestamp" = Some (VInt t) ->
  execution_context w !! "_block_number" = Some (VInt b) ->
  block_delta <> 0 ->
  exists w' k,
    Env.time_travel (Some seconds) None block_delta w = (Ok tt, w') /\
    execution_context w' !! "_timestamp" = Some (VInt (t + seconds)) /\
    execution_context w' !! "_block_number" = Some (VInt (b + k)) /\
    k = seconds `div` block_delta /\
    (0 < block_delta -> block_delta * k <= seconds < block_delta * (k + 1)) /\
    (block_delta < 0 -> block_delta * (k + 1) < seconds <= block_delta * k) /\
    (forall f, f <> "_timestamp"%string -> f <> "_block_number"%string ->
               execution_context w' !! f = execution_context w !! f) /\
    spurious_dragon w' = spurious_dragon w /\
    accounts w' = accounts w.
Proof.
  intros Ht Hb Hd. eexists. exists (seconds `div` block_delta).
  split; [by apply time_travel_seconds_eq|].
  rewrite travelled_context.
  destruct (travelled_rest w (VInt (t + seconds)) (VInt (b + seconds `div` block_delta)))
    as (Hsd & Hacc & _).
  split; [by rewrite lookup_insert_ne, lookup_insert_eq|].
  split; [by rewrite lookup_insert_eq|].
  split; [done|].
  pose proof (Z.div_mod seconds block_delta Hd) as Hdm.
  split; [|split; [|split; [|done]]].
  - intros Hpos. pose proof (Z.mod_pos_bound seconds block_delta Hpos). lia.
  - intros Hneg. pose proof (Z.mod_neg_bound seconds block_delta Hneg). lia.
  - intros f Hf1 Hf2. by rewrite !lookup_insert_ne.
Qed.

Lemma time_travel_by_seconds_witness :
  exists w' k,
    Env.time_travel (Some (-30)) None 12 Fixtures.world0 = (Ok tt, w') /\
    execution_context w' !! "_timestamp" = Some (VInt (1000 + -30)) /\
    execution_context w' !! "_block_number" = Some (VInt (1 + k)) /\
    k = (-30) `div` 12 /\
    (0 < 12 -> 12 * k <= -30 < 12 * (k + 1)) /\
    (12 < 0 -> 12 * (k + 1) < -30 <= 12 * k) /\
    (forall f, f <> "_timestamp"%string -> f <> "_block_number"%string ->
               execution_context w' !! f = execution_context Fixtures.world0 !! f) /\
    spurious_dragon w' = spurious_dragon Fixtures.world0 /\
    accounts w' = accounts Fixtures.world0.
Proof.
  apply (time_travel_by_seconds Fixtures.world0 1000 1 (-30) 12);
    [reflexivity | reflexivity | lia].
Defined.

(** X12.  A block time of zero: travelling by seconds raises
    [ZeroDivisionError] before anything is written, while travelling by
    blocks goes through, moving the block number and leaving the timestamp
    where it was. *)
Theorem time_travel_zero_delta (w : World) (t b : Z) :
  execution_context w !! "_timestamp" = Some (VInt t) ->
  execution_context w !! "_block_number" = Some (VInt b) ->
  (forall seconds,
      Env.time_travel (Some seconds) None 0 w = (Raise ZeroDivisionError, w)) /\
  (forall blocks, exists w',
      Env.time_travel None (Some blocks) 0 w = (Ok tt, w') /\
      execution_context w' !! "_timestamp" = Some (VInt t) /\
      execution_context w' !! "_block_number" = Some (VInt (b + blocks))).
Proof.
  intros Ht Hb. split.
  - intros seconds. reflexivity.
  - intros blocks. eexists. split; [by apply time_travel_blocks_eq|].
    rewrite travelled_context. split.
    + rewrite lookup_insert_ne, lookup_insert_eq by done. do 2 f_equal. lia.
    + by rewrite lookup_insert_eq.
Qed.

Lemma time_travel_zero_delta_witness :
  (forall seconds,
      Env.time_travel (Some seconds) None 0 Fixtures.world0
      = (Raise ZeroDivisionError, Fixtures.world0)) /\
  (forall blocks, exists w',
      Env.time_travel None (Some blocks) 0 Fixtures.world0 = (Ok tt, w') /\
      execution_context w' !! "_timestamp" = Some (VInt 1000) /\
      execution_context w' !! "_block_number" = Some (VInt (1 + blocks))).
Proof.
  exact (time_travel_zero_delta Fixtures.world0 1000 1 eq_refl eq_refl).
Defined.

(** X13.  The two parameters are written one after the other: when the
    block number is not an integer the call raises [TypeError] with the
    timestamp already advanced. *)
Theorem time_travel_not_atomic (w : World) (t blocks block_delta : Z) (v : pyval) :
  execution_context w !! "_timestamp" = Some (VInt t) ->
  execution_context w !! "_block_number" = Some v ->
  (forall z, v <> VInt z) ->
  exists w',
    Env.time_travel None (Some blocks) block_delta w = (Raise TypeError, w') /\
    execution_context w' !! "_timestamp" = Some (VInt (t + blocks * block_delta)) /\
    execution_context w' !! "_block_number" = Some v.
Proof.
  intros Ht Hb Hv. eexists. split.
  - unfold Env.time_travel.
    change (bool_decide (bool_decide (None = None) = bool_decide (Some blocks = @None Z)))
      with false. cbv iota.
    unfold bind at 1. unfold ret at 1.
    rewrite getattr_timestamp, getattr_block_number.
    unfold bind at 1. unfold py_getattr at 1. simpl attrs. rewrite Ht.
    unfold bind at 1. simpl.
    unfold bind at 1. rewrite setattr_timestamp.
    unfold bind at 1. unfold py_getattr. simpl.
    rewrite lookup_insert_ne by done. rewrite Hb.
    unfold bind at 1. unfold Env.of_result, Env.py_iadd.
    destruct v as [|z| |]; [|by destruct (Hv z)| |]; reflexivity.
  - change execution_context with (attrs ExecutionContext).
    rewrite write_attr_same. split.
    + by rewrite lookup_insert_eq.
    + by rewrite lookup_insert_ne.
Qed.

Lemma time_travel_not_atomic_witness :
  exists w',
    Env.time_travel None (Some 2) 12
      (write_attr ExecutionContext "_block_number" VNone Fixtures.world0)
    = (Raise TypeError, w') /\
    execution_context w' !! "_timestamp" = Some (VInt (1000 + 2 * 12)) /\
    execution_context w' !! "_block_number" = Some VNone.
Proof.
  apply (time_travel_not_atomic
           (write_attr ExecutionContext "_block_number" VNone Fixtures.world0)
           1000 2 12 VNone); [reflexivity | reflexivity | discriminate].
Defined.

(** X14.  Travelling by blocks adds up: two calls with the same block time
    leave the parameters where one call for the sum of the blocks leaves
    them. *)
Theorem time_travel_blocks_add (w : World) (t b m n block_delta : Z) :
  execution_context w !! "_timestamp" = Some (VInt t) ->
  execution_context w !! "_block_number" = Some (VInt b) ->
  let w1 := (Env.time_travel None (Some m) block_delta w).2 in
  let w2 := (Env.time_travel None (Some n) block_delta w1).2 in
  let w' := (Env.time_travel None (Some (m + n)) block_delta w).2 in
  (Env.time_travel None (Some n) block_delta w1).1 = Ok tt /\
  execution_context w2 = execution_context w' /\
  spurious_dragon w2 = spurious_dragon w' /\
  accounts w2 = accounts w'.
Proof.
  intros Ht Hb w1 w2 w'.
  assert (w1 = write_attr ExecutionContext "_block_number" (VInt (b + m))
                 (write_attr ExecutionContext "_timestamp"
                    (VInt (t + m * block_delta)) w)) as Hw1.
  { subst w1. by rewrite (time_travel_blocks_eq w t b m block_delta Ht Hb). }
  assert (execution_context w1 !! "_timestamp" = Some (VInt (t + m * block_delta))) as Ht1.
  { rewrite Hw1, travelled_context. by rewrite lookup_insert_ne, lookup_insert_eq. }
  assert (execution_context w1 !! "_block_number" = Some (VInt (b + m))) as Hb1.
  { rewrite Hw1, travelled_context. by rewrite lookup_insert_eq. }
  subst w2 w'.
  rewrite (time_travel_blocks_eq w1 _ _ n block_delta Ht1 Hb1).
  rewrite (time_travel_blocks_eq w t b (m + n) block_delta Ht Hb).
  cbn [fst snd]. split; [done|].
  destruct (travelled_rest w1 (VInt (t + m * block_delta + n * block_delta))
              (VInt (b + m + n))) as (Hsd2 & Hacc2 & _).
  destruct (travelled_rest w (VInt (t + (m + n) * block_delta))
              (VInt (b + (m + n)))) as (Hsd & Hacc & _).
  destruct (travelled_rest w (VInt (t + m * block_delta)) (VInt (b + m)))
    as (Hsd1 & Hacc1 & _).
  rewrite <- Hw1 in Hsd1, Hacc1.
  split; [|split; congruence].
  rewrite !travelled_context. rewrite Hw1, travelled_context.
  replace (t + m * block_delta + n * block_delta) with (t + (m + n) * block_delta) by lia.
  replace (b + m + n) with (b + (m + n)) by lia.
  apply map_eq. intros f.
  destruct (decide (f = "_block_number"%string)) as [->|Hf1].
  { by rewrite !lookup_insert_eq. }
  rewrite !(lookup_insert_ne _ "_block_number") by done.
  destruct (decide (f = "_timestamp"%string)) as [->|Hf2].
  { by rewrite !lookup_insert_eq. }
  by rewrite !lookup_insert_ne.
Qed.

Lemma time_travel_blocks_add_witness :
  let w1 := (Env.time_travel None (Some 3) 12 Fixtures.world0).2 in
  let w2 := (Env.time_travel None (Some 4) 12 w1).2 in
  let w' := (Env.time_travel None (Some (3 + 4)) 12 Fixtures.world0).2 in
  (Env.time_travel None (Some 4) 12 w1).1 = Ok tt /\
  execution_context w2 = execution_context w' /\
  spurious_dragon w2 = spurious_dragon w' /\
  accounts w2 = accounts w'.
Proof.
  exact (time_travel_blocks_add Fixtures.world0 1000 1 3 4 12 eq_refl eq_refl).
Defined.

(** ** Env without an account *)

Section no_account.
Context `{Address.EthUtils}.
Variable generate_contract_address : bytes -> Z -> bytes.
Variable apply_create_message : Message -> TxCtx -> M World Computation.
Variable apply_message : Message -> TxCtx -> M World Computation.
Variable recursion_limit : nat.

Lemma _get_sender_no_eoa sender w :
  eoa w = None ->
  Env._get_sender sender w = (Raise (ValueError "eoa not defined!"), w).
Proof.
  intros He. unfold Env._get_sender, bind, gets. rewrite He.
  by destruct sender.
Qed.

Lemma gas_resolved (gas : option Z) w :
  is_Some gas \/ is_Some (execution_context w !! "_gas_limit") ->
  exists g, match gas with
            | None => state_gas_limit
            | Some g => ret (VInt g)
            end w = (Ok g, w).
Proof.
  intros Hgas. destruct gas as [g|]; [by eexists|].
  destruct Hgas as [[? [=]]|[v Hv]].
  unfold state_gas_limit, py_getattr. simpl. rewrite Hv. by eexists.
Qed.

End no_account.

(** X15.  While [eoa] is [None] no message can be sent, even with the
    sender given explicitly: [_get_sender], [deploy_code] and
    [execute_code] raise [ValueError], the engine is not entered and the
    environment stays as it was. *)
Theorem no_eoa_no_message `{Address.EthUtils}
  (generate_contract_address : bytes -> Z -> bytes)
  (apply_create_message apply_message : Message -> TxCtx -> M World Computation)
  (recursion_limit : nat)
  (sender : option Address.input) (gas : option Z) (value : Z)
  (bytecode data : bytes) (start_pc : Z) (override_address : option Address.input)
  (to_address : Address.input) (override_bytecode : option bytes)
  (is_modifying : bool) (fake_codesize : option Z) (contract : option handle)
  (w : World) :
  eoa w = None ->
  is_Some gas \/ is_Some (execution_context w !! "_gas_limit") ->
  exists msg,
    Env._get_sender sender w = (Raise (ValueError msg), w) /\
    Env.deploy_code generate_contract_address apply_create_message
      sender gas value bytecode start_pc override_address w
    = (Raise (ValueError msg), w) /\
    Env.execute_code apply_message recursion_limit to_address sender gas value
      data override_bytecode is_modifying start_pc fake_codesize contract w
    = (Raise (ValueError msg), w).
Proof.
  intros He Hgas. eexists. split; [by apply _get_sender_no_eoa|].
  destruct (gas_resolved gas w Hgas) as [g Hg].
  split.
  - unfold Env.deploy_code. unfold bind at 1. rewrite Hg.
    unfold bind at 1. by rewrite _get_sender_no_eoa.
  - unfold Env.execute_code. unfold bind at 1. rewrite Hg.
    unfold bind at 1. by rewrite _get_sender_no_eoa.
Qed.

Lemma no_eoa_no_message_witness :
  exists msg,
    Env._get_sender (Some Fixtures.alice) Examples.world_no_eoa
    = (Raise (ValueError msg), Examples.world_no_eoa) /\
    Env.deploy_code Fixtures.generate_contract_address Fixtures.apply_create_message
      (Some Fixtures.alice) (Some 100000) 0 [] 0 None Examples.world_no_eoa
    = (Raise (ValueError msg), Examples.world_no_eoa) /\
    Env.execute_code Fixtures.apply_message 1000 Fixtures.bob (Some Fixtures.alice)
      (Some 100000) 0 [] None true 0 None None Examples.world_no_eoa
    = (Raise (ValueError msg), Examples.world_no_eoa).
Proof.
  apply (no_eoa_no_message Fixtures.generate_contract_address
           Fixtures.apply_create_message Fixtures.apply_message 1000
           (Some Fixtures.alice) (Some 100000) 0 [] [] 0 None Fixtures.bob None true
           None None Examples.world_no_eoa); [reflexivity | left; by eexists].
Defined.

(** ** The registries of Env and its context managers *)

Section registry_facts.
Context `{Address.EthUtils}.

Lemma Env_Address_rest i w :
  let w' := (Env.Address_ i w).2 in
  _contracts w' = _contracts w /\ accounts w' = accounts w /\ eoa w' = eoa w.
Proof.
  unfold Env.Address_. by destruct (Address.new_ i (addresses w)).
Qed.

Lemma Registry_Address_eq i s :
  Registry.Address_ i s
  = ((Env.Address_ i (Registry.world s)).1,
     Registry.mkState (Env.Address_ i (Registry.world s)).2 (Registry._aliases s)
       (Registry._code_registry s) (Registry._address_counter s)
       (Registry._gas_meter_class s)).
Proof.
  unfold Registry.Address_, Registry.lift.
  by destruct (Env.Address_ i (Registry.world s)).
Qed.

Lemma Registry_Address_rest i s r s' :
  Registry.Address_ i s = (r, s') ->
  _contracts (Registry.world s') = _contracts (Registry.world s) /\
  accounts (Registry.world s') = accounts (Registry.world s) /\
  eoa (Registry.world s') = eoa (Registry.world s) /\
  Registry._aliases s' = Registry._aliases s /\
  Registry._code_registry s' = Registry._code_registry s /\
  Registry._address_counter s' = Registry._address_counter s /\
  Registry._gas_meter_class s' = Registry._gas_meter_class s.
Proof.
  rewrite Registry_Address_eq. intros [= _ <-]. cbn.
  destruct (Env_Address_rest i (Registry.world s)) as (? & ? & ?). done.
Qed.

Lemma register_contract_eq address obj s a s0 :
  Registry.Address_ address s = (Ok a, s0) ->
  Registry.register_contract address obj s
  = (Ok tt,
     Registry.set_code_registry
       (<[default [] (codes (accounts (Registry.world s)) !! Address.canonical_address a)
          := obj]>)
       (Registry.mkState
          (Registry.set_contracts (<[Address.canonical_address a := obj]>)
                                  (Registry.world s0))
          (Registry._aliases s0) (Registry._code_registry s0)
          (Registry._address_counter s0) (Registry._gas_meter_class s0))).
Proof.
  intros Ha. destruct (Registry_Address_rest _ _ _ _ Ha) as (_ & Hacc & _).
  unfold Registry.register_contract. unfold bind at 1. rewrite Ha.
  unfold bind, Registry.lift, modify, state_get_code, gets. cbn.
  by rewrite Hacc.
Qed.

Lemma lookup_contract_eq address s a s0 :
  Registry.Address_ address s = (Ok a, s0) ->
  Registry.lookup_contract address s
  = (Ok (_contracts (Registry.world s) !! Address.canonical_address a), s0).
Proof.
  intros Ha. destruct (Registry_Address_rest _ _ _ _ Ha) as (Hc & _).
  unfold Registry.lookup_contract. unfold bind. rewrite Ha.
  unfold Registry.lift, _lookup_contract_fast, gets. rewrite Hc. by destruct s0.
Qed.

Lemma alias_eq address name s a s0 :
  Registry.Address_ address s = (Ok a, s0) ->
  Registry.alias address name s
  = (Ok tt, Registry.set_aliases (<[Address.canonical_address a := name]>) s0).
Proof. intros Ha. unfold Registry.alias, bind. by rewrite Ha. Qed.

Lemma lookup_alias_eq address s a s0 :
  Registry.Address_ address s = (Ok a, s0) ->
  Registry.lookup_alias address s
  = (match Registry._aliases s !! Address.canonical_address a with
     | Some name => Ok name
     | None => Raise KeyError
     end, s0).
Proof.
  intros Ha. destruct (Registry_Address_rest _ _ _ _ Ha) as (_ & _ & _ & Hal & _).
  unfold Registry.lookup_alias. unfold bind. rewrite Ha. unfold gets.
  rewrite Hal. by destruct (Registry._aliases s !! Address.canonical_address a).
Qed.

End registry_facts.

(** X16.  After [register_contract(address, obj)], [lookup_contract] finds
    [obj] under every input that denotes the same canonical address,
    whatever its form, and finds under any other address what it found
    before.  The object is also entered in the code registry under the code
    that the engine holds at the address, which is the empty byte string for
    an account without code. *)
Theorem register_then_lookup `{Address.EthUtils}
  (address : Address.input) (obj : handle) (s s0 : Registry.State) (a : Address.t) :
  Registry.Address_ address s = (Ok a, s0) ->
  let s1 := (Registry.register_contract address obj s).2 in
  (Registry.register_contract address obj s).1 = Ok tt /\
  (forall address' a' s2,
      Registry.Address_ address' s1 = (Ok a', s2) ->
      (Registry.lookup_contract address' s1).1
      = Ok (if decide (Address.canonical_address a' = Address.canonical_address a)
            then Some obj
            else _contracts (Registry.world s) !! Address.canonical_address a')) /\
  (forall code,
      Registry._code_registry s1 !! code
      = if decide (code = default [] (codes (accounts (Registry.world s))
                                        !! Address.canonical_address a))
        then Some obj
        else Registry._code_registry s !! code).
Proof.
  intros Ha s1. subst s1. rewrite (register_contract_eq _ _ _ _ _ Ha).
  destruct (Registry_Address_rest _ _ _ _ Ha) as (Hc & _ & _ & _ & Hcr & _).
  cbn [fst snd]. split; [done|]. split.
  - intros address' a' s2 Ha'. rewrite (lookup_contract_eq _ _ _ _ Ha').
    cbn. rewrite Hc. case_decide as Hd.
    + by rewrite Hd, lookup_insert_eq.
    + by rewrite lookup_insert_ne.
  - intros code. cbn. rewrite Hcr. case_decide as Hd.
    + by rewrite Hd, lookup_insert_eq.
    + by rewrite lookup_insert_ne.
Qed.

Lemma register_then_lookup_witness :
  let s1 := (Registry.register_contract Fixtures.alice 7%nat Examples.state0).2 in
  (Registry.register_contract Fixtures.alice 7%nat Examples.state0).1 = Ok tt /\
  (Registry.lookup_contract (Address.OfRaw (Address.RStr Fixtures.hex01)) s1).1
  = Ok (Some 7%nat) /\
  Registry._code_registry s1 !! [] = Some 7%nat.
Proof.
  intros s1.
  pose (a := Address.mk 1 "0xAb01" (Fixtures.addr Byte.x01) "0xab01").
  pose (a' := Address.mk 2 "0xAb01" (Fixtures.addr Byte.x01) "0xab01").
  assert (Registry.Address_ Fixtures.alice Examples.state0
          = (Ok a, (Registry.Address_ Fixtures.alice Examples.state0).2)) as Ha
    by (vm_compute; reflexivity).
  assert (Registry.Address_ (Address.OfRaw (Address.RStr Fixtures.hex01)) s1
          = (Ok a', (Registry.Address_ (Address.OfRaw (Address.RStr Fixtures.hex01)) s1).2))
    as Ha' by (vm_compute; reflexivity).
  destruct (register_then_lookup Fixtures.alice 7%nat Examples.state0 _ a Ha)
    as (H1 & H2 & H3).
  split; [exact H1|]. split; [exact (H2 _ _ _ Ha') | exact (H3 [])].
Defined.

(** X17.  After [alias(address, name)], [lookup_alias] returns [name] for
    every input that denotes the same canonical address and, for any other
    address, what it returned before: the earlier alias, or [KeyError] for an
    address that was never given one. *)
Theorem alias_then_lookup `{Address.EthUtils}
  (address : Address.input) (name : string) (s s0 : Registry.State) (a : Address.t) :
  Registry.Address_ address s = (Ok a, s0) ->
  let s1 := (Registry.alias address name s).2 in
  (Registry.alias address name s).1 = Ok tt /\
  forall address' a' s2,
    Registry.Address_ address' s1 = (Ok a', s2) ->
    (Registry.lookup_alias address' s1).1
    = if decide (Address.canonical_address a' = Address.canonical_address a)
      then Ok name
      else match Registry._aliases s !! Address.canonical_address a' with
           | Some old => Ok old
           | None => Raise KeyError
           end.
Proof.
  intros Ha s1. subst s1. rewrite (alias_eq _ _ _ _ _ Ha).
  destruct (Registry_Address_rest _ _ _ _ Ha) as (_ & _ & _ & Hal & _).
  cbn [fst snd]. split; [done|].
  intros address' a' s2 Ha'. rewrite (lookup_alias_eq _ _ _ _ Ha').
  cbn. rewrite Hal. case_decide as Hd.
  - by rewrite Hd, lookup_insert_eq.
  - by rewrite lookup_insert_ne.
Qed.

Lemma alias_then_lookup_witness :
  let s1 := (Registry.alias Fixtures.alice "alice" Examples.state0).2 in
  (Registry.alias Fixtures.alice "alice" Examples.state0).1 = Ok tt /\
  (Registry.lookup_alias (Address.OfRaw (Address.RStr Fixtures.hex01)) s1).1
  = Ok "alice"%string /\
  (Registry.lookup_alias Fixtures.bob s1).1 = Raise KeyError.
Proof.
  intros s1.
  pose (a := Address.mk 1 "0xAb01" (Fixtures.addr Byte.x01) "0xab01").
  pose (a' := Address.mk 2 "0xAb01" (Fixtures.addr Byte.x01) "0xab01").
  pose (b' := Address.mk 2 "0xCd02" (Fixtures.addr Byte.x02) "0xcd02").
  assert (Registry.Address_ Fixtures.alice Examples.state0
          = (Ok a, (Registry.Address_ Fixtures.alice Examples.state0).2)) as Ha
    by (vm_compute; reflexivity).
  assert (Registry.Address_ (Address.OfRaw (Address.RStr Fixtures.hex01)) s1
          = (Ok a', (Registry.Address_ (Address.OfRaw (Address.RStr Fixtures.hex01)) s1).2))
    as Ha' by (vm_compute; reflexivity).
  assert (Registry.Address_ Fixtures.bob s1
          = (Ok b', (Registry.Address_ Fixtures.bob s1).2))
    as Hb' by (vm_compute; reflexivity).
  destruct (alias_then_lookup Fixtures.alice "alice" Examples.state0 _ a Ha)
    as (H1 & H2).
  split; [exact H1|]. split; [exact (H2 _ _ _ Ha') | exact (H2 _ _ _ Hb')].
Defined.

Lemma sender_eq `{Address.EthUtils} {A}
  (address : Address.input) (body : M Registry.State A) (s : Registry.State) :
  Registry.sender address body s
  = match Registry.Address_ address s with
    | (Ok a, s1) =>
        let s2 := (Registry.lift (modify (set_eoa (Some a))) s1).2 in
        ((body s2).1,
         (Registry.lift (modify (set_eoa (eoa (Registry.world s)))) (body s2).2).2)
    | (Raise e, s1) => (Raise e, s1)
    end.
Proof.
  destruct s as [w al cr ctr g].
  unfold Registry.sender. unfold bind at 1.
  change (Registry.lift (gets eoa) (Registry.mkState w al cr ctr g))
    with (Ok (eoa w), Registry.mkState w al cr ctr g).
  cbv iota beta. unfold bind at 1.
  destruct (Registry.Address_ address (Registry.mkState w al cr ctr g))
    as [[a|e] s1]; [|done].
  unfold bind at 1. unfold try_finally.
  set (s2 := (Registry.lift (modify (set_eoa (Some a))) s1).2).
  change (Registry.lift (modify (set_eoa (Some a))) s1) with (Ok tt, s2).
  cbv iota beta. by destruct (body s2) as [r s3].
Qed.

(** X18.  [with env.sender(address):] around any block: the block runs
    with [eoa] set to the [Address] object of [address], its result or
    exception is that of the whole, and afterwards [eoa] is what it was on
    entry, whatever the block did to it.  When [address] is not an address,
    the exception of [Address] comes out before [eoa] is touched and the
    block is not run. *)
Theorem sender_restores `{Address.EthUtils} {A}
  (address : Address.input) (body : M Registry.State A) (s : Registry.State) :
  let res := Registry.sender address body s in
  match Registry.Address_ address s with
  | (Ok a, s1) =>
      let s2 := (Registry.lift (modify (set_eoa (Some a))) s1).2 in
      eoa (Registry.world s2) = Some a /\
      res.1 = (body s2).1 /\
      eoa (Registry.world res.2) = eoa (Registry.world s) /\
      accounts (Registry.world res.2) = accounts (Registry.world (body s2).2) /\
      _contracts (Registry.world res.2) = _contracts (Registry.world (body s2).2) /\
      Registry._aliases res.2 = Registry._aliases (body s2).2
  | (Raise e, s1) =>
      res = (Raise e, s1) /\ eoa (Registry.world s1) = eoa (Registry.world s)
  end.
Proof.
  intros res. subst res. rewrite sender_eq.
  destruct (Registry.Address_ address s) as [[a|e] s1] eqn:Ha.
  - done.
  - destruct (Registry_Address_rest _ _ _ _ Ha) as (_ & _ & He & _). done.
Qed.

(** X19.  [with env.gas_meter_class(cls):] around any block: the block
    runs with the gas meter class set to [cls], its result or exception is
    that of the whole, and afterwards the class is the one that was set on
    entry, whatever the block set; nothing else is touched by the manager. *)
Theorem gas_meter_class_restores {A}
  (cls : handle) (body : M Registry.State A) (s : Registry.State) :
  let s1 := (Registry.set_gas_meter_class cls s).2 in
  let res := Registry.gas_meter_class cls body s in
  Registry._gas_meter_class s1 = cls /\
  res.1 = (body s1).1 /\
  Registry._gas_meter_class res.2 = Registry._gas_meter_class s /\
  Registry.world res.2 = Registry.world (body s1).2 /\
  Registry._aliases res.2 = Registry._aliases (body s1).2 /\
  Registry._code_registry res.2 = Registry._code_registry (body s1).2 /\
  Registry._address_counter res.2 = Registry._address_counter (body s1).2.
Proof.
  intros s1 res.
  assert (res = ((body s1).1,
                 (Registry.set_gas_meter_class (Registry._gas_meter_class s)
                    (body s1).2).2)) as ->.
  { subst res. unfold Registry.gas_meter_class. unfold bind at 1. unfold gets at 1.
    unfold try_finally. unfold bind at 1.
    change (Registry.set_gas_meter_class cls s) with (Ok tt, s1).
    cbv iota beta. by destruct (body s1) as [r s3]. }
  done.
Qed.

(** ** Env.generate_address *)

Lemma int_from_bytes_snoc (l : bytes) (x : Byte.byte) :
  Registry.int_from_bytes (l ++ [x])
  = Registry.int_from_bytes l * 256 + Z.of_N (Byte.to_N x).
Proof. unfold Registry.int_from_bytes. by rewrite foldl_app. Qed.

Lemma byte_of_Z_to_N (m : Z) :
  0 <= m < 256 -> Z.of_N (Byte.to_N (Registry.byte_of_Z m)) = m.
Proof.
  intros Hm. unfold Registry.byte_of_Z.
  destruct (Byte.of_N (Z.to_N m)) as [b|] eqn:E; simpl.
  - apply Byte.to_of_N in E. rewrite E. lia.
  - apply Byte.of_N_None_iff in E. lia.
Qed.

Lemma big_endian_length (n : nat) (z : Z) : length (Registry.big_endian n z) = n.
Proof.
  revert z. induction n as [|n IH]; intros z; simpl; [done|].
  rewrite length_app, IH. simpl. lia.
Qed.

(** Reading back the big-endian digits of an integer that fits. *)
Lemma from_big_endian (n : nat) (z : Z) :
  0 <= z < 256 ^ Z.of_nat n ->
  Registry.int_from_bytes (Registry.big_endian n z) = z.
Proof.
  revert z. induction n as [|n IH]; intros z Hz.
  - simpl in *. unfold Registry.int_from_bytes. simpl. lia.
  - cbn [Registry.big_endian]. rewrite int_from_bytes_snoc.
    rewrite Nat2Z.inj_succ, Z.pow_succ_r in Hz by lia.
    rewrite IH.
    + rewrite byte_of_Z_to_N by (apply Z.mod_pos_bound; lia).
      pose proof (Z.div_mod z 256). lia.
    + split; [apply Z.div_pos; lia|]. apply Z.div_lt_upper_bound; lia.
Qed.

Section generate_facts.
Context `{Address.EthUtils}.

Lemma new_converts r c k s :
  store_wf s ->
  Address.to_checksum_address r = Ok c ->
  Address.to_canonical_address r = Ok k ->
  exists a s', Address.new_ (Address.OfRaw r) s = (Ok a, s') /\
               Address.checksum_address a = c /\ Address.canonical_address a = k.
Proof.
  intros Hwf Hc Hk.
  assert (exists a s', Address.new_ (Address.OfRaw r) s = (Ok a, s')) as (a & s' & Hnew).
  { unfold Address.new_.
    destruct (Address.lru_getitem r (Address._cache s)) as [[a c']|]; [by do 2 eexists|].
    rewrite Hc, Hk. by do 2 eexists. }
  exists a, s'. split; [done|].
  pose proof (new_preserves_wf (Address.OfRaw r) s Hwf) as (_ & _ & _ & Hall).
  rewrite Hnew in Hall. simpl in Hall.
  pose proof (sole_elem _ _ _ (new_caches _ _ _ _ Hnew)) as Hin.
  rewrite Forall_forall in Hall. destruct (Hall _ Hin) as (Hc' & Hk' & _).
  simpl in Hc', Hk'. split; congruence.
Qed.

Lemma generate_address_eq alias_ (s : Registry.State) raw a s1 :
  Registry.int_to_bytes (Registry._address_counter s + 1) 20 = Ok raw ->
  Registry.Address_ (Address.OfRaw (Address.RBytes raw))
    (Registry.set_address_counter (Registry._address_counter s + 1) s) = (Ok a, s1) ->
  Registry.generate_address alias_ s
  = (Ok a, match alias_ with
           | Some name =>
               Registry.set_aliases (<[Address.canonical_address a := name]>) s1
           | None => s1
           end).
Proof.
  intros Hraw Ha. unfold Registry.generate_address.
  unfold bind at 1. unfold modify at 1. unfold bind at 1. unfold gets at 1.
  unfold bind at 1. unfold Env.of_result at 1.
  change (Registry._address_counter
            (Registry.set_address_counter (Registry._address_counter s + 1) s))
    with (Registry._address_counter s + 1).
  rewrite Hraw. unfold bind at 1. rewrite Ha.
  destruct alias_ as [name|]; [|done].
  unfold bind at 1.
  unfold Registry.alias, bind, Registry.Address_, Registry.lift, Env.Address_.
  cbn. destruct s1 as [w1 al cr ctr g]. by destruct w1.
Qed.

End generate_facts.

(** One call: the raw input is the new counter value in twenty big-endian
    bytes, and the class state stays one that the constructor keeps. *)
Lemma generate_address_step `{Address.EthUtils}
  (alias_ : option string) (s : Registry.State) :
  (forall b, length b = 20%nat ->
     Address.to_canonical_address (Address.RBytes b) = Ok b /\
     exists c, Address.to_checksum_address (Address.RBytes b) = Ok c) ->
  store_wf (addresses (Registry.world s)) ->
  0 <= Registry._address_counter s + 1 < 256 ^ 20 ->
  exists a s',
    Registry.generate_address alias_ s = (Ok a, s') /\
    Registry._address_counter s' = Registry._address_counter s + 1 /\
    Address.canonical_address a
    = Registry.big_endian 20 (Registry._address_counter s + 1) /\
    Registry._aliases s'
    = match alias_ with
      | Some name => <[Address.canonical_address a := name]> (Registry._aliases s)
      | None => Registry._aliases s
      end /\
    store_wf (addresses (Registry.world s')).
Proof.
  intros Hlaw Hwf Hrange.
  set (n := Registry._address_counter s + 1) in *.
  set (raw := Registry.big_endian 20 n).
  assert (Registry.int_to_bytes n 20 = Ok raw) as Hraw.
  { unfold Registry.int_to_bytes. by rewrite bool_decide_eq_true_2. }
  assert (length raw = 20%nat) as Hlen by apply big_endian_length.
  destruct (Hlaw raw Hlen) as (Hk & c & Hc).
  destruct (new_converts _ _ _ _ Hwf Hc Hk) as (a & st' & Hnew & _ & Hcan).
  pose proof (new_preserves_wf (Address.OfRaw (Address.RBytes raw)) _ Hwf) as Hwf'.
  rewrite Hnew in Hwf'. cbn [snd] in Hwf'.
  set (s1 := Registry.mkState (set_addresses (fun _ => st') (Registry.world s))
               (Registry._aliases s) (Registry._code_registry s) n
               (Registry._gas_meter_class s)).
  assert (Registry.Address_ (Address.OfRaw (Address.RBytes raw))
            (Registry.set_address_counter n s) = (Ok a, s1)) as Ha.
  { rewrite Registry_Address_eq. unfold Env.Address_.
    change (Registry.world (Registry.set_address_counter n s)) with (Registry.world s).
    by rewrite Hnew. }
  eexists a, _. split; [by apply (generate_address_eq alias_ s raw a s1)|].
  split; [by destruct alias_|]. split; [done|].
  split; by destruct alias_.
Qed.

(** X20.  [generate_address], for an [eth_utils] that takes every twenty
    bytes as an address and its own canonical form: the counter goes up by
    one and the address returned is the new counter value in twenty
    big-endian bytes, entered under the alias when one is given.  Hence two
    calls made at different counter values never return the same address. *)
Theorem generate_address_counts `{Address.EthUtils}
  (alias_ : option string) (s : Registry.State) :
  (forall b, length b = 20%nat ->
     Address.to_canonical_address (Address.RBytes b) = Ok b /\
     exists c, Address.to_checksum_address (Address.RBytes b) = Ok c) ->
  store_wf (addresses (Registry.world s)) ->
  0 <= Registry._address_counter s + 1 < 256 ^ 20 ->
  exists a s',
    Registry.generate_address alias_ s = (Ok a, s') /\
    Registry._address_counter s' = Registry._address_counter s + 1 /\
    length (Address.canonical_address a) = 20%nat /\
    Registry.int_from_bytes (Address.canonical_address a)
    = Registry._address_counter s + 1 /\
    (forall name, alias_ = Some name ->
       Registry._aliases s' !! Address.canonical_address a = Some name) /\
    store_wf (addresses (Registry.world s')).
Proof.
  intros Hlaw Hwf Hrange.
  destruct (generate_address_step alias_ s Hlaw Hwf Hrange)
    as (a & s' & Hg & Hc & Hcan & Hal & Hwf').
  exists a, s'. rewrite Hcan. split; [by rewrite Hg|]. split; [done|].
  split; [apply big_endian_length|]. split; [by apply from_big_endian|].
  split; [|done].
  intros name ->. rewrite Hal, <- Hcan. by rewrite lookup_insert_eq.
Qed.

Lemma fixture_takes_twenty_bytes (b : bytes) :
  length b = 20%nat ->
  Address.to_canonical_address (Address.RBytes b) = Ok b /\
  exists c, Address.to_checksum_address (Address.RBytes b) = Ok c.
Proof.
  intros Hb. simpl. rewrite !bool_decide_eq_true_2 by done. split; [done|by eexists].
Qed.

Lemma store_wf_world0 : store_wf (addresses Fixtures.world0).
Proof.
  repeat split; simpl; try lia; try apply NoDup_nil_2. apply Forall_nil_2.
Qed.

Lemma generate_address_counts_witness :
  exists a s',
    Registry.generate_address (Some "eoa"%string) Examples.state0 = (Ok a, s') /\
    Registry._address_counter s' = Registry._address_counter Examples.state0 + 1 /\
    length (Address.canonical_address a) = 20%nat /\
    Registry.int_from_bytes (Address.canonical_address a)
    = Registry._address_counter Examples.state0 + 1 /\
    (forall name, Some "eoa"%string = Some name ->
       Registry._aliases s' !! Address.canonical_address a = Some name) /\
    store_wf (addresses (Registry.world s')).
Proof.
  apply (generate_address_counts (Some "eoa"%string) Examples.state0
           fixture_takes_twenty_bytes store_wf_world0).
  done.
Defined.

(** X21.  Two calls of [generate_address] in a row, under the same
    assumption on [eth_utils]: both succeed and return two different
    objects for two different addresses. *)
Theorem generate_address_fresh `{Address.EthUtils}
  (alias1 alias2 : option string) (s : Registry.State) :
  (forall b, length b = 20%nat ->
     Address.to_canonical_address (Address.RBytes b) = Ok b /\
     exists c, Address.to_checksum_address (Address.RBytes b) = Ok c) ->
  store_wf (addresses (Registry.world s)) ->
  0 <= Registry._address_counter s + 1 ->
  Registry._address_counter s + 2 < 256 ^ 20 ->
  exists a1 s1 a2 s2,
    Registry.generate_address alias1 s = (Ok a1, s1) /\
    Registry.generate_address alias2 s1 = (Ok a2, s2) /\
    Address.canonical_address a1 <> Address.canonical_address a2 /\
    a1 <> a2 /\
    Registry._address_counter s2 = Registry._address_counter s + 2.
Proof.
  intros Hlaw Hwf Hlo Hhi.
  destruct (generate_address_step alias1 s Hlaw Hwf ltac:(lia))
    as (a1 & s1 & Hg1 & Hc1 & Hb1 & _ & Hwf1).
  destruct (generate_address_step alias2 s1 Hlaw Hwf1 ltac:(lia))
    as (a2 & s2 & Hg2 & Hc2 & Hb2 & _ & _).
  assert (Address.canonical_address a1 <> Address.canonical_address a2) as Hne.
  { intros Heq. rewrite Hb1, Hb2 in Heq.
    apply (f_equal Registry.int_from_bytes) in Heq.
    rewrite !from_big_endian in Heq by lia. lia. }
  exists a1, s1, a2, s2. repeat split; try done.
  - intros Heq. apply Hne. by rewrite Heq.
  - lia.
Qed.

Lemma generate_address_fresh_witness :
  exists a1 s1 a2 s2,
    Registry.generate_address (Some "eoa"%string) Examples.state0 = (Ok a1, s1) /\
    Registry.generate_address None s1 = (Ok a2, s2) /\
    Address.canonical_address a1 <> Address.canonical_address a2 /\
    a1 <> a2 /\
    Registry._address_counter s2 = Registry._address_counter Examples.state0 + 2.
Proof.
  apply (generate_address_fresh (Some "eoa"%string) None Examples.state0
           fixture_takes_twenty_bytes store_wf_world0); done.
Defined.

(** ** TracingCodeStream *)

Module StreamFacts.
Import TracingCodeStream.

Lemma py_getitem_in_range (code : bytes) (p : Z) :
  0 <= p < Z.of_nat (length code) ->
  exists x, code !! Z.to_nat p = Some x /\
            py_getitem code p = Ok (Z.of_N (Byte.to_N x)).
Proof.
  intros Hp. unfold py_getitem. cbv zeta.
  rewrite (bool_decide_eq_false_2 (p < 0)) by lia.
  rewrite bool_decide_eq_true_2 by lia.
  destruct (lookup_lt_is_Some_2 code (Z.to_nat p)) as [x Hx]; [lia|].
  exists x. split; [done|]. unfold bytes. by rewrite Hx.
Qed.

Lemma run_finished (acts : list action) (cs : t) :
  (forall pc, Jump pc ∈ acts -> False) ->
  run acts (cs, true) = (Ok [], (cs, true)).
Proof.
  induction acts as [|[|pc] acts IH]; intros Hj; [done| |].
  - cbn [run]. unfold bind at 1. unfold next_ at 1. cbn [fst snd].
    unfold bind at 1. rewrite IH; [done|].
    intros pc Hin. apply (Hj pc). by right.
  - destruct (Hj pc). by left.
Qed.

Lemma no_jump_in_replicate k pc : Jump pc ∈ replicate k Next -> False.
Proof. intros Hin. by apply elem_of_replicate in Hin as [? _]. Qed.

Lemma drop_opcodes (code : bytes) (p : nat) x :
  code !! p = Some x ->
  drop p (opcodes code) = Z.of_N (Byte.to_N x) :: drop (S p) (opcodes code).
Proof.
  intros Hx. unfold opcodes. rewrite <- !fmap_drop.
  by rewrite (drop_S _ _ _ Hx).
Qed.

Lemma positions_cons p n : p < n -> positions p n = p :: positions (p + 1) n.
Proof.
  intros Hp. unfold positions.
  replace (n - p) with (Z.succ (n - (p + 1))) by lia.
  rewrite seqZ_cons by lia. do 2 f_equal; lia.
Qed.

Lemma positions_nil p n : n <= p -> positions p n = [].
Proof.
  intros Hp. unfold positions. apply seqZ_nil. lia.
Qed.

(** [k] times [next()] from position [p]. *)
Lemma run_next (code : bytes) (fcs : option Z) (k : nat) (p : Z) (tr : list Z) :
  0 <= p ->
  let n := Z.of_nat (length code) in
  let tail := take k (positions p n) in
  run (replicate k Next) (mk code n fcs p tr, false)
  = (Ok (take k (drop (Z.to_nat p) (opcodes code) ++ [STOP])),
     (mk code n fcs (p + Z.of_nat (length tail)) (tr ++ tail),
      bool_decide (Z.to_nat (n - p) < k)%nat)).
Proof.
  intros Hp n. revert p tr Hp. induction k as [|k IH]; intros p tr Hp tail.
  - subst tail. cbn. rewrite app_nil_r, Z.add_0_r.
    rewrite bool_decide_eq_false_2 by lia. done.
  - cbn [replicate run]. unfold bind at 1. unfold next_ at 1. cbn [fst snd].
    cbn [program_counter _length_cache _raw_code_bytes _fake_codesize _trace].
    case_bool_decide as Hlt.
    + destruct (py_getitem_in_range code p ltac:(lia)) as (x & Hx & ->).
      unfold bind at 1. rewrite (IH (p + 1) (tr ++ [p]) ltac:(lia)).
      unfold ret. cbn [option_list].
      rewrite (drop_opcodes _ _ _ Hx). cbn [app take].
      replace (Z.to_nat (p + 1)) with (S (Z.to_nat p)) by lia.
      subst tail. rewrite (positions_cons p n Hlt). cbn [take length].
      rewrite <- app_assoc. cbn [app].
      f_equal. f_equal; [f_equal; lia|].
      apply bool_decide_ext. lia.
    + unfold bind at 1.
      rewrite run_finished by apply no_jump_in_replicate.
      unfold ret. cbn [option_list app].
      subst tail. rewrite positions_nil by lia. rewrite take_nil.
      cbn [length]. rewrite app_nil_r, Z.add_0_r.
      assert (drop (Z.to_nat p) (opcodes code) = []) as ->.
      { apply drop_ge. unfold opcodes. rewrite length_fmap. lia. }
      cbn [app take]. rewrite bool_decide_eq_true_2 by lia.
      by rewrite take_nil, app_nil_r.
Qed.

End StreamFacts.

(** X22.  Iterating a [TracingCodeStream] without jumps, from a start
    position that is not negative: [k] calls of [next()] yield the first [k]
    of the opcodes from the start position to the end of the code followed by
    one [STOP], and the trace holds the positions of the opcodes yielded, in
    order.  After the [STOP] the iterator is exhausted.  A start position at
    or past the end gives the [STOP] alone.  [fake_codesize] changes what
    [len()] reports and nothing of the iteration. *)
Theorem stream_iterates (code : bytes) (start_pc : Z) (fake_codesize : option Z)
  (k : nat) :
  0 <= start_pc ->
  let n := Z.of_nat (length code) in
  let res := TracingCodeStream.run (replicate k TracingCodeStream.Next)
               (TracingCodeStream.__init__ code start_pc fake_codesize, false) in
  res.1 = Ok (take k (drop (Z.to_nat start_pc) (opcodes code)
                      ++ [TracingCodeStream.STOP])) /\
  TracingCodeStream._trace res.2.1 = take k (positions start_pc n) /\
  res.2.2 = bool_decide (Z.to_nat (n - start_pc) < k)%nat /\
  TracingCodeStream.__len__ res.2.1 = default n fake_codesize.
Proof.
  intros Hp n res. subst res. unfold TracingCodeStream.__init__.
  rewrite (StreamFacts.run_next code fake_codesize k start_pc [] Hp).
  cbn [fst snd TracingCodeStream._trace app].
  split; [done|]. split; [done|]. split; [done|].
  unfold TracingCodeStream.__len__. by destruct fake_codesize.
Qed.

Lemma stream_iterates_witness :
  let code := [Byte.x60; Byte.x01; Byte.x55] in
  let res := TracingCodeStream.run (replicate 5 TracingCodeStream.Next)
               (TracingCodeStream.__init__ code 1 (Some 40), false) in
  res.1 = Ok (take 5 (drop (Z.to_nat 1) (opcodes code) ++ [TracingCodeStream.STOP])) /\
  TracingCodeStream._trace res.2.1 = take 5 (positions 1 (Z.of_nat (length code))) /\
  res.2.2 = bool_decide (Z.to_nat (Z.of_nat (length code) - 1) < 5)%nat /\
  TracingCodeStream.__len__ res.2.1 = default (Z.of_nat (length code)) (Some 40).
Proof.
  intros code.
  apply (stream_iterates code 1 (Some 40) 5). lia.
Defined.

Module StreamJumps.
Import TracingCodeStream.

(** Once the generator has returned, [next()] yields nothing and only jumps
    move the program counter. *)
Lemma run_exhausted (acts : list action) (cs : t) :
  0 <= program_counter cs ->
  (forall pc, Jump pc ∈ acts -> 0 <= pc) ->
  exists p, 0 <= p /\
            run acts (cs, true)
            = (Ok [], (mk (_raw_code_bytes cs) (_length_cache cs) (_fake_codesize cs)
                          p (_trace cs), true)).
Proof.
  revert cs. induction acts as [|[|pc] acts IH]; intros cs Hp Hj.
  - exists (program_counter cs). split; [done|]. by destruct cs.
  - cbn [run]. unfold bind at 1. unfold next_ at 1. cbn [fst snd].
    unfold bind at 1.
    destruct (IH cs Hp) as (p & Hp' & ->); [intros pc Hin; apply Hj; by right|].
    by exists p.
  - cbn [run]. unfold bind at 1. unfold jump, modify. cbn [fst snd].
    destruct (IH (mk (_raw_code_bytes cs) (_length_cache cs) (_fake_codesize cs)
                     pc (_trace cs))) as (p & Hp' & ->).
    + apply Hj. by left.
    + intros pc' Hin. apply Hj. by right.
    + by exists p.
Qed.

Lemma run_with_jumps (code : bytes) (fcs : option Z) (acts : list action)
  (p : Z) (tr : list Z) :
  let n := Z.of_nat (length code) in
  0 <= p ->
  (forall pc, Jump pc ∈ acts -> 0 <= pc) ->
  exists p' new fin,
    run acts (mk code n fcs p tr, false)
    = (Ok (((fun pc => default STOP (opcodes code !! Z.to_nat pc)) <$> new)
           ++ (if fin : bool then [STOP] else [])),
       (mk code n fcs p' (tr ++ new), fin)) /\
    Forall (fun pc => 0 <= pc < n) new /\ 0 <= p'.
Proof.
  intros n. revert p tr. induction acts as [|[|pc] acts IH]; intros p tr Hp Hj.
  - exists p, [], false. split; [|split; [by apply Forall_nil_2 | done]].
    cbn. by rewrite app_nil_r.
  - cbn [run]. unfold bind at 1. unfold next_ at 1. cbn [fst snd].
    cbn [program_counter _length_cache _raw_code_bytes _fake_codesize _trace].
    case_bool_decide as Hlt.
    + destruct (StreamFacts.py_getitem_in_range code p ltac:(lia)) as (x & Hx & ->).
      destruct (IH (p + 1) (tr ++ [p]) ltac:(lia))
        as (p' & new & fin & Hrun & Hall & Hp').
      { intros pc Hin. apply Hj. by right. }
      exists p', (p :: new), fin. split; [|split; [|done]].
      * unfold bind at 1. rewrite Hrun. unfold ret. cbn [option_list fmap list_fmap app].
        rewrite <- app_assoc. cbn [app]. do 3 f_equal.
        unfold opcodes. rewrite list_lookup_fmap. unfold bytes in *. by rewrite Hx.
      * apply Forall_cons_2; [lia | done].
    + destruct (run_exhausted acts (mk code n fcs p tr)) as (p' & Hp' & Hrun);
        [done | intros pc Hin; apply Hj; by right |].
      cbn [_raw_code_bytes _length_cache _fake_codesize _trace] in Hrun.
      exists p', [], true. split; [|split; [by apply Forall_nil_2 | done]].
      unfold bind at 1. rewrite Hrun. unfold ret. cbn. by rewrite app_nil_r.
  - cbn [run]. unfold bind at 1. unfold jump, modify. cbn [fst snd].
    cbn [program_counter _length_cache _raw_code_bytes _fake_codesize _trace].
    apply IH.
    + apply Hj. by left.
    + intros pc' Hin. apply Hj. by right.
Qed.

(** A run in two parts. *)
Lemma run_app (l1 l2 : list action) (st : t * bool) :
  run (l1 ++ l2) st
  = match run l1 st with
    | (Ok ys1, st1) =>
        match run l2 st1 with
        | (Ok ys2, st2) => (Ok (ys1 ++ ys2), st2)
        | (Raise e, st2) => (Raise e, st2)
        end
    | (Raise e, st1) => (Raise e, st1)
    end.
Proof.
  revert st. induction l1 as [|[|pc] l1 IH]; intros st.
  - cbn. by destruct (run l2 st) as [[ys|e] st2].
  - cbn [app run]. unfold bind, ret.
    destruct (next_ st) as [[o|e] st']; [|done].
    rewrite IH.
    destruct (run l1 st') as [[ys1|e] st1]; [|done].
    destruct (run l2 st1) as [[ys2|e] st2]; [|done].
    by rewrite app_assoc.
  - cbn [app run]. unfold bind.
    destruct (jump pc st) as [[u|e] st']; [|done]. apply IH.
Qed.

(** One more action after a run. *)
Lemma run_step (code : bytes) (fcs : option Z) (start_pc : Z)
  (pre : list action) (a : action) :
  let n := Z.of_nat (length code) in
  0 <= start_pc ->
  (forall pc, Jump pc ∈ pre -> 0 <= pc) ->
  exists ys p tr fin,
    run pre (__init__ code start_pc fcs, false) = (Ok ys, (mk code n fcs p tr, fin)) /\
    0 <= p /\
    run (pre ++ [a]) (__init__ code start_pc fcs, false)
    = match a with
      | Jump q => (Ok ys, (mk code n fcs q tr, fin))
      | Next =>
          if fin then (Ok ys, (mk code n fcs p tr, true))
          else if bool_decide (p < n)
          then (Ok (ys ++ [default STOP (opcodes code !! Z.to_nat p)]),
                (mk code n fcs (p + 1) (tr ++ [p]), false))
          else (Ok (ys ++ [STOP]), (mk code n fcs p tr, true))
      end /\
    (fin = false -> p < n -> is_Some (opcodes code !! Z.to_nat p)).
Proof.
  intros n Hp Hj. subst n. unfold __init__.
  destruct (run_with_jumps code fcs pre start_pc [] Hp Hj)
    as (p & new & fin & Hrun & _ & Hp').
  cbn [app] in Hrun.
  eexists _, p, new, fin. split; [exact Hrun|]. split; [done|].
  assert (fin = false -> p < Z.of_nat (length code) ->
          is_Some (opcodes code !! Z.to_nat p)) as Hsome.
  { intros _ Hlt. apply lookup_lt_is_Some_2. unfold opcodes.
    rewrite length_fmap. lia. }
  split; [|done].
  rewrite run_app, Hrun. destruct a as [|q].
  - cbn [run]. unfold bind at 1. unfold next_ at 1. cbn [fst snd].
    cbn [program_counter _length_cache _raw_code_bytes _fake_codesize _trace].
    destruct fin.
    + unfold bind, ret. cbn. by rewrite app_nil_r.
    + case_bool_decide as Hlt.
      * destruct (StreamFacts.py_getitem_in_range code p ltac:(lia)) as (x & Hx & ->).
        unfold bind, ret. cbn [option_list app]. do 3 f_equal.
        unfold opcodes. rewrite list_lookup_fmap. unfold bytes in *. by rewrite Hx.
      * unfold bind, ret. by cbn.
  - cbn [run]. unfold bind, jump, modify, ret. cbn. by rewrite app_nil_r.
Qed.

End StreamJumps.

(** X23.  Iterating a [TracingCodeStream] with jumps in between, none of
    them to a negative position.  No [next()] raises, every traced position
    lies within the code, and the opcodes yielded are the bytes of the code
    at the traced positions, in order, followed by one [STOP] if the
    iteration has ended; the code and its length are never changed.  And at
    every point of the run: a jump only sets the program counter; a
    [next()] on the live iterator that finds the program counter below the
    length of the code yields the byte there, records the position and moves
    on by one; a [next()] that finds it at or past the end yields [STOP] and
    ends the iteration; a [next()] after the end yields nothing. *)
Theorem stream_trace_matches (code : bytes) (start_pc : Z) (fake_codesize : option Z)
  (acts : list TracingCodeStream.action) :
  0 <= start_pc ->
  (forall pc, TracingCodeStream.Jump pc ∈ acts -> 0 <= pc) ->
  let n := Z.of_nat (length code) in
  let start := (TracingCodeStream.__init__ code start_pc fake_codesize, false) in
  let res := TracingCodeStream.run acts start in
  let trace := TracingCodeStream._trace res.2.1 in
  Forall (fun pc => 0 <= pc < n) trace /\
  res.1 = Ok (((fun pc => default TracingCodeStream.STOP (opcodes code !! Z.to_nat pc))
                 <$> trace)
              ++ (if res.2.2 then [TracingCodeStream.STOP] else [])) /\
  TracingCodeStream._raw_code_bytes res.2.1 = code /\
  TracingCodeStream._length_cache res.2.1 = n /\
  forall pre a post,
    acts = pre ++ a :: post ->
    exists ys p tr fin,
      TracingCodeStream.run pre start
      = (Ok ys, (TracingCodeStream.mk code n fake_codesize p tr, fin)) /\
      0 <= p /\
      TracingCodeStream.run (pre ++ [a]) start
      = match a with
        | TracingCodeStream.Jump q =>
            (Ok ys, (TracingCodeStream.mk code n fake_codesize q tr, fin))
        | TracingCodeStream.Next =>
            if fin
            then (Ok ys, (TracingCodeStream.mk code n fake_codesize p tr, true))
            else if bool_decide (p < n)
            then (Ok (ys ++ [default TracingCodeStream.STOP
                               (opcodes code !! Z.to_nat p)]),
                  (TracingCodeStream.mk code n fake_codesize (p + 1) (tr ++ [p]),
                   false))
            else (Ok (ys ++ [TracingCodeStream.STOP]),
                  (TracingCodeStream.mk code n fake_codesize p tr, true))
        end /\
      (fin = false -> p < n -> is_Some (opcodes code !! Z.to_nat p)).
Proof.
  intros Hp Hj n start res trace. subst trace res start.
  split; [|split; [|split; [|split]]].
  5:{ intros pre a post ->.
      apply (StreamJumps.run_step code fake_codesize start_pc pre a Hp).
      intros pc Hin. apply Hj. apply elem_of_app. by left. }
  all: unfold TracingCodeStream.__init__;
    destruct (StreamJumps.run_with_jumps code fake_codesize acts start_pc [] Hp Hj)
      as (p' & new & fin & -> & Hall & _);
    cbn [fst snd app TracingCodeStream._trace TracingCodeStream._raw_code_bytes
         TracingCodeStream._length_cache]; done.
Qed.

Lemma stream_trace_matches_witness :
  let code := [Byte.x60; Byte.x01; Byte.x55] in
  let acts := [TracingCodeStream.Next; TracingCodeStream.Jump 2; TracingCodeStream.Next;
               TracingCodeStream.Jump 0; TracingCodeStream.Next; TracingCodeStream.Jump 7;
               TracingCodeStream.Next; TracingCodeStream.Next] in
  let res := TracingCodeStream.run acts
               (TracingCodeStream.__init__ code 0 None, false) in
  res.1 = Ok [96; 85; 96; TracingCodeStream.STOP] /\
  TracingCodeStream._trace res.2.1 = [0; 2; 0] /\
  res.2.2 = true.
Proof.
  intros code acts res.
  assert (forall pc, TracingCodeStream.Jump pc ∈ acts -> 0 <= pc) as Hj.
  { intros pc Hin. subst acts.
    repeat (apply elem_of_cons in Hin as [Hin|Hin];
            [try discriminate; injection Hin as ->; lia|]).
    by apply elem_of_nil in Hin. }
  destruct (stream_trace_matches code 0 None acts ltac:(lia) Hj)
    as (_ & Hys & _ & _ & _).
  split; [exact Hys|]. split; reflexivity.
Defined.

(** ** The opcode hooks at their edges *)

(** X24.  With fewer than two values on the stack both hooks raise
    [ValueError] from their first line, the unpacking: the wrapped opcode,
    whatever it is, has no part in the outcome, and nothing is recorded. *)
Theorem hooks_need_two_operands (to_int : pyval -> Z) (to_bytes : pyval -> bytes)
  (read_bytes : bytes -> Z -> Z -> bytes) (c : Computation)
  (env : Tracers.TraceStore) :
  (length (stack_values c) < 2)%nat ->
  exists msg, forall op,
    Tracers.Sha3PreimageTracer_call to_int to_bytes read_bytes op c env
    = (Raise (ValueError msg), env) /\
    Tracers.SstoreTracer_call to_int op c env = (Raise (ValueError msg), env).
Proof.
  intros Hl. eexists. intros op.
  unfold Tracers.Sha3PreimageTracer_call, Tracers.SstoreTracer_call, Tracers.last2.
  destruct (stack_values c) as [|x [|y t]]; simpl in *; try lia; split; reflexivity.
Qed.

Lemma hooks_need_two_operands_witness :
  exists msg, forall op,
    Tracers.Sha3PreimageTracer_call Fixtures.to_int Fixtures.to_bytes
      Fixtures.read_bytes op Fixtures.child0 (Tracers.mkTraceStore ∅ ∅)
    = (Raise (ValueError msg), Tracers.mkTraceStore ∅ ∅) /\
    Tracers.SstoreTracer_call Fixtures.to_int op Fixtures.child0
      (Tracers.mkTraceStore ∅ ∅)
    = (Raise (ValueError msg), Tracers.mkTraceStore ∅ ∅).
Proof.
  apply (hooks_need_two_operands Fixtures.to_int Fixtures.to_bytes Fixtures.read_bytes
           Fixtures.child0 (Tracers.mkTraceStore ∅ ∅)).
  simpl. lia.
Defined.

(** X25.  The SSTORE hook records before it dispatches: its outcome is
    exactly that of the wrapped opcode, and the slot is in the trace of the
    account also when the wrapped opcode raises.  The hook leaves
    [sha3_trace] and the slots of every other account alone, and keeps the
    slots the account already had. *)
Theorem sstore_recorded_first (to_int : pyval -> Z)
  (sstore : Computation -> result Computation) (c : Computation)
  (rest : list stackitem) (value_item slot_item : stackitem)
  (env : Tracers.TraceStore) :
  stack_values c = rest ++ [value_item; slot_item] ->
  let call := Tracers.SstoreTracer_call to_int sstore c env in
  let account := storage_address (msg c) in
  call.1 = sstore c /\
  Tracers.sstore_trace call.2 !! account
  = Some (default ∅ (Tracers.sstore_trace env !! account) ∪ {[to_int slot_item.2]}) /\
  (forall other, other <> account ->
     Tracers.sstore_trace call.2 !! other = Tracers.sstore_trace env !! other) /\
  Tracers.sha3_trace call.2 = Tracers.sha3_trace env.
Proof.
  intros Hs call account.
  assert (call = (sstore c, touched account (to_int slot_item.2) env)) as ->.
  { subst call. unfold Tracers.SstoreTracer_call. rewrite Hs, last2_snoc2. simpl.
    unfold bind. by rewrite _trace_sstore_eq. }
  cbn [fst snd]. unfold touched. cbn.
  split; [done|]. split; [by rewrite lookup_insert_eq|]. split; [|done].
  intros other Ho. by rewrite lookup_insert_ne.
Qed.

Lemma sstore_recorded_first_witness :
  let c := Fixtures.frame 0 5 in
  let env := Tracers.mkTraceStore ∅ ∅ in
  let call := Tracers.SstoreTracer_call Fixtures.to_int Examples.sstore_fails c env in
  let account := storage_address (msg c) in
  call.1 = Examples.sstore_fails c /\
  Tracers.sstore_trace call.2 !! account
  = Some (default ∅ (Tracers.sstore_trace env !! account)
          ∪ {[Fixtures.to_int (TyInt, VInt 5).2]}) /\
  (forall other, other <> account ->
     Tracers.sstore_trace call.2 !! other = Tracers.sstore_trace env !! other) /\
  Tracers.sha3_trace call.2 = Tracers.sha3_trace env.
Proof.
  intros c env.
  exact (sstore_recorded_first Fixtures.to_int Examples.sstore_fails c
           [(TyInt, VInt 99)] (TyInt, VInt 0) (TyInt, VInt 5) env eq_refl).
Defined.

(** ** The native path when the contract code fails *)

(** X26.  On the native path an exception other than [Halt] is not caught
    by the body: it is handed to [__exit__] of the frame, and the call
    returns the frame when [__exit__] swallows it and raises it otherwise.
    When the constructor of the frame raises, neither the native code nor
    [__exit__] runs. *)
Theorem native_path_fails
  (super_apply_computation cls : Message -> TxCtx -> M World Computation)
  (frame_exit : Computation -> option exn -> World -> (Computation * bool) * World)
  (ir_exec : handle -> Computation -> World -> (Computation * option exn) * World)
  (msg : Message) (tx : TxCtx) (w : World) (contract : handle) :
  code_address msg <> [] ->
  _contracts w !! code_address msg = Some contract ->
  _speed w <> Computation._SLOW ->
  let apply := Computation.apply_computation super_apply_computation cls
                 frame_exit ir_exec in
  (forall frame w1 frame' e w2,
      cls msg tx w = (Ok frame, w1) ->
      ir_exec contract frame w1 = (frame', Some e, w2) ->
      e <> Halt ->
      let out := frame_exit frame' (Some e) w2 in
      apply msg tx w = (if out.1.2 then Ok out.1.1 else Raise e, out.2)) /\
  (forall e w1,
      cls msg tx w = (Raise e, w1) -> apply msg tx w = (Raise e, w1)).
Proof.
  intros Ha Hc Hs apply.
  assert (apply msg tx w
          = Computation.native_path cls frame_exit ir_exec contract msg tx w) as ->.
  { subst apply.
    unfold Computation.apply_computation, _lookup_contract_fast, bind, gets.
    rewrite bool_decide_eq_true_2 by done. rewrite Hc.
    by rewrite bool_decide_eq_false_2. }
  unfold Computation.native_path, Computation.native_body, bind. split.
  - intros frame w1 frame' e w2 Hcls Hexec He. cbv zeta. rewrite Hcls, Hexec.
    destruct e; try done;
      by destruct (frame_exit frame' _ w2) as [[final []] w3].
  - by intros e w1 ->.
Qed.

Lemma native_path_fails_witness :
  Computation.apply_computation Fixtures.super_apply_computation Fixtures.cls
    Fixtures.frame_exit Examples.ir_exec_reverts Fixtures.msg0 Fixtures.tx0
    Fixtures.world_fast
  = (Ok (Fixtures.result_of Fixtures.msg0 [] (Some (VMError "Revert")) []),
     Fixtures.world_fast) /\
  Computation.apply_computation Fixtures.super_apply_computation Fixtures.cls
    Fixtures.frame_exit Examples.ir_exec_crashes Fixtures.msg0 Fixtures.tx0
    Fixtures.world_fast
  = (Raise KeyError, Fixtures.world_fast).
Proof.
  split.
  - refine (proj1 (native_path_fails Fixtures.super_apply_computation Fixtures.cls
                     Fixtures.frame_exit Examples.ir_exec_reverts Fixtures.msg0
                     Fixtures.tx0 Fixtures.world_fast 3%nat _ eq_refl _)
                  _ _ _ (VMError "Revert") _ eq_refl eq_refl _);
      discriminate.
  - refine (proj1 (native_path_fails Fixtures.super_apply_computation Fixtures.cls
                     Fixtures.frame_exit Examples.ir_exec_crashes Fixtures.msg0
                     Fixtures.tx0 Fixtures.world_fast 3%nat _ eq_refl _)
                  _ _ _ KeyError _ eq_refl eq_refl _);
      discriminate.
Defined.

(** ** Balances *)

Lemma Env_Address_eq `{Address.EthUtils} i w :
  Env.Address_ i w
  = ((Address.new_ i (addresses w)).1,
     set_addresses (fun _ => (Address.new_ i (addresses w)).2) w).
Proof. unfold Env.Address_. by destruct (Address.new_ i (addresses w)). Qed.

(** X27.  [env.set_balance] and [env.get_balance] hand the [Address]
    object itself to the engine, which takes an address only as twenty
    [bytes]: for every input that [Address] accepts both raise the engine's
    [ValidationError], for any other input the exception of [Address], and
    in no case is a balance written or an account changed. *)
Theorem set_balance_rejected `{Address.EthUtils}
  (addr : Address.input) (value : Z) (w : World) :
  match Env.Address_ addr w with
  | (Ok a, w0) =>
      Env.set_balance addr value w = (Raise (ForeignError "ValidationError"), w0) /\
      Env.get_balance addr w = (Raise (ForeignError "ValidationError"), w0)
  | (Raise e, w0) =>
      Env.set_balance addr value w = (Raise e, w0) /\
      Env.get_balance addr w = (Raise e, w0)
  end /\
  accounts (Env.set_balance addr value w).2 = accounts w /\
  effects (Env.set_balance addr value w).2 = effects w.
Proof.
  unfold Env.set_balance, Env.get_balance, bind.
  pose proof (Address__frame addr w) as Hf. unfold same_but_addresses in Hf.
  destruct (Env.Address_ addr w) as [[a|e] w0]; cbn in *; by rewrite Hf.
Qed.

(** On the engine itself, with the twenty bytes of the address, the write
    goes through. *)
Example set_balance_on_engine :
  (Env.set_balance Fixtures.alice 50 Fixtures.world0).1
  = Raise (ForeignError "ValidationError") /\
  (state_get_balance (ArgBytes (Fixtures.addr Byte.x01))
     (state_set_balance (ArgBytes (Fixtures.addr Byte.x01)) 50 Fixtures.world0).2).1
  = Ok 50.
Proof. vm_compute. by split. Qed.

(** ** Successive deployments *)

Section deploy_facts.
Context `{Address.EthUtils}.
Variable generate_contract_address : bytes -> Z -> bytes.
Variable apply_create_message : Message -> TxCtx -> M World Computation.

Lemma _get_sender_accounts sender w r w1 :
  Env._get_sender sender w = (r, w1) ->
  accounts w1 = accounts w /\ eoa w1 = eoa w.
Proof.
  intros Hs. pose proof (_get_sender_frame sender w) as Hf. rewrite Hs in Hf.
  cbn [snd] in Hf. unfold same_but_addresses in Hf. by rewrite Hf.
Qed.

(** Asking for the sender in another state of the [Address] class gives
    the same account, whatever is cached there: the canonical bytes of an
    [Address] are those that [eth_utils] derives from the raw input. *)
Lemma _get_sender_same sender w s w0 w' :
  store_wf (addresses w) ->
  store_wf (addresses w') ->
  eoa w' = eoa w ->
  Env._get_sender sender w = (Ok s, w0) ->
  exists w0', Env._get_sender sender w' = (Ok s, w0').
Proof.
  unfold Env._get_sender, bind, gets. intros Hwf Hwf' He Hs. rewrite He.
  destruct (eoa w) as [e|]; [|by destruct sender].
  destruct sender as [[r|a]|]; cbn -[Env.Address_] in *.
  - rewrite Env_Address_eq in Hs. rewrite Env_Address_eq.
    destruct (Address.new_ (Address.OfRaw r) (addresses w)) as [[a|x] st1] eqn:Hnew;
      [|done].
    cbn in Hs. injection Hs as <- <-.
    pose proof (new_preserves_wf (Address.OfRaw r) _ Hwf) as (_ & _ & _ & Hall).
    rewrite Hnew in Hall. cbn [snd] in Hall.
    pose proof (sole_elem _ _ _ (new_caches _ _ _ _ Hnew)) as Hin.
    rewrite Forall_forall in Hall. destruct (Hall _ Hin) as (Hc & Hk & _).
    cbn [fst snd] in Hc, Hk.
    destruct (new_converts _ _ _ _ Hwf' Hc Hk) as (a' & st' & -> & _ & <-).
    cbn. by eexists.
  - rewrite Env_Address_eq in Hs. rewrite Env_Address_eq. cbn in *.
    injection Hs as <- _. by eexists.
  - rewrite Env_Address_eq in Hs. rewrite Env_Address_eq. cbn in *.
    injection Hs as <- _. by eexists.
Qed.

(** A deployment without override that returns normally went to the
    address made of the sender and its nonce before the call, and left the
    world that the engine made of the one with the nonce incremented. *)
Lemma deploy_code_fresh_inv sender gas value bytecode start_pc w addr out w' s w0 :
  Env.deploy_code generate_contract_address apply_create_message
    sender gas value bytecode start_pc None w = (Ok (addr, out), w') ->
  Env._get_sender sender w = (Ok s, w0) ->
  addr = generate_contract_address s (default 0 (nonces (accounts w) !! s)) /\
  exists m t, w' = (apply_create_message m t
                      (state_increment_nonce s (state_get_nonce s w0).2).2).2.
Proof.
  intros Hd Hs. destruct (_get_sender_accounts _ _ _ _ Hs) as [Hacc _].
  unfold Env.deploy_code in Hd. unfold bind at 1 in Hd.
  destruct (gas_frame gas w) as [r Hr]. rewrite Hr in Hd.
  destruct r as [g|e]; [|done].
  unfold bind at 1 in Hd. rewrite Hs in Hd.
  unfold bind at 1 in Hd. unfold bind at 1 in Hd.
  unfold state_get_nonce at 1 in Hd. unfold bind at 1 in Hd.
  unfold state_increment_nonce at 1, modify at 1 in Hd. unfold ret at 1 in Hd.
  unfold bind at 1 in Hd. unfold Env.get_gas_price at 1, gets at 1 in Hd.
  unfold bind at 1 in Hd.
  match type of Hd with
  | context [apply_create_message ?m ?t ?wi] =>
      destruct (apply_create_message m t wi) as [[c|e] w5] eqn:Hc; [|done];
      assert (w5 = (apply_create_message m t wi).2) as Hw5 by (by rewrite Hc)
  end.
  destruct (_error c); [done|]. unfold ret in Hd. injection Hd as <- _ <-.
  rewrite Hacc. split; [done|]. by do 2 eexists.
Qed.

End deploy_facts.

(** X28.  Two deployments without override from the same sender, both
    returning normally, in a run where [eoa] is the same at the second call
    and the sender's nonce is then what the first call set it to (the engine
    did not touch it): the first goes to the address generated from the
    sender and its nonce before, the second to the one generated from the
    next nonce.  The [Address] class may have been used in between, as long
    as it is in a state that its constructor keeps. *)
Theorem deploy_code_consecutive `{Address.EthUtils}
  (generate_contract_address : bytes -> Z -> bytes)
  (apply_create_message : Message -> TxCtx -> M World Computation)
  (sender : option Address.input) (gas1 gas2 : option Z) (value1 value2 : Z)
  (bytecode1 bytecode2 : bytes) (start_pc1 start_pc2 : Z)
  (w w0 w1 w2 : World) (s addr1 addr2 out1 out2 : bytes) :
  let n := default 0 (nonces (accounts w) !! s) in
  store_wf (addresses w) ->
  store_wf (addresses w1) ->
  Env._get_sender sender w = (Ok s, w0) ->
  Env.deploy_code generate_contract_address apply_create_message
    sender gas1 value1 bytecode1 start_pc1 None w = (Ok (addr1, out1), w1) ->
  eoa w1 = eoa w ->
  nonces (accounts w1) !! s = Some (n + 1) ->
  Env.deploy_code generate_contract_address apply_create_message
    sender gas2 value2 bytecode2 start_pc2 None w1 = (Ok (addr2, out2), w2) ->
  addr1 = generate_contract_address s n /\
  addr2 = generate_contract_address s (n + 1).
Proof.
  intros n Hwf Hwf1 Hs Hd1 He Hn1 Hd2.
  destruct (deploy_code_fresh_inv _ _ _ _ _ _ _ _ _ _ _ _ _ Hd1 Hs) as (-> & _).
  destruct (_get_sender_same sender w s w0 w1 Hwf Hwf1 He Hs) as [w0' Hs'].
  destruct (deploy_code_fresh_inv _ _ _ _ _ _ _ _ _ _ _ _ _ Hd2 Hs') as (-> & _).
  rewrite Hn1. done.
Qed.

Lemma deploy_code_consecutive_witness :
  let deploy := Env.deploy_code Examples.contract_address Examples.create_ok
                  None (Some 100000) 0 [Byte.x60] 0 None in
  let w1 := (deploy Fixtures.world0).2 in
  let s := Address.canonical_address Fixtures.eoa0 in
  (deploy Fixtures.world0).1 = Ok (Examples.contract_address s 0, [Byte.xfe]) /\
  (deploy w1).1 = Ok (Examples.contract_address s 1, [Byte.xfe]) /\
  Examples.contract_address s 0 <> Examples.contract_address s 1.
Proof.
  intros deploy w1 s.
  assert (Env._get_sender None Fixtures.world0
          = (Ok s, (Env._get_sender None Fixtures.world0).2)) as Hs
    by (vm_compute; reflexivity).
  assert (deploy Fixtures.world0
          = (Ok (Examples.contract_address s 0, [Byte.xfe]), w1)) as Hd1
    by (vm_compute; reflexivity).
  assert (deploy w1
          = (Ok (Examples.contract_address s 1, [Byte.xfe]), (deploy w1).2)) as Hd2
    by (vm_compute; reflexivity).
  assert (store_wf (addresses w1)) as Hwf1 by exact store_wf_world0.
  destruct (deploy_code_consecutive Examples.contract_address Examples.create_ok
              None (Some 100000) (Some 100000) 0 0 [Byte.x60] [Byte.x60] 0 0
              Fixtures.world0 _ w1 _ s _ _ _ _
              store_wf_world0 Hwf1 Hs Hd1 eq_refl eq_refl Hd2) as (H1 & H2).
  split; [by rewrite Hd1|]. split; [by rewrite Hd2|].
  vm_compute. discriminate.
Defined.
